(** * User-registration console: validation and persistence flow

    A shallow embedding of [src/server/server.js] (the Express record
    service) and of the registration form
    ([src/components/Registration.jsx]): its password feedback and its
    handlers.

    Conventions of the embedding.
    - A JavaScript string is a [string]: a sequence of code units below
      256.  On such strings the code-unit length that the form tests and
      the character count of the validator library coincide; strings
      with other code units, surrogate pairs among them, are outside
      the development, and nothing is stated about them.
    - A request body field that holds a string is an [option string];
      [None] is the JavaScript [undefined] of an absent key.  The
      [skills] field is any JSON value.
    - Regular expression literals are translated constructor by
      constructor into [Regex.re] and run by derivatives.
    - The table [users] is a list of rows in insertion order together
      with the AUTO_INCREMENT counter.  The widths of the columns
      [name], [email] and [phone] are part of the model, and the SQL
      mode of the server is a parameter; the timestamps are not.  The
      [skills] column has the type JSON: the statements write its text,
      and the driver hands its value over decoded. *)

From Stdlib Require Import Bool Arith List String Ascii PArith Lia Sorted.
Import ListNotations.

Local Open Scope string_scope.
Local Open Scope list_scope.
Local Open Scope nat_scope.

Set Implicit Arguments.
Set Warnings "-register-all".
Set Default Proof Using "Type".

(* ================================================================== *)
(** ** JavaScript strings *)

Module Js.

Definition code (c : ascii) : nat := nat_of_ascii c.

(** The double quote, code unit 34. *)
Definition dquote : ascii := ascii_of_nat 34.
(** The backslash, code unit 92. *)
Definition backslash : ascii := ascii_of_nat 92.

Definition chars (s : string) : list ascii := list_ascii_of_string s.

(** [c] lies in the closed range [lo-hi] of a character class. *)
Definition in_range (lo hi c : ascii) : bool :=
  (code lo <=? code c) && (code c <=? code hi).

(** [c] is one of the characters listed in [set]. *)
Definition one_of (set : string) (c : ascii) : bool :=
  existsb (Ascii.eqb c) (chars set).

(** The class [\s] restricted to code units below 256: TAB, LF, VT, FF,
    CR, SPACE and NO-BREAK SPACE.  String.prototype.trim strips the
    same code units. *)
Definition is_space (c : ascii) : bool :=
  let n := code c in
  ((9 <=? n) && (n <=? 13)) || (n =? 32) || (n =? 160).

Fixpoint ltrim (s : string) : string :=
  match s with
  | EmptyString => EmptyString
  | String c t => if is_space c then ltrim t else s
  end.

(** Drops trailing white space: a character is kept when something
    that is kept follows it, or when it is not white space. *)
Fixpoint rtrim (s : string) : string :=
  match s with
  | EmptyString => EmptyString
  | String c t =>
      match rtrim t with
      | EmptyString => if is_space c then EmptyString else String c EmptyString
      | t' => String c t'
      end
  end.

Definition trim (s : string) : string := rtrim (ltrim s).

(** Truthiness of a value that is [undefined] or a string. *)
Definition truthy (v : option string) : bool :=
  match v with
  | None => false
  | Some s => negb (String.eqb s "")
  end.

(** [String(v)] as the validator library applies it to a field. *)
Definition toString (v : option string) : string :=
  match v with
  | None => ""
  | Some s => s
  end.

End Js.

(* ================================================================== *)
(** ** Regular expressions *)

Module Regex.

Inductive re : Type :=
| Void : re
| Eps : re
| Cls (p : ascii -> bool) : re
| Cat (r1 r2 : re) : re
| Alt (r1 r2 : re) : re
| Star (r : re) : re.

Fixpoint nullable (r : re) : bool :=
  match r with
  | Void => false
  | Eps => true
  | Cls _ => false
  | Cat r1 r2 => nullable r1 && nullable r2
  | Alt r1 r2 => nullable r1 || nullable r2
  | Star _ => true
  end.

Fixpoint deriv (c : ascii) (r : re) : re :=
  match r with
  | Void => Void
  | Eps => Void
  | Cls p => if p c then Eps else Void
  | Cat r1 r2 =>
      if nullable r1
      then Alt (Cat (deriv c r1) r2) (deriv c r2)
      else Cat (deriv c r1) r2
  | Alt r1 r2 => Alt (deriv c r1) (deriv c r2)
  | Star r1 => Cat (deriv c r1) (Star r1)
  end.

(** The whole of [s] matches [r]: the pattern between [^] and [$]. *)
Fixpoint full (r : re) (s : string) : bool :=
  match s with
  | EmptyString => nullable r
  | String c t => full (deriv c r) t
  end.

(** Some prefix of [s] matches [r]. *)
Fixpoint prefix (r : re) (s : string) : bool :=
  nullable r ||
  match s with
  | EmptyString => false
  | String c t => prefix (deriv c r) t
  end.

(** [/r/.test(s)] for a pattern without anchors: a match may start at
    any position. *)
Fixpoint test (r : re) (s : string) : bool :=
  prefix r s ||
  match s with
  | EmptyString => false
  | String _ t => test r t
  end.

(** [r?] *)
Definition Opt (r : re) : re := Alt Eps r.

(** [r{0,n}] *)
Fixpoint upto (n : nat) (r : re) : re :=
  match n with
  | O => Eps
  | S k => Opt (Cat r (upto k r))
  end.

(** [r{1,n}] *)
Definition rep1 (n : nat) (r : re) : re := Cat r (upto (pred n) r).

End Regex.

(* ================================================================== *)
(** ** The password policy, as both files write it *)

Module Policy.
Import Js Regex.

(** [/[A-Z]/] *)
Definition re_upper : re := Cls (in_range "A" "Z").
(** [/[a-z]/] *)
Definition re_lower : re := Cls (in_range "a" "z").
(** [/[0-9]/] *)
Definition re_digit : re := Cls (in_range "0" "9").

(** The characters of the class of special characters, in the order of
    the source: ! @ # $ % ^ & * ( ) , . ? double-quote : { } | < > *)
Definition special_chars : string :=
  String.append "!@#$%^&*(),.?" (String dquote ":{}|<>").

Definition re_special : re := Cls (one_of special_chars).

End Policy.

(* ================================================================== *)
(** ** The registration form (client) *)

Module Client.
Import Js Regex Policy.

Record FormData : Type := mkFormData {
  name : string;
  email : string;
  password : string;
  phone : string;
  role : string;
  skills : list string
}.

Record PasswordValidation : Type := mkPasswordValidation {
  minLength : bool;
  hasUppercase : bool;
  hasLowercase : bool;
  hasNumber : bool;
  hasSpecial : bool
}.

(** The component state.  [editingId] is [null] or the id of a listed
    user; ids are AUTO_INCREMENT keys, hence positive and truthy. *)
Record AppState : Type := mkAppState {
  formData : FormData;
  passwordValidation : PasswordValidation;
  editingId : option positive;
  isLoading : bool
}.

Definition initialState : AppState :=
  mkAppState (mkFormData "" "" "" "" "user" [])
             (mkPasswordValidation false false false false false)
             None false.

Definition setPasswordValidation (pv : PasswordValidation) (st : AppState)
  : AppState :=
  mkAppState (formData st) pv (editingId st) (isLoading st).

Definition validatePassword (pw : string) (st : AppState) : AppState :=
  setPasswordValidation
    (mkPasswordValidation
       (8 <=? String.length pw)
       (test re_upper pw)
       (test re_lower pw)
       (test re_digit pw)
       (test re_special pw))
    st.

(** The effect that depends on [formData.password]. *)
Definition passwordEffect (st : AppState) : AppState :=
  validatePassword (password (formData st)) st.

(** [handleChange] for the password input, followed by the effect it
    triggers. *)
Definition changePassword (pw : string) (st : AppState) : AppState :=
  let fd := formData st in
  passwordEffect
    (mkAppState
       (mkFormData (name fd) (email fd) pw (phone fd) (role fd) (skills fd))
       (passwordValidation st) (editingId st) (isLoading st)).

Definition Object_values (pv : PasswordValidation) : list bool :=
  [minLength pv; hasUppercase pv; hasLowercase pv; hasNumber pv;
   hasSpecial pv].

Definition id_truthy (i : option positive) : bool :=
  match i with
  | Some _ => true
  | None => false
  end.

Definition isPasswordValid (st : AppState) : bool :=
  if id_truthy (editingId st) && negb (truthy (Some (password (formData st))))
  then true
  else forallb (fun criteria => Bool.eqb criteria true)
               (Object_values (passwordValidation st)).

End Client.


(* ================================================================== *)
(** ** JSON values, JSON.stringify, JSON.parse and String

    What [express.json()] hands over for the [skills] field of a body,
    what the handlers serialize, and what they read back. *)

Module Json.
Import Js.

(** The values of JSON.  A number is kept as the literal that denotes
    it, the text JSON.stringify prints for it; two literals of one
    number are not identified, and no handler computes with a number.
    An object is the list of its members in the order JSON.stringify
    prints them. *)
Inductive json : Type :=
| JNull : json
| JBool (b : bool) : json
| JNum (literal : string) : json
| JStr (s : string) : json
| JArr (items : list json) : json
| JObj (members : list (string * json)) : json.

(** The literal denotes zero: no digit other than 0 before the
    exponent. *)
Fixpoint zero_literal (t : string) : bool :=
  match t with
  | EmptyString => true
  | String c r =>
      if one_of "eE" c then true else one_of "-0." c && zero_literal r
  end.

(** Truthiness of a JSON value ([skills || []]). *)
Definition json_truthy (v : json) : bool :=
  match v with
  | JNull => false
  | JBool b => b
  | JNum t => negb (zero_literal t)
  | JStr s => negb (String.eqb s "")
  | JArr _ => true
  | JObj _ => true
  end.

Definition isArray (v : json) : bool :=
  match v with
  | JArr _ => true
  | _ => false
  end.

(** *** Serialization *)

(** Lower-case hexadecimal digit of a value below 16. *)
Definition hex_digit (n : nat) : ascii :=
  ascii_of_nat (if n <? 10 then 48 + n else 87 + n).

Definition str2 (a b : ascii) : string := String a (String b EmptyString).

(** QuoteJSONString on one code unit: the two-character escapes, the
    [\u00xx] form for the other control characters, the unit itself
    otherwise. *)
Definition quote_char (c : ascii) : string :=
  let n := code c in
  if n =? 8 then str2 backslash "b"
  else if n =? 9 then str2 backslash "t"
  else if n =? 10 then str2 backslash "n"
  else if n =? 12 then str2 backslash "f"
  else if n =? 13 then str2 backslash "r"
  else if n =? 34 then str2 backslash dquote
  else if n =? 92 then str2 backslash backslash
  else if n <? 32 then
    String backslash
      (String "u" (String "0" (String "0"
         (str2 (hex_digit (n / 16)) (hex_digit (n mod 16))))))
  else String c EmptyString.

Fixpoint quote_chars (s : string) : string :=
  match s with
  | EmptyString => EmptyString
  | String c t => String.append (quote_char c) (quote_chars t)
  end.

Definition quote (s : string) : string :=
  String dquote (String.append (quote_chars s) (String dquote EmptyString)).

(** [JSON.stringify(v)]: no white space is emitted; the elements of an
    array and the members of an object are separated by commas. *)
Fixpoint stringify (v : json) : string :=
  match v with
  | JNull => "null"
  | JBool true => "true"
  | JBool false => "false"
  | JNum t => t
  | JStr s => quote s
  | JArr [] => "[]"
  | JArr (x :: r) =>
      String "["
        (String.append (stringify x)
           ((fix tail (l : list json) : string :=
               match l with
               | [] => "]"
               | y :: l' => String "," (String.append (stringify y) (tail l'))
               end) r))
  | JObj [] => "{}"
  | JObj ((k, x) :: r) =>
      String "{"
        (String.append (quote k)
           (String ":"
              (String.append (stringify x)
                 ((fix tail (l : list (string * json)) : string :=
                     match l with
                     | [] => "}"
                     | (k', y) :: l' =>
                         String ","
                           (String.append (quote k')
                              (String ":"
                                 (String.append (stringify y) (tail l'))))
                     end) r))))
  end.

(** *** Conversion to a string

    [String(v)] for a value that came out of JSON.parse: a string is
    itself, an array is the join of its elements by commas
    (Array.prototype.toString, where null counts as the empty string),
    an object is the fixed text of Object.prototype.toString. *)
Fixpoint to_string (v : json) : string :=
  match v with
  | JNull => "null"
  | JBool true => "true"
  | JBool false => "false"
  | JNum t => t
  | JStr s => s
  | JArr [] => ""
  | JArr (x :: r) =>
      String.append
        match x with
        | JNull => ""
        | _ => to_string x
        end
        ((fix tail (l : list json) : string :=
            match l with
            | [] => ""
            | y :: l' =>
                String ","
                  (String.append
                     match y with
                     | JNull => ""
                     | _ => to_string y
                     end
                     (tail l'))
            end) r)
  | JObj _ => "[object Object]"
  end.

(** *** Parsing *)

Definition is_json_ws (c : ascii) : bool :=
  let n := code c in
  (n =? 9) || (n =? 10) || (n =? 13) || (n =? 32).

Fixpoint skip_ws (s : string) : string :=
  match s with
  | EmptyString => EmptyString
  | String c t => if is_json_ws c then skip_ws t else s
  end.

Definition hex_value (c : ascii) : option nat :=
  let n := code c in
  if (48 <=? n) && (n <=? 57) then Some (n - 48)
  else if (97 <=? n) && (n <=? 102) then Some (n - 87)
  else if (65 <=? n) && (n <=? 70) then Some (n - 55)
  else None.

Definition hex4 (a b c d : ascii) : option nat :=
  match hex_value a, hex_value b, hex_value c, hex_value d with
  | Some x, Some y, Some z, Some w => Some (((x * 16 + y) * 16 + z) * 16 + w)
  | _, _, _, _ => None
  end.

(** The character an escape letter stands for. *)
Definition unescape (e : ascii) : option ascii :=
  let n := code e in
  if n =? 34 then Some dquote
  else if n =? 92 then Some backslash
  else if n =? 47 then Some "/"%char
  else if n =? 98 then Some (ascii_of_nat 8)
  else if n =? 102 then Some (ascii_of_nat 12)
  else if n =? 110 then Some (ascii_of_nat 10)
  else if n =? 114 then Some (ascii_of_nat 13)
  else if n =? 116 then Some (ascii_of_nat 9)
  else None.

Definition cons_char (c : ascii) (r : option (string * string))
  : option (string * string) :=
  match r with
  | Some (s, rest) => Some (String c s, rest)
  | None => None
  end.

(** The characters of a string literal after its opening quote, up to
    and including the closing quote.  An escape [\uXXXX] that denotes a
    code unit above 255 is outside the modelled strings and is refused. *)
Fixpoint parse_chars (s : string) : option (string * string) :=
  match s with
  | EmptyString => None
  | String c t =>
      if Ascii.eqb c dquote then Some (EmptyString, t)
      else if Ascii.eqb c backslash then
        match t with
        | EmptyString => None
        | String e t1 =>
            if Ascii.eqb e "u" then
              match t1 with
              | String h1 (String h2 (String h3 (String h4 t2))) =>
                  match hex4 h1 h2 h3 h4 with
                  | Some n =>
                      if n <? 256
                      then cons_char (ascii_of_nat n) (parse_chars t2)
                      else None
                  | None => None
                  end
              | _ => None
              end
            else
              match unescape e with
              | Some c' => cons_char c' (parse_chars t1)
              | None => None
              end
        end
      else if code c <? 32 then None
      else cons_char c (parse_chars t)
  end.

(** [strip_prefix p s] is the rest of [s] after the literal [p]. *)
Fixpoint strip_prefix (p s : string) : option string :=
  match p with
  | EmptyString => Some s
  | String a p' =>
      match s with
      | EmptyString => None
      | String b s' => if Ascii.eqb a b then strip_prefix p' s' else None
      end
  end.

Definition literal (p : string) (v : json) (s : string)
  : option (json * string) :=
  match strip_prefix p s with
  | Some rest => Some (v, rest)
  | None => None
  end.

(** **** Number literals

    Each scanner returns the characters it read and the rest. *)

Definition is_digit (c : ascii) : bool := in_range "0" "9" c.

(** The longest run of digits. *)
Fixpoint digits (s : string) : string * string :=
  match s with
  | EmptyString => (EmptyString, EmptyString)
  | String c t =>
      if is_digit c
      then let (d, r) := digits t in (String c d, r)
      else (EmptyString, s)
  end.

(** The integer part: a single 0, or a digit from 1 to 9 and the digits
    after it. *)
Definition scan_int (s : string) : option (string * string) :=
  match s with
  | EmptyString => None
  | String c t =>
      if Ascii.eqb c "0" then Some (String c EmptyString, t)
      else if is_digit c then let (d, r) := digits t in Some (String c d, r)
      else None
  end.

(** The optional fraction: a point and at least one digit. *)
Definition scan_frac (s : string) : option (string * string) :=
  match s with
  | EmptyString => Some (EmptyString, s)
  | String c t =>
      if Ascii.eqb c "." then
        match digits t with
        | (EmptyString, _) => None
        | (d, r) => Some (String c d, r)
        end
      else Some (EmptyString, s)
  end.

(** The optional exponent: e or E, an optional sign, at least one
    digit. *)
Definition scan_exp (s : string) : option (string * string) :=
  match s with
  | EmptyString => Some (EmptyString, s)
  | String c t =>
      if one_of "eE" c then
        match t with
        | EmptyString => None
        | String g t' =>
            if one_of "+-" g then
              match digits t' with
              | (EmptyString, _) => None
              | (d, r) => Some (String c (String g d), r)
              end
            else
              match digits t with
              | (EmptyString, _) => None
              | (d, r) => Some (String c d, r)
              end
        end
      else Some (EmptyString, s)
  end.

Definition scan_unsigned (s : string) : option (string * string) :=
  match scan_int s with
  | None => None
  | Some (i, s1) =>
      match scan_frac s1 with
      | None => None
      | Some (f, s2) =>
          match scan_exp s2 with
          | None => None
          | Some (e, s3) =>
              Some (String.append i (String.append f e), s3)
          end
      end
  end.

Definition scan_number (s : string) : option (string * string) :=
  match s with
  | EmptyString => None
  | String c t =>
      if Ascii.eqb c "-" then
        match scan_unsigned t with
        | Some (l, r) => Some (String c l, r)
        | None => None
        end
      else scan_unsigned s
  end.

(** Recursive descent; [fuel] bounds the nesting and the number of
    elements and members. *)
Fixpoint parse_value (fuel : nat) (s : string) {struct fuel}
  : option (json * string) :=
  match fuel with
  | O => None
  | S f =>
      match skip_ws s with
      | EmptyString => None
      | String c t =>
          if Ascii.eqb c "[" then
            match skip_ws t with
            | EmptyString => None
            | String c' t' =>
                if Ascii.eqb c' "]" then Some (JArr [], t')
                else
                  match parse_items f t with
                  | Some (vs, rest) => Some (JArr vs, rest)
                  | None => None
                  end
            end
          else if Ascii.eqb c "{" then
            match skip_ws t with
            | EmptyString => None
            | String c' t' =>
                if Ascii.eqb c' "}" then Some (JObj [], t')
                else
                  match parse_members f t with
                  | Some (ms, rest) => Some (JObj ms, rest)
                  | None => None
                  end
            end
          else if Ascii.eqb c dquote then
            match parse_chars t with
            | Some (str, rest) => Some (JStr str, rest)
            | None => None
            end
          else if Ascii.eqb c "n" then literal "null" JNull (String c t)
          else if Ascii.eqb c "t" then literal "true" (JBool true) (String c t)
          else if Ascii.eqb c "f" then literal "false" (JBool false) (String c t)
          else
            match scan_number (String c t) with
            | Some (l, rest) => Some (JNum l, rest)
            | None => None
            end
      end
  end
with parse_items (fuel : nat) (s : string) {struct fuel}
  : option (list json * string) :=
  match fuel with
  | O => None
  | S f =>
      match parse_value f s with
      | None => None
      | Some (v, r) =>
          match skip_ws r with
          | EmptyString => None
          | String c t =>
              if Ascii.eqb c "," then
                match parse_items f t with
                | Some (vs, rest) => Some (v :: vs, rest)
                | None => None
                end
              else if Ascii.eqb c "]" then Some ([v], t)
              else None
          end
      end
  end
with parse_members (fuel : nat) (s : string) {struct fuel}
  : option (list (string * json) * string) :=
  match fuel with
  | O => None
  | S f =>
      match skip_ws s with
      | EmptyString => None
      | String q t0 =>
          if Ascii.eqb q dquote then
            match parse_chars t0 with
            | None => None
            | Some (k, r0) =>
                match skip_ws r0 with
                | EmptyString => None
                | String d t1 =>
                    if Ascii.eqb d ":" then
                      match parse_value f t1 with
                      | None => None
                      | Some (v, r) =>
                          match skip_ws r with
                          | EmptyString => None
                          | String c t =>
                              if Ascii.eqb c "," then
                                match parse_members f t with
                                | Some (ms, rest) => Some ((k, v) :: ms, rest)
                                | None => None
                                end
                              else if Ascii.eqb c "}" then Some ([(k, v)], t)
                              else None
                          end
                      end
                    else None
                end
            end
          else None
      end
  end.

(** One value, then nothing but white space. *)
Definition parse_fuel (fuel : nat) (text : string) : option json :=
  match parse_value fuel text with
  | Some (v, rest) =>
      match skip_ws rest with
      | EmptyString => Some v
      | String _ _ => None
      end
  | None => None
  end.

(** [JSON.parse(text)]; [None] stands for the SyntaxError it throws.
    More fuel than the length of the text never changes the result
    ([parse_fuel_enough] below).  The members of an object are kept as
    the text lists them. *)
Definition parse (text : string) : option json :=
  parse_fuel (S (String.length text)) text.

End Json.


Section Foundations.
Import Js Regex Policy Json.

(* ================================================================== *)
(** ** Facts about strings and patterns *)

Lemma append_nil_r (s : string) : String.append s EmptyString = s.
Proof.
  induction s as [|c s IH]; simpl; [reflexivity | now rewrite IH].
Qed.

Lemma append_assoc (a b c : string) :
  String.append (String.append a b) c = String.append a (String.append b c).
Proof.
  induction a as [|x a IH]; simpl; [reflexivity | now rewrite IH].
Qed.

Lemma length_append (a b : string) :
  String.length (String.append a b) = String.length a + String.length b.
Proof.
  induction a as [|x a IH]; simpl; [reflexivity | now rewrite IH].
Qed.

Lemma prefix_Void (s : string) : prefix Void s = false.
Proof.
  induction s as [|c s IH]; simpl; [reflexivity | exact IH].
Qed.

Lemma prefix_Eps (s : string) : prefix Eps s = true.
Proof.
  destruct s; reflexivity.
Qed.

Lemma prefix_Cls (p : ascii -> bool) (s : string) :
  prefix (Cls p) s =
  match s with
  | EmptyString => false
  | String c _ => p c
  end.
Proof.
  destruct s as [|c t]; simpl; [reflexivity|].
  destruct (p c); [apply prefix_Eps | apply prefix_Void].
Qed.

(** A one-class pattern without anchors looks for one character of the
    class anywhere in the string. *)
Lemma test_Cls (p : ascii -> bool) (s : string) :
  test (Cls p) s = existsb p (chars s).
Proof.
  induction s as [|c t IH].
  - reflexivity.
  - change (test (Cls p) (String c t))
      with (prefix (Cls p) (String c t) || test (Cls p) t).
    rewrite prefix_Cls, IH. reflexivity.
Qed.

Lemma in_range_spec (lo hi c : ascii) :
  in_range lo hi c = true <-> code lo <= code c <= code hi.
Proof.
  unfold in_range. rewrite andb_true_iff, !Nat.leb_le. tauto.
Qed.

Lemma one_of_spec (set : string) (c : ascii) :
  one_of set c = true <-> In c (chars set).
Proof.
  unfold one_of. rewrite existsb_exists. split.
  - intros [x [Hin Heq]]. apply Ascii.eqb_eq in Heq. now subst.
  - intros Hin. exists c. split; [exact Hin | apply Ascii.eqb_refl].
Qed.

Lemma test_Cls_spec (p : ascii -> bool) (s : string) :
  test (Cls p) s = true <-> exists c, In c (chars s) /\ p c = true.
Proof.
  rewrite test_Cls. apply existsb_exists.
Qed.

(* ================================================================== *)
(** ** The password feedback of the form *)

(** The five policy predicates in the words of the specification:
    at least 8 characters, one character in A-Z, one in a-z, one digit,
    one character of the fixed set of special characters. *)
Definition spec_policy (pw : string) : Prop :=
  8 <= String.length pw
  /\ (exists c, In c (chars pw) /\ code "A" <= code c <= code "Z")
  /\ (exists c, In c (chars pw) /\ code "a" <= code c <= code "z")
  /\ (exists c, In c (chars pw) /\ code "0" <= code c <= code "9")
  /\ (exists c, In c (chars pw) /\ In c (chars special_chars)).

Lemma test_range_spec (lo hi : ascii) (s : string) :
  test (Cls (in_range lo hi)) s = true
  <-> exists c, In c (chars s) /\ code lo <= code c <= code hi.
Proof.
  rewrite test_Cls_spec. split; intros [c [Hin Hc]]; exists c; split; auto;
    now apply in_range_spec.
Qed.

Lemma test_special_spec (s : string) :
  test re_special s = true
  <-> exists c, In c (chars s) /\ In c (chars special_chars).
Proof.
  unfold re_special. rewrite test_Cls_spec.
  split; intros [c [Hin Hc]]; exists c; split; auto; now apply one_of_spec.
Qed.

(** The five flags that [validatePassword] stores are the five
    predicates of the specification. *)
Lemma validatePassword_flags (pw : string) (st : Client.AppState) :
  forallb (fun criteria => Bool.eqb criteria true)
    (Client.Object_values
       (Client.passwordValidation (Client.validatePassword pw st))) = true
  <-> spec_policy pw.
Proof.
  unfold spec_policy, Client.validatePassword, Client.setPasswordValidation,
    Client.Object_values.
  cbn [Client.passwordValidation Client.minLength Client.hasUppercase
       Client.hasLowercase Client.hasNumber Client.hasSpecial forallb].
  rewrite !andb_true_iff, !Bool.eqb_true_iff.
  rewrite Nat.leb_le.
  unfold re_upper, re_lower, re_digit.
  rewrite !test_range_spec, test_special_spec.
  tauto.
Qed.

(** C2.  After the effect on the password field has run, isPasswordValid
    is true exactly when the five policy predicates hold for the
    password, except while a record is being edited and the password
    field is empty: then it is true whatever the predicates say. *)
Theorem isPasswordValid_spec (st : Client.AppState) :
  let st' := Client.passwordEffect st in
  let pw := Client.password (Client.formData st) in
  let keep_existing := Client.editingId st <> None /\ pw = "" in
  (keep_existing -> Client.isPasswordValid st' = true)
  /\ (~ keep_existing -> (Client.isPasswordValid st' = true <-> spec_policy pw)).
Proof.
  intros st' pw keep. subst st' keep.
  unfold Client.isPasswordValid, Client.passwordEffect.
  change (Client.editingId (Client.validatePassword _ st))
    with (Client.editingId st).
  change (Client.formData (Client.validatePassword _ st))
    with (Client.formData st).
  fold pw. split.
  - intros [Hid Hpw]. rewrite Hpw.
    destruct (Client.editingId st); [reflexivity | congruence].
  - intros Hnot.
    assert (Hcond : Client.id_truthy (Client.editingId st)
                    && negb (truthy (Some pw)) = false).
    { destruct (Client.editingId st) as [i|]; simpl; [|reflexivity].
      destruct (String.eqb_spec pw ""); simpl; [|reflexivity].
      exfalso. apply Hnot. split; [discriminate | assumption]. }
    rewrite Hcond. apply validatePassword_flags.
Qed.

(** The state reached by typing a password is one in which the effect
    has run. *)
Lemma changePassword_effect (pw : string) (st : Client.AppState) :
  Client.password (Client.formData (Client.changePassword pw st)) = pw
  /\ Client.passwordEffect (Client.changePassword pw st)
     = Client.changePassword pw st.
Proof.
  split; reflexivity.
Qed.

(* ================================================================== *)
(** ** JSON.parse undoes JSON.stringify *)

(** Induction on JSON values that reaches the elements of an array and
    the values of the members of an object. *)
Definition json_nested_ind (P : json -> Prop)
  (Hnull : P JNull) (Hbool : forall b, P (JBool b))
  (Hnum : forall t, P (JNum t))
  (Hstr : forall s, P (JStr s))
  (Harr : forall l, Forall P l -> P (JArr l))
  (Hobj : forall ms, Forall (fun m => P (snd m)) ms -> P (JObj ms))
  : forall v, P v :=
  fix go (v : json) : P v :=
    match v with
    | JNull => Hnull
    | JBool b => Hbool b
    | JNum t => Hnum t
    | JStr s => Hstr s
    | JArr l =>
        Harr l ((fix all (l : list json) : Forall P l :=
                   match l with
                   | [] => Forall_nil P
                   | x :: r => Forall_cons x (go x) (all r)
                   end) l)
    | JObj ms =>
        Hobj ms
          ((fix all (l : list (string * json))
              : Forall (fun m => P (snd m)) l :=
              match l with
              | [] => Forall_nil _
              | m :: r =>
                  Forall_cons m
                    (match m return P (snd m) with (_, x) => go x end)
                    (all r)
              end) ms)
    end.

(** A text is a number literal when the scanner reads all of it. *)
Definition number_literal (t : string) : bool :=
  match scan_number t with
  | Some (_, EmptyString) => true
  | _ => false
  end.

(** A value whose numbers are number literals. *)
Fixpoint well_formed (v : json) : bool :=
  match v with
  | JNum t => number_literal t
  | JArr l => forallb well_formed l
  | JObj ms => forallb (fun m => well_formed (snd m)) ms
  | _ => true
  end.

(** The text after the first element of an array. *)
Definition tail_text : list json -> string :=
  fix tail (l : list json) : string :=
    match l with
    | [] => "]"
    | y :: l' => String "," (String.append (stringify y) (tail l'))
    end.

(** The text after the first member of an object. *)
Definition members_text : list (string * json) -> string :=
  fix tail (l : list (string * json)) : string :=
    match l with
    | [] => "}"
    | (k', y) :: l' =>
        String ","
          (String.append (quote k')
             (String ":" (String.append (stringify y) (tail l'))))
    end.

Lemma stringify_cons (x : json) (r : list json) :
  stringify (JArr (x :: r))
  = String "[" (String.append (stringify x) (tail_text r)).
Proof. reflexivity. Qed.

Lemma tail_text_cons (y : json) (l : list json) :
  tail_text (y :: l)
  = String "," (String.append (stringify y) (tail_text l)).
Proof. reflexivity. Qed.

Lemma stringify_members (k : string) (x : json) (r : list (string * json)) :
  stringify (JObj ((k, x) :: r))
  = String "{"
      (String.append (quote k)
         (String ":" (String.append (stringify x) (members_text r)))).
Proof. reflexivity. Qed.

Lemma members_text_cons (k : string) (y : json) (l : list (string * json)) :
  members_text ((k, y) :: l)
  = String ","
      (String.append (quote k)
         (String ":" (String.append (stringify y) (members_text l)))).
Proof. reflexivity. Qed.

(** Fuel that parsing the serialization of [v] needs at most. *)
Fixpoint fuel_of (v : json) : nat :=
  match v with
  | JArr l =>
      S ((fix sum (l : list json) : nat :=
            match l with
            | [] => 0
            | x :: r => S (fuel_of x + sum r)
            end) l)
  | JObj ms =>
      S ((fix sum (l : list (string * json)) : nat :=
            match l with
            | [] => 0
            | (_, x) :: r => S (fuel_of x + sum r)
            end) ms)
  | _ => 1
  end.

Definition fuel_of_items : list json -> nat :=
  fix sum (l : list json) : nat :=
    match l with
    | [] => 0
    | x :: r => S (fuel_of x + sum r)
    end.

Definition fuel_of_members : list (string * json) -> nat :=
  fix sum (l : list (string * json)) : nat :=
    match l with
    | [] => 0
    | (_, x) :: r => S (fuel_of x + sum r)
    end.

Lemma fuel_of_arr (l : list json) : fuel_of (JArr l) = S (fuel_of_items l).
Proof. reflexivity. Qed.

Lemma fuel_of_obj (ms : list (string * json)) :
  fuel_of (JObj ms) = S (fuel_of_members ms).
Proof. reflexivity. Qed.

Lemma fuel_of_items_cons (x : json) (l : list json) :
  fuel_of_items (x :: l) = S (fuel_of x + fuel_of_items l).
Proof. reflexivity. Qed.

Lemma fuel_of_members_cons (k : string) (x : json)
  (l : list (string * json)) :
  fuel_of_members ((k, x) :: l) = S (fuel_of x + fuel_of_members l).
Proof. reflexivity. Qed.

(** *** Number literals *)

(** What may follow a number: the end of the text, or a character that
    no part of a literal starts with. *)
Definition stops (rest : string) : bool :=
  match rest with
  | EmptyString => true
  | String c _ => negb (is_digit c || one_of ".eE" c)
  end.

Lemma digits_stops (t rest : string) :
  stops rest = true ->
  digits (String.append t rest)
  = (fst (digits t), String.append (snd (digits t)) rest).
Proof.
  intros Hrest. induction t as [|c t IH].
  - destruct rest as [|c r]; [reflexivity|].
    cbn [String.append digits]. cbn [stops] in Hrest.
    destruct (is_digit c); [discriminate | reflexivity].
  - cbn [String.append digits].
    destruct (is_digit c); [|reflexivity].
    rewrite IH. destruct (digits t) as [d r]. reflexivity.
Qed.

Lemma scan_int_stops (t rest d r : string) :
  stops rest = true ->
  scan_int t = Some (d, r) ->
  scan_int (String.append t rest) = Some (d, String.append r rest).
Proof.
  intros Hrest H. destruct t as [|c t]; [discriminate|].
  cbn [String.append scan_int] in *.
  destruct (Ascii.eqb c "0"); [now inversion H|].
  destruct (is_digit c); [|discriminate].
  rewrite (@digits_stops t rest Hrest).
  destruct (digits t) as [d' r']. now inversion H.
Qed.

Lemma scan_frac_stops (t rest d r : string) :
  stops rest = true ->
  scan_frac t = Some (d, r) ->
  scan_frac (String.append t rest) = Some (d, String.append r rest).
Proof.
  intros Hrest H. destruct t as [|c t].
  - inversion H; subst. destruct rest as [|c r]; [reflexivity|].
    cbn [String.append scan_frac]. cbn [stops] in Hrest.
    destruct (Ascii.eqb_spec c "."); [|reflexivity].
    subst c. destruct (is_digit "."); discriminate.
  - cbn [String.append scan_frac] in *.
    destruct (Ascii.eqb c "."); [|now inversion H].
    rewrite (@digits_stops t rest Hrest).
    destruct (digits t) as [[|x d'] r']; [discriminate|].
    now inversion H.
Qed.

Lemma scan_exp_stops (t rest d r : string) :
  stops rest = true ->
  scan_exp t = Some (d, r) ->
  scan_exp (String.append t rest) = Some (d, String.append r rest).
Proof.
  intros Hrest H. destruct t as [|c t].
  - inversion H; subst. destruct rest as [|c r]; [reflexivity|].
    cbn [String.append scan_exp]. cbn [stops] in Hrest.
    destruct (one_of "eE" c) eqn:He; [|reflexivity].
    assert (Hc : one_of ".eE" c = true).
    { unfold one_of in *. simpl in *.
      destruct (Ascii.eqb c "."); [reflexivity|]. exact He. }
    rewrite Hc, orb_true_r in Hrest. discriminate.
  - cbn [String.append scan_exp] in *.
    destruct (one_of "eE" c); [|now inversion H].
    destruct t as [|g t]; [discriminate|].
    cbn [String.append].
    destruct (one_of "+-" g).
    + rewrite (@digits_stops t rest Hrest).
      destruct (digits t) as [[|x d'] r']; [discriminate|].
      now inversion H.
    + change (String g (String.append t rest))
        with (String.append (String g t) rest).
      rewrite (@digits_stops (String g t) rest Hrest).
      destruct (digits (String g t)) as [[|x d'] r']; [discriminate|].
      now inversion H.
Qed.

Lemma scan_unsigned_stops (t rest d r : string) :
  stops rest = true ->
  scan_unsigned t = Some (d, r) ->
  scan_unsigned (String.append t rest) = Some (d, String.append r rest).
Proof.
  intros Hrest H. unfold scan_unsigned in *.
  destruct (scan_int t) as [[i s1]|] eqn:Hi; [|discriminate].
  rewrite (@scan_int_stops t rest _ _ Hrest Hi).
  destruct (scan_frac s1) as [[f s2]|] eqn:Hf; [|discriminate].
  rewrite (@scan_frac_stops s1 rest _ _ Hrest Hf).
  destruct (scan_exp s2) as [[e s3]|] eqn:He; [|discriminate].
  rewrite (@scan_exp_stops s2 rest _ _ Hrest He).
  now inversion H.
Qed.

Lemma scan_number_stops (t rest d r : string) :
  stops rest = true ->
  scan_number t = Some (d, r) ->
  scan_number (String.append t rest) = Some (d, String.append r rest).
Proof.
  intros Hrest H. destruct t as [|c t]; [discriminate|].
  cbn [String.append scan_number] in *.
  destruct (Ascii.eqb c "-").
  - destruct (scan_unsigned t) as [[l r']|] eqn:Hu; [|discriminate].
    rewrite (@scan_unsigned_stops t rest _ _ Hrest Hu). now inversion H.
  - change (String c (String.append t rest))
      with (String.append (String c t) rest).
    now apply scan_unsigned_stops.
Qed.

(** The scanners return the text they read. *)
Lemma digits_split (s : string) :
  s = String.append (fst (digits s)) (snd (digits s)).
Proof.
  induction s as [|c s IH]; [reflexivity|].
  cbn [digits]. destruct (is_digit c); [|reflexivity].
  destruct (digits s) as [d r]. cbn [fst snd String.append] in *.
  now rewrite <- IH.
Qed.

Lemma scan_int_split (s d r : string) :
  scan_int s = Some (d, r) -> s = String.append d r.
Proof.
  destruct s as [|c s]; [discriminate|]. cbn [scan_int].
  destruct (Ascii.eqb c "0"); [intros H; now inversion H|].
  destruct (is_digit c); [|discriminate].
  pose proof (digits_split s) as Hs.
  destruct (digits s) as [d' r']. intros H. injection H as <- <-.
  cbn [fst snd String.append] in *. now rewrite <- Hs.
Qed.

Lemma scan_frac_split (s d r : string) :
  scan_frac s = Some (d, r) -> s = String.append d r.
Proof.
  destruct s as [|c s]; [intros H; now inversion H|]. cbn [scan_frac].
  destruct (Ascii.eqb c "."); [|intros H; now inversion H].
  pose proof (digits_split s) as Hs.
  destruct (digits s) as [[|x d'] r']; [discriminate|].
  intros H. injection H as <- <-.
  cbn [fst snd String.append] in *. now rewrite <- Hs.
Qed.

Lemma scan_exp_split (s d r : string) :
  scan_exp s = Some (d, r) -> s = String.append d r.
Proof.
  destruct s as [|c s]; [intros H; now inversion H|]. cbn [scan_exp].
  destruct (one_of "eE" c); [|intros H; now inversion H].
  destruct s as [|g s]; [discriminate|].
  destruct (one_of "+-" g).
  - pose proof (digits_split s) as Hs.
    destruct (digits s) as [[|x d'] r']; [discriminate|].
    intros H. injection H as <- <-.
    cbn [fst snd String.append] in *. now rewrite <- Hs.
  - pose proof (digits_split (String g s)) as Hs.
    destruct (digits (String g s)) as [[|x d'] r']; [discriminate|].
    intros H. injection H as <- <-.
    cbn [fst snd String.append] in *. now rewrite <- Hs.
Qed.

Lemma scan_unsigned_split (s d r : string) :
  scan_unsigned s = Some (d, r) -> s = String.append d r.
Proof.
  unfold scan_unsigned.
  destruct (scan_int s) as [[i s1]|] eqn:Hi; [|discriminate].
  destruct (scan_frac s1) as [[f s2]|] eqn:Hf; [|discriminate].
  destruct (scan_exp s2) as [[e s3]|] eqn:He; [|discriminate].
  intros H; inversion H; subst.
  apply scan_int_split in Hi. apply scan_frac_split in Hf.
  apply scan_exp_split in He. subst.
  now rewrite !append_assoc.
Qed.

Lemma scan_number_split (s d r : string) :
  scan_number s = Some (d, r) -> s = String.append d r.
Proof.
  destruct s as [|c s]; [discriminate|]. cbn [scan_number].
  destruct (Ascii.eqb c "-").
  - destruct (scan_unsigned s) as [[l r']|] eqn:Hu; [|discriminate].
    intros H; inversion H; subst.
    apply scan_unsigned_split in Hu. subst. reflexivity.
  - apply scan_unsigned_split.
Qed.

(** A number literal followed by something that stops it is read back
    as it is. *)
Lemma scan_number_literal (t rest : string) :
  number_literal t = true -> stops rest = true ->
  scan_number (String.append t rest) = Some (t, rest).
Proof.
  unfold number_literal. intros H Hrest.
  destruct (scan_number t) as [[l [|c r]]|] eqn:Hs; try discriminate.
  pose proof (@scan_number_split _ _ _ Hs) as Ht.
  rewrite append_nil_r in Ht. subst l.
  now rewrite (@scan_number_stops t rest _ _ Hrest Hs).
Qed.

(** A number literal starts with a minus sign or a digit. *)
Lemma number_literal_head (t : string) :
  number_literal t = true ->
  exists c t', t = String c t' /\ (Ascii.eqb c "-" || is_digit c = true).
Proof.
  unfold number_literal. destruct t as [|c t]; [discriminate|].
  intros H. exists c, t. split; [reflexivity|].
  cbn [scan_number] in H.
  destruct (Ascii.eqb c "-"); [reflexivity|].
  unfold scan_unsigned in H. cbn [scan_int] in H.
  destruct (Ascii.eqb_spec c "0") as [E|]; [rewrite E; reflexivity|].
  destruct (is_digit c); [reflexivity | discriminate].
Qed.

(** The first character of a number literal is none of those the
    parser dispatches on before it tries a number. *)
Lemma number_head_dispatch (c : ascii) :
  Ascii.eqb c "-" || is_digit c = true ->
  is_json_ws c = false
  /\ Ascii.eqb c "[" = false /\ Ascii.eqb c "]" = false
  /\ Ascii.eqb c "{" = false /\ Ascii.eqb c dquote = false
  /\ Ascii.eqb c "n" = false /\ Ascii.eqb c "t" = false
  /\ Ascii.eqb c "f" = false.
Proof.
  intros H.
  assert (Hne : forall d : ascii,
             (Ascii.eqb d "-" || is_digit d) = false -> Ascii.eqb c d = false).
  { intros d Hd. destruct (Ascii.eqb_spec c d) as [E|]; [|reflexivity].
    rewrite E, Hd in H. discriminate. }
  repeat split; try (apply Hne; reflexivity).
  unfold is_json_ws.
  destruct (Ascii.eqb_spec c "-") as [E|Hm]; [rewrite E; reflexivity|].
  cbn [orb] in H. unfold is_digit, in_range in H.
  apply andb_prop in H. destruct H as [H1 H2].
  apply Nat.leb_le in H1. change (code "0") with 48 in H1.
  repeat rewrite (proj2 (Nat.eqb_neq _ _)) by lia.
  reflexivity.
Qed.

(** *** The round trip *)

(** A serialization starts with a character that is neither white
    space nor a closing bracket. *)
Lemma stringify_head (v : json) :
  well_formed v = true ->
  exists c t, stringify v = String c t
              /\ is_json_ws c = false /\ Ascii.eqb c "]" = false.
Proof.
  destruct v as [|[|]|n|s|[|x r]|[|[k x] r]]; intros Hwf;
    try (simpl; eauto; fail).
  - cbn [well_formed] in Hwf.
    destruct (@number_literal_head _ Hwf) as [c [t' [-> Hc]]].
    exists c, t'. cbn [stringify].
    destruct (@number_head_dispatch _ Hc) as [? [? [? _]]]. auto.
  - unfold stringify, quote. eauto.
Qed.

Lemma stringify_nonempty (v : json) :
  well_formed v = true -> stringify v <> EmptyString.
Proof.
  intros Hwf. destruct (@stringify_head _ Hwf) as [c [t [H _]]].
  rewrite H. discriminate.
Qed.

Lemma skip_ws_stringify (v : json) (rest : string) :
  well_formed v = true ->
  skip_ws (String.append (stringify v) rest)
  = String.append (stringify v) rest.
Proof.
  intros Hwf. destruct (@stringify_head _ Hwf) as [c [t [H [Hws _]]]].
  rewrite H. simpl. now rewrite Hws.
Qed.

Lemma parse_chars_quote_char (c : ascii) (rest : string) :
  parse_chars (String.append (quote_char c) rest)
  = cons_char c (parse_chars rest).
Proof.
  destruct c as [[] [] [] [] [] [] [] []]; reflexivity.
Qed.

Lemma parse_chars_quote (s rest : string) :
  parse_chars (String.append (quote_chars s) (String dquote rest))
  = Some (s, rest).
Proof.
  induction s as [|c s IH].
  - reflexivity.
  - simpl quote_chars. rewrite append_assoc, parse_chars_quote_char, IH.
    reflexivity.
Qed.

Lemma parse_items_S (f : nat) (s : string) :
  parse_items (S f) s =
  match parse_value f s with
  | None => None
  | Some (v, r) =>
      match skip_ws r with
      | EmptyString => None
      | String c t =>
          if Ascii.eqb c ","
          then match parse_items f t with
               | Some (vs, rest) => Some (v :: vs, rest)
               | None => None
               end
          else if Ascii.eqb c "]" then Some ([v], t)
          else None
      end
  end.
Proof. reflexivity. Qed.

Lemma parse_members_S (f : nat) (s : string) :
  parse_members (S f) s =
  match skip_ws s with
  | EmptyString => None
  | String q t0 =>
      if Ascii.eqb q dquote then
        match parse_chars t0 with
        | None => None
        | Some (k, r0) =>
            match skip_ws r0 with
            | EmptyString => None
            | String d t1 =>
                if Ascii.eqb d ":" then
                  match parse_value f t1 with
                  | None => None
                  | Some (v, r) =>
                      match skip_ws r with
                      | EmptyString => None
                      | String c t =>
                          if Ascii.eqb c "," then
                            match parse_members f t with
                            | Some (ms, rest) => Some ((k, v) :: ms, rest)
                            | None => None
                            end
                          else if Ascii.eqb c "}" then Some ([(k, v)], t)
                          else None
                      end
                  end
                else None
            end
        end
      else None
  end.
Proof. reflexivity. Qed.

(** The parser reads the serialization of [v] back, whatever follows
    it, provided that what follows cannot continue a number. *)
Definition reads (v : json) : Prop :=
  forall f rest, fuel_of v <= f -> stops rest = true ->
    parse_value f (String.append (stringify v) rest) = Some (v, rest).

Lemma stops_tail_text (l : list json) (rest : string) :
  stops (String.append (tail_text l) rest) = true.
Proof. destruct l; reflexivity. Qed.

Lemma stops_members_text (l : list (string * json)) (rest : string) :
  stops (String.append (members_text l) rest) = true.
Proof. destruct l as [|[k y] l]; reflexivity. Qed.

Lemma parse_items_stringify (l : list json) :
  Forall reads l ->
  forall x f rest,
    reads x ->
    fuel_of_items (x :: l) <= f ->
    parse_items f
      (String.append (stringify x) (String.append (tail_text l) rest))
    = Some (x :: l, rest).
Proof.
  induction 1 as [|y l Hy Hl IH]; intros x f rest Hx Hf;
    rewrite fuel_of_items_cons in Hf;
    (destruct f as [|f]; [lia|]);
    rewrite parse_items_S, Hx by (try apply stops_tail_text; lia).
  - reflexivity.
  - rewrite tail_text_cons.
    cbn [String.append skip_ws].
    change (is_json_ws ",") with false. cbv iota.
    change (Ascii.eqb "," ",") with true. cbv iota.
    rewrite append_assoc.
    rewrite (IH y f rest Hy) by lia.
    reflexivity.
Qed.

Lemma parse_members_stringify (l : list (string * json)) :
  Forall (fun m => reads (snd m)) l ->
  forall k x f rest,
    reads x ->
    fuel_of_members ((k, x) :: l) <= f ->
    parse_members f
      (String.append (quote k)
         (String ":"
            (String.append (stringify x)
               (String.append (members_text l) rest))))
    = Some ((k, x) :: l, rest).
Proof.
  induction 1 as [|[k' y] l Hy Hl IH]; intros k x f rest Hx Hf;
    rewrite fuel_of_members_cons in Hf;
    (destruct f as [|f]; [lia|]);
    rewrite parse_members_S;
    unfold quote at 1; cbn [String.append skip_ws];
    change (is_json_ws dquote) with false; cbv iota;
    change (Ascii.eqb dquote dquote) with true; cbv iota;
    rewrite append_assoc; cbn [String.append];
    rewrite parse_chars_quote;
    cbn [String.append skip_ws];
    change (is_json_ws ":") with false; cbv iota;
    change (Ascii.eqb ":" ":") with true; cbv iota;
    rewrite Hx by (try apply stops_members_text; lia).
  - reflexivity.
  - rewrite members_text_cons.
    cbn [String.append skip_ws].
    change (is_json_ws ",") with false. cbv iota.
    change (Ascii.eqb "," ",") with true. cbv iota.
    cbn [snd] in Hy.
    pose proof (IH k' y f rest Hy) as Hrec.
    rewrite !append_assoc in *. cbn [String.append] in *.
    rewrite !append_assoc in *.
    rewrite Hrec by lia.
    reflexivity.
Qed.

Lemma parse_value_string (f : nat) (t : string) :
  parse_value (S f) (String dquote t) =
  match parse_chars t with
  | Some (str, rest) => Some (JStr str, rest)
  | None => None
  end.
Proof. reflexivity. Qed.

Lemma parse_value_array (f : nat) (t : string) :
  parse_value (S f) (String "[" t) =
  match skip_ws t with
  | EmptyString => None
  | String c' t' =>
      if Ascii.eqb c' "]" then Some (JArr [], t')
      else match parse_items f t with
           | Some (vs, rest) => Some (JArr vs, rest)
           | None => None
           end
  end.
Proof. reflexivity. Qed.

Lemma parse_value_object (f : nat) (t : string) :
  parse_value (S f) (String "{" t) =
  match skip_ws t with
  | EmptyString => None
  | String c' t' =>
      if Ascii.eqb c' "}" then Some (JObj [], t')
      else match parse_members f t with
           | Some (ms, rest) => Some (JObj ms, rest)
           | None => None
           end
  end.
Proof. reflexivity. Qed.

Lemma parse_value_S (f : nat) (s : string) :
  parse_value (S f) s =
  match skip_ws s with
  | EmptyString => None
  | String c t =>
      if Ascii.eqb c "[" then
        match skip_ws t with
        | EmptyString => None
        | String c' t' =>
            if Ascii.eqb c' "]" then Some (JArr [], t')
            else match parse_items f t with
                 | Some (vs, rest) => Some (JArr vs, rest)
                 | None => None
                 end
        end
      else if Ascii.eqb c "{" then
        match skip_ws t with
        | EmptyString => None
        | String c' t' =>
            if Ascii.eqb c' "}" then Some (JObj [], t')
            else match parse_members f t with
                 | Some (ms, rest) => Some (JObj ms, rest)
                 | None => None
                 end
        end
      else if Ascii.eqb c dquote then
        match parse_chars t with
        | Some (str, rest) => Some (JStr str, rest)
        | None => None
        end
      else if Ascii.eqb c "n" then literal "null" JNull (String c t)
      else if Ascii.eqb c "t" then literal "true" (JBool true) (String c t)
      else if Ascii.eqb c "f" then literal "false" (JBool false) (String c t)
      else
        match scan_number (String c t) with
        | Some (l, rest) => Some (JNum l, rest)
        | None => None
        end
  end.
Proof. reflexivity. Qed.

Lemma parse_value_stringify (v : json) :
  well_formed v = true -> reads v.
Proof.
  induction v as [|b|n|s|l IH|ms IH] using json_nested_ind;
    intros Hwf f rest Hf Hrest;
    (destruct f as [|f]; [simpl in Hf; lia|]).
  - reflexivity.
  - destruct b; reflexivity.
  - cbn [well_formed] in Hwf. cbn [stringify].
    destruct (@number_literal_head _ Hwf) as [c [t' [Hn Hc]]].
    destruct (@number_head_dispatch _ Hc)
      as [Hws [H1 [_ [H2 [H3 [H4 [H5 H6]]]]]]].
    rewrite parse_value_S.
    pose proof (@scan_number_literal n rest Hwf Hrest) as Hscan.
    rewrite Hn in *. cbn [String.append skip_ws] in *.
    rewrite Hws, H1, H2, H3, H4, H5, H6, Hscan. reflexivity.
  - cbn [stringify]. unfold quote. cbn [String.append].
    rewrite parse_value_string, append_assoc. cbn [String.append].
    now rewrite parse_chars_quote.
  - cbn [well_formed] in Hwf. rewrite forallb_forall in Hwf.
    assert (Hall : Forall reads l).
    { rewrite Forall_forall in *. intros x Hx. apply IH; auto. }
    destruct l as [|x l]; [reflexivity|].
    rewrite stringify_cons.
    cbn [String.append]. rewrite append_assoc.
    rewrite fuel_of_arr in Hf.
    inversion Hall as [|x' l' Hx Hl]; subst.
    pose proof (@parse_items_stringify l Hl x f rest Hx) as Hitems.
    rewrite parse_value_array, skip_ws_stringify by (apply Hwf; now left).
    destruct (stringify_head x) as [c [t [Hc [Hws Hbr]]]];
      [apply Hwf; now left|].
    rewrite Hitems by lia.
    rewrite Hc. cbn [String.append]. rewrite Hbr.
    reflexivity.
  - cbn [well_formed] in Hwf. rewrite forallb_forall in Hwf.
    assert (Hall : Forall (fun m => reads (snd m)) ms).
    { rewrite Forall_forall in *. intros m Hm. apply IH; auto. }
    destruct ms as [|[k x] ms]; [reflexivity|].
    rewrite stringify_members.
    cbn [String.append].
    rewrite fuel_of_obj in Hf.
    inversion Hall as [|m' l' Hx Hl]; subst. cbn [snd] in Hx.
    pose proof (@parse_members_stringify ms Hl k x f rest Hx) as Hmem.
    rewrite parse_value_object.
    rewrite !append_assoc. cbn [String.append]. rewrite !append_assoc.
    rewrite Hmem by lia.
    unfold quote. cbn [String.append skip_ws].
    change (is_json_ws dquote) with false. cbv iota.
    change (Ascii.eqb dquote "}") with false. cbv iota.
    reflexivity.
Qed.

Lemma quote_length (s : string) : 2 <= String.length (quote s).
Proof.
  unfold quote. cbn [String.length]. rewrite length_append. simpl. lia.
Qed.

Lemma number_literal_length (t : string) :
  number_literal t = true -> 1 <= String.length t.
Proof.
  intros H. destruct (@number_literal_head _ H) as [c [t' [-> _]]].
  simpl. lia.
Qed.

Lemma fuel_of_le_length (v : json) :
  well_formed v = true ->
  fuel_of v <= String.length (stringify v).
Proof.
  induction v as [|b|n|s|l IH|ms IH] using json_nested_ind; intros Hwf.
  - simpl; lia.
  - destruct b; simpl; lia.
  - cbn [well_formed] in Hwf. apply number_literal_length in Hwf.
    cbn [fuel_of stringify]. lia.
  - cbn [fuel_of stringify]. pose proof (quote_length s). lia.
  - cbn [well_formed] in Hwf. rewrite forallb_forall in Hwf.
    assert (Hall : Forall (fun v => fuel_of v <= String.length (stringify v))
                     l).
    { rewrite Forall_forall in *. intros x Hx. apply IH; auto. }
    clear IH Hwf.
    destruct Hall as [|x l Hx Hl]; [simpl; lia|].
    rewrite stringify_cons, fuel_of_arr.
    cbn [String.length]. rewrite length_append.
    assert (Htail : fuel_of_items l < String.length (tail_text l)).
    { clear Hx. induction Hl as [|y l Hy Hl IHl]; [simpl; lia|].
      rewrite tail_text_cons, fuel_of_items_cons. cbn [String.length].
      rewrite length_append. lia. }
    rewrite fuel_of_items_cons. lia.
  - cbn [well_formed] in Hwf. rewrite forallb_forall in Hwf.
    assert (Hall : Forall (fun m => fuel_of (snd m)
                                    <= String.length (stringify (snd m)))
                     ms).
    { rewrite Forall_forall in *. intros x Hx. apply IH; auto. }
    clear IH Hwf.
    destruct Hall as [|[k x] l Hx Hl]; [simpl; lia|].
    rewrite stringify_members, fuel_of_obj.
    cbn [String.length]. rewrite length_append. cbn [String.length].
    rewrite length_append.
    assert (Htail : fuel_of_members l < String.length (members_text l)).
    { clear Hx. induction Hl as [|[k' y] l Hy Hl IHl]; [simpl; lia|].
      rewrite members_text_cons, fuel_of_members_cons. cbn [String.length].
      rewrite length_append. cbn [String.length]. rewrite length_append.
      cbn [snd] in Hy. lia. }
    rewrite fuel_of_members_cons. cbn [snd] in Hx. lia.
Qed.

(** JSON.parse(JSON.stringify(v)) is [v]. *)
Theorem parse_stringify (v : json) :
  well_formed v = true -> parse (stringify v) = Some v.
Proof.
  intros Hwf. unfold parse, parse_fuel.
  rewrite <- (append_nil_r (stringify v)) at 2.
  rewrite (@parse_value_stringify v Hwf)
    by (pose proof (@fuel_of_le_length v Hwf); (lia || reflexivity)).
  reflexivity.
Qed.

(** *** The fuel of the parser

    A parse that succeeds with some fuel succeeds with any larger fuel,
    and needs no more fuel than the number of characters it reads. *)

Lemma parse_fuel_mono (f : nat) :
  (forall s r f', parse_value f s = Some r -> f <= f' ->
                  parse_value f' s = Some r)
  /\ (forall s r f', parse_items f s = Some r -> f <= f' ->
                     parse_items f' s = Some r)
  /\ (forall s r f', parse_members f s = Some r -> f <= f' ->
                     parse_members f' s = Some r).
Proof.
  induction f as [|f [IHv [IHi IHm]]].
  - repeat split; intros s r f' H; discriminate.
  - repeat split; intros s r f' H Hle;
      (destruct f' as [|f']; [lia|]); assert (Hle' : f <= f') by lia.
    + rewrite parse_value_S in *.
      destruct (skip_ws s) as [|c t]; [discriminate|].
      destruct (Ascii.eqb c "[").
      { destruct (skip_ws t) as [|c' t']; [discriminate|].
        destruct (Ascii.eqb c' "]"); [exact H|].
        destruct (parse_items f t) as [[vs rest]|] eqn:Hi; [|discriminate].
        now rewrite (IHi _ _ _ Hi Hle'). }
      destruct (Ascii.eqb c "{"); [|exact H].
      destruct (skip_ws t) as [|c' t']; [discriminate|].
      destruct (Ascii.eqb c' "}"); [exact H|].
      destruct (parse_members f t) as [[vs rest]|] eqn:Hi; [|discriminate].
      now rewrite (IHm _ _ _ Hi Hle').
    + rewrite parse_items_S in *.
      destruct (parse_value f s) as [[v r0]|] eqn:Hv; [|discriminate].
      rewrite (IHv _ _ _ Hv Hle').
      destruct (skip_ws r0) as [|c t]; [discriminate|].
      destruct (Ascii.eqb c ","); [|exact H].
      destruct (parse_items f t) as [[vs rest]|] eqn:Hi; [|discriminate].
      now rewrite (IHi _ _ _ Hi Hle').
    + rewrite parse_members_S in *.
      destruct (skip_ws s) as [|q t0]; [discriminate|].
      destruct (Ascii.eqb q dquote); [|discriminate].
      destruct (parse_chars t0) as [[k r0]|]; [|discriminate].
      destruct (skip_ws r0) as [|d t1]; [discriminate|].
      destruct (Ascii.eqb d ":"); [|discriminate].
      destruct (parse_value f t1) as [[v r1]|] eqn:Hv; [|discriminate].
      rewrite (IHv _ _ _ Hv Hle').
      destruct (skip_ws r1) as [|c t]; [discriminate|].
      destruct (Ascii.eqb c ","); [|exact H].
      destruct (parse_members f t) as [[vs rest]|] eqn:Hi; [|discriminate].
      now rewrite (IHm _ _ _ Hi Hle').
Qed.

Lemma skip_ws_length (s : string) :
  String.length (skip_ws s) <= String.length s.
Proof.
  induction s as [|c s IH]; simpl; [lia|].
  destruct (is_json_ws c); simpl; lia.
Qed.

Lemma cons_char_length (c : ascii) (r : option (string * string))
  (str rest : string) (n : nat) :
  cons_char c r = Some (str, rest) ->
  (forall str' rest', r = Some (str', rest') -> String.length rest' < n) ->
  String.length rest < n.
Proof.
  destruct r as [[str' rest']|]; [|discriminate].
  intros H Hn. inversion H; subst. eapply Hn. reflexivity.
Qed.

Lemma parse_chars_length (n : nat) :
  forall s str rest,
    String.length s <= n ->
    parse_chars s = Some (str, rest) ->
    String.length rest < String.length s.
Proof.
  induction n as [|n IH]; intros s str rest Hn H.
  - destruct s; [discriminate | simpl in Hn; lia].
  - destruct s as [|c t]; [discriminate|].
    cbn [parse_chars] in H. cbn [String.length] in *.
    destruct (Ascii.eqb c dquote).
    { inversion H; subst. lia. }
    destruct (Ascii.eqb c backslash).
    + destruct t as [|e t1]; [discriminate|].
      cbn [String.length] in *.
      destruct (Ascii.eqb e "u").
      * destruct t1 as [|h1 [|h2 [|h3 [|h4 t2]]]]; try discriminate.
        cbn [String.length] in *.
        destruct (hex4 h1 h2 h3 h4) as [k|]; [|discriminate].
        destruct (k <? 256); [|discriminate].
        apply cons_char_length with (n := String.length t2) in H; [lia|].
        intros str' rest' H'. eapply IH; [|exact H']; lia.
      * destruct (unescape e) as [c'|]; [|discriminate].
        apply cons_char_length with (n := String.length t1) in H; [lia|].
        intros str' rest' H'. eapply IH; [|exact H']; lia.
    + destruct (code c <? 32); [discriminate|].
      apply cons_char_length with (n := String.length t) in H; [lia|].
      intros str' rest' H'. eapply IH; [|exact H']; lia.
Qed.

Lemma strip_prefix_length (p s rest : string) :
  strip_prefix p s = Some rest ->
  String.length rest + String.length p = String.length s.
Proof.
  revert s. induction p as [|a p IH]; intros s H.
  - inversion H. simpl. lia.
  - destruct s as [|b s]; [discriminate|]. simpl in H.
    destruct (Ascii.eqb a b); [|discriminate].
    apply IH in H. simpl. lia.
Qed.

Lemma literal_length (p : string) (v v' : json) (s rest : string) :
  literal p v s = Some (v', rest) ->
  String.length rest + String.length p = String.length s.
Proof.
  unfold literal. destruct (strip_prefix p s) as [r|] eqn:H; [|discriminate].
  intros H'. inversion H'; subst. now apply strip_prefix_length.
Qed.

Lemma scan_number_length (s l rest : string) :
  scan_number s = Some (l, rest) ->
  String.length rest < String.length s.
Proof.
  intros H. pose proof (@scan_number_split _ _ _ H) as Hs.
  assert (Hl : 1 <= String.length l).
  { destruct l as [|c l]; [|simpl; lia].
    exfalso. cbn [String.append] in Hs. subst rest.
    destruct s as [|c s]; [discriminate|]. cbn [scan_number] in H.
    destruct (Ascii.eqb c "-").
    - destruct (scan_unsigned s) as [[l r']|]; discriminate.
    - unfold scan_unsigned in H.
      destruct (scan_int (String c s)) as [[i s1]|] eqn:Hi; [|discriminate].
      destruct (scan_frac s1) as [[f s2]|]; [|discriminate].
      destruct (scan_exp s2) as [[e s3]|]; [|discriminate].
      cbn [scan_int] in Hi.
      destruct (Ascii.eqb c "0"); [inversion Hi; subst; discriminate|].
      destruct (is_digit c); [|discriminate].
      destruct (digits s); inversion Hi; subst; discriminate. }
  rewrite Hs, length_append. lia.
Qed.

(** A successful parse reads at least one character (two for a list of
    elements or members with its closing bracket), and the number of
    characters read is fuel enough. *)
Lemma parse_fuel_bound (f : nat) :
  (forall s v rest,
      parse_value f s = Some (v, rest) ->
      String.length rest < String.length s
      /\ parse_value (String.length s - String.length rest) s
         = Some (v, rest))
  /\ (forall s vs rest,
        parse_items f s = Some (vs, rest) ->
        String.length rest + 2 <= String.length s
        /\ parse_items (String.length s - String.length rest) s
           = Some (vs, rest))
  /\ (forall s ms rest,
        parse_members f s = Some (ms, rest) ->
        String.length rest + 2 <= String.length s
        /\ parse_members (String.length s - String.length rest) s
           = Some (ms, rest)).
Proof.
  induction f as [|f [IHv [IHi IHm]]].
  - repeat split; intros; discriminate.
  - split; [|split].
    + intros s v rest H.
      pose proof (skip_ws_length s) as Hws.
      rewrite parse_value_S in H.
      destruct (skip_ws s) as [|c t] eqn:Hs; [discriminate|].
      cbn [String.length] in Hws.
      assert (Hone :
                forall k, String.length rest + k = String.length t ->
                          parse_value 1 s = Some (v, rest) ->
                          String.length rest < String.length s
                          /\ parse_value
                               (String.length s - String.length rest) s
                             = Some (v, rest)).
      { intros k Hk H1. split; [lia|].
        apply (proj1 (parse_fuel_mono 1) _ _ _ H1). lia. }
      destruct (Ascii.eqb c "[") eqn:Hc.
      { pose proof (skip_ws_length t) as Hwt.
        destruct (skip_ws t) as [|c' t'] eqn:Ht; [discriminate|].
        cbn [String.length] in Hwt.
        destruct (Ascii.eqb c' "]") eqn:Hc'.
        - inversion H; subst.
          apply (Hone (String.length t - String.length rest)); [lia|].
          rewrite parse_value_S, Hs, Hc, Ht, Hc'. reflexivity.
        - destruct (parse_items f t) as [[vs r]|] eqn:Hi; [|discriminate].
          inversion H; subst.
          destruct (IHi _ _ _ Hi) as [Hlen Hfuel].
          split; [lia|].
          apply (proj1 (parse_fuel_mono
                          (S (String.length t - String.length rest))));
            [|lia].
          rewrite parse_value_S, Hs, Hc, Ht, Hc', Hfuel. reflexivity. }
      destruct (Ascii.eqb c "{") eqn:Ho.
      { pose proof (skip_ws_length t) as Hwt.
        destruct (skip_ws t) as [|c' t'] eqn:Ht; [discriminate|].
        cbn [String.length] in Hwt.
        destruct (Ascii.eqb c' "}") eqn:Hc'.
        - inversion H; subst.
          apply (Hone (String.length t - String.length rest)); [lia|].
          rewrite parse_value_S, Hs, Hc, Ho, Ht, Hc'. reflexivity.
        - destruct (parse_members f t) as [[vs r]|] eqn:Hi; [|discriminate].
          inversion H; subst.
          destruct (IHm _ _ _ Hi) as [Hlen Hfuel].
          split; [lia|].
          apply (proj1 (parse_fuel_mono
                          (S (String.length t - String.length rest))));
            [|lia].
          rewrite parse_value_S, Hs, Hc, Ho, Ht, Hc', Hfuel. reflexivity. }
      destruct (Ascii.eqb c dquote) eqn:Hq.
      { destruct (parse_chars t) as [[str r]|] eqn:Hp; [|discriminate].
        inversion H; subst.
        pose proof (@parse_chars_length (String.length t) t str rest
                      (le_n _) Hp) as Hlen.
        apply (Hone (String.length t - String.length rest)); [lia|].
        rewrite parse_value_S, Hs, Hc, Ho, Hq, Hp. reflexivity. }
      assert (Hlit :
                forall p v0,
                  literal p v0 (String c t) = Some (v, rest) ->
                  0 < String.length p ->
                  parse_value 1 s = Some (v, rest) ->
                  String.length rest < String.length s
                  /\ parse_value
                       (String.length s - String.length rest) s
                     = Some (v, rest)).
      { intros p v0 Hl Hp H1. apply literal_length in Hl.
        cbn [String.length] in Hl.
        apply (Hone (String.length t - String.length rest)); [lia|].
        exact H1. }
      destruct (Ascii.eqb c "n") eqn:Hn.
      { apply (Hlit _ _ H); [simpl; lia|].
        rewrite parse_value_S, Hs, Hc, Ho, Hq, Hn. exact H. }
      destruct (Ascii.eqb c "t") eqn:Htr.
      { apply (Hlit _ _ H); [simpl; lia|].
        rewrite parse_value_S, Hs, Hc, Ho, Hq, Hn, Htr. exact H. }
      destruct (Ascii.eqb c "f") eqn:Hfa.
      { apply (Hlit _ _ H); [simpl; lia|].
        rewrite parse_value_S, Hs, Hc, Ho, Hq, Hn, Htr, Hfa. exact H. }
      destruct (scan_number (String c t)) as [[l r]|] eqn:Hnum;
        [|discriminate].
      inversion H; subst.
      pose proof (@scan_number_length _ _ _ Hnum) as Hlen.
      cbn [String.length] in Hlen.
      apply (Hone (String.length t - String.length rest)); [lia|].
      rewrite parse_value_S, Hs, Hc, Ho, Hq, Hn, Htr, Hfa, Hnum.
      reflexivity.
    + intros s vs rest H.
      rewrite parse_items_S in H.
      destruct (parse_value f s) as [[v r]|] eqn:Hv; [|discriminate].
      destruct (IHv _ _ _ Hv) as [Hlen Hfuel].
      pose proof (skip_ws_length r) as Hwr.
      destruct (skip_ws r) as [|c t] eqn:Hr; [discriminate|].
      cbn [String.length] in Hwr.
      destruct (Ascii.eqb c ",") eqn:Hc.
      * destruct (parse_items f t) as [[vs' r']|] eqn:Hi; [|discriminate].
        inversion H; subst.
        destruct (IHi _ _ _ Hi) as [Hlen' Hfuel'].
        split; [lia|].
        destruct (String.length s - String.length rest) as [|k] eqn:Hk;
          [lia|].
        rewrite parse_items_S.
        rewrite (proj1 (parse_fuel_mono _) _ _ k Hfuel) by lia.
        rewrite Hr, Hc.
        rewrite (proj1 (proj2 (parse_fuel_mono _)) _ _ k Hfuel') by lia.
        reflexivity.
      * destruct (Ascii.eqb c "]") eqn:Hb; [|discriminate].
        inversion H; subst.
        split; [lia|].
        destruct (String.length s - String.length rest) as [|k] eqn:Hk;
          [lia|].
        rewrite parse_items_S.
        rewrite (proj1 (parse_fuel_mono _) _ _ k Hfuel) by lia.
        rewrite Hr, Hc, Hb. reflexivity.
    + intros s ms rest H.
      rewrite parse_members_S in H.
      pose proof (skip_ws_length s) as Hws.
      destruct (skip_ws s) as [|q t0] eqn:Hs; [discriminate|].
      cbn [String.length] in Hws.
      destruct (Ascii.eqb q dquote) eqn:Hq; [|discriminate].
      destruct (parse_chars t0) as [[k0 r0]|] eqn:Hp; [|discriminate].
      pose proof (@parse_chars_length (String.length t0) t0 k0 r0
                    (le_n _) Hp) as Hlen0.
      pose proof (skip_ws_length r0) as Hw0.
      destruct (skip_ws r0) as [|d t1] eqn:Hr0; [discriminate|].
      cbn [String.length] in Hw0.
      destruct (Ascii.eqb d ":") eqn:Hd; [|discriminate].
      destruct (parse_value f t1) as [[v r]|] eqn:Hv; [|discriminate].
      destruct (IHv _ _ _ Hv) as [Hlen Hfuel].
      pose proof (skip_ws_length r) as Hwr.
      destruct (skip_ws r) as [|c t] eqn:Hr; [discriminate|].
      cbn [String.length] in Hwr.
      destruct (Ascii.eqb c ",") eqn:Hc.
      * destruct (parse_members f t) as [[ms' r']|] eqn:Hi; [|discriminate].
        inversion H; subst.
        destruct (IHm _ _ _ Hi) as [Hlen' Hfuel'].
        split; [lia|].
        destruct (String.length s - String.length rest) as [|k] eqn:Hk;
          [lia|].
        rewrite parse_members_S, Hs, Hq, Hp, Hr0, Hd.
        rewrite (proj1 (parse_fuel_mono _) _ _ k Hfuel) by lia.
        rewrite Hr, Hc.
        rewrite (proj2 (proj2 (parse_fuel_mono _)) _ _ k Hfuel') by lia.
        reflexivity.
      * destruct (Ascii.eqb c "}") eqn:Hb; [|discriminate].
        inversion H; subst.
        split; [lia|].
        destruct (String.length s - String.length rest) as [|k] eqn:Hk;
          [lia|].
        rewrite parse_members_S, Hs, Hq, Hp, Hr0, Hd.
        rewrite (proj1 (parse_fuel_mono _) _ _ k Hfuel) by lia.
        rewrite Hr, Hc, Hb. reflexivity.
Qed.

(** The fuel that [parse] gives itself decides the same as any larger
    fuel. *)
Theorem parse_fuel_enough (f : nat) (text : string) :
  String.length text < f -> parse_fuel f text = parse text.
Proof.
  intros Hf. unfold parse, parse_fuel.
  destruct (parse_value (S (String.length text)) text) as [r|] eqn:H.
  - now rewrite (proj1 (parse_fuel_mono _) _ _ f H) by lia.
  - destruct (parse_value f text) as [[v rest]|] eqn:H'; [|reflexivity].
    destruct (proj1 (parse_fuel_bound f) _ _ _ H') as [Hlen Hfuel].
    rewrite (proj1 (parse_fuel_mono _) _ _ (S (String.length text)) Hfuel)
      in H by lia.
    discriminate.
Qed.

End Foundations.


(* ================================================================== *)
(** ** Requests, responses and the table *)

Module Req.

Inductive Method : Type := POST | PUT.

Definition is_put (m : Method) : bool :=
  match m with
  | PUT => true
  | POST => false
  end.

(** [req.body] after [express.json()]: the six fields the handlers
    destructure.  [skills] is any JSON value, since the validation asks
    whether it is an array. *)
Record Body : Type := mkBody {
  name : option string;
  email : option string;
  password : option string;
  phone : option string;
  role : option string;
  skills : option Json.json
}.

End Req.

Module Db.

(** One row of [users]; [phone] and [skills] are nullable columns. *)
Record Row : Type := mkRow {
  id : positive;
  name : string;
  email : string;
  password : string;
  phone : option string;
  role : string;
  skills : option string
}.

(** The table: its rows in insertion order and the next AUTO_INCREMENT
    value. *)
Record Table : Type := mkTable {
  rows : list Row;
  auto_increment : positive
}.

Definition empty : Table := mkTable [] 1%positive.

(** A value of the array of bind parameters of [pool.execute]. *)
Inductive BindValue : Type :=
| BUndefined : BindValue
| BStr (s : string) : BindValue
| BNum (n : positive) : BindValue.

Definition bind (v : option string) : BindValue :=
  match v with
  | None => BUndefined
  | Some s => BStr s
  end.

Definition is_undefined (v : BindValue) : bool :=
  match v with
  | BUndefined => true
  | _ => false
  end.

(** What awaiting a promise gives: its value, or the exception thrown. *)
Inductive outcome (A : Type) : Type :=
| Ok (a : A) : outcome A
| Throw : outcome A.

Arguments Ok {A} a.
Arguments Throw {A}.

(** A row of a SELECT that names the [skills] column, as mysql2 hands
    it to the handler.  The column is declared JSON (CREATE TABLE,
    line 74), and the driver decodes a column of that type with
    JSON.parse before the handler sees the row; NULL comes as null.
    The server may lay the text out otherwise than it was bound (a
    space after each comma); the value read is the same. *)
Record Selected : Type := mkSelected {
  row : Row;
  skills_value : Json.json
}.

Definition decode (r : Row) : outcome Selected :=
  match skills r with
  | None => Ok (mkSelected r Json.JNull)
  | Some text =>
      match Json.parse text with
      | Some v => Ok (mkSelected r v)
      | None => Throw
      end
  end.

Fixpoint decode_all (rs : list Row) : outcome (list Selected) :=
  match rs with
  | [] => Ok []
  | r :: rs' =>
      match decode r, decode_all rs' with
      | Ok u, Ok us => Ok (u :: us)
      | _, _ => Throw
      end
  end.

(** A computation over the table that may throw. *)
Definition M (A : Type) : Type := Table -> outcome A * Table.

Definition ret {A : Type} (a : A) : M A := fun t => (Ok a, t).

Definition bind_m {A B : Type} (m : M A) (k : A -> M B) : M B :=
  fun t =>
    match m t with
    | (Ok a, t') => k a t'
    | (Throw, t') => (Throw, t')
    end.

(** [pool.execute(sql, values)] of mysql2: the driver refuses an array
    of bind parameters that contains [undefined] (TypeError, the
    statement is not sent); otherwise the statement runs. *)
Definition execute {A : Type} (values : list BindValue)
  (statement : Table -> outcome A * Table) : M A :=
  fun t => if existsb is_undefined values then (Throw, t) else statement t.

End Db.

Declare Scope handler_scope.
Notation "x <- m ;; k" := (Db.bind_m m (fun x => k))
  (at level 61, m at next level, right associativity) : handler_scope.
Notation "m ;;; k" := (Db.bind_m m (fun _ => k))
  (at level 61, right associativity) : handler_scope.

Module Res.

(** One entry of [errors.array()]. *)
Record ValidationError : Type := mkError {
  param : string;
  msg : string
}.

(** A property value of a response object. *)
Inductive Field : Type :=
| FUndefined : Field
| FNull : Field
| FNum (n : positive) : Field
| FStr (s : string) : Field
| FJson (v : Json.json) : Field.

Definition of_option (v : option string) : Field :=
  match v with
  | None => FUndefined
  | Some s => FStr s
  end.

(** A nullable text column as the driver returns it. *)
Definition of_column (v : option string) : Field :=
  match v with
  | None => FNull
  | Some s => FStr s
  end.

Definition Object : Type := list (string * Field).

Definition keys (o : Object) : list string := map fst o.

Fixpoint get (k : string) (o : Object) : Field :=
  match o with
  | [] => FUndefined
  | (k', v) :: o' => if String.eqb k k' then v else get k o'
  end.

(** [{...o, k: v}] *)
Fixpoint set (k : string) (v : Field) (o : Object) : Object :=
  match o with
  | [] => [(k, v)]
  | (k', v') :: o' =>
      if String.eqb k k' then (k', v) :: o' else (k', v') :: set k v o'
  end.

Inductive ResBody : Type :=
| Message (message : string) : ResBody
| Errors (errors : list ValidationError) : ResBody
| User (user : Object) : ResBody
| Users (users : list Object) : ResBody.

Record Response : Type := mkResponse {
  status : nat;
  body : ResBody
}.

End Res.


(* ================================================================== *)
(** ** The record service (server.js) *)

Section Service.
Import Js Regex Policy Json Req Db Res.
Local Open Scope handler_scope.

(** The checks of the validator library's [isEmail] on the local part
    and on the domain of an address. *)
Variable email_parts_ok : string -> bool.

(** The 31 characters that bcrypt derives from a password and a salt. *)
Variable bcrypt_digest : string -> string -> string.

(** Equality of two texts under the collation of the [email] column. *)
Variable collation_eq : string -> string -> bool.

(** *** Validation *)

(** [isEmail]: an address without an at sign is never accepted. *)
Definition isEmail (s : string) : bool :=
  test (Cls (Ascii.eqb "@")) s && email_parts_ok s.

(** [isLength({min})] of the validator library counts characters, a
    surrogate pair once.  The strings of this development have no
    surrogate pairs (their code units are below 256), so the count is
    the length; nothing is claimed here about strings that have them,
    on which the count and the [length] the form tests differ. *)
Definition isLength_min (min : nat) (s : string) : bool :=
  min <=? String.length s.

Definition isIn (options : list string) (s : string) : bool :=
  existsb (String.eqb s) options.

(** The separators of the phone pattern: hyphen, white space, dot. *)
Definition phone_sep (c : ascii) : bool :=
  Ascii.eqb c "-" || is_space c || Ascii.eqb c ".".

(** [/^[+]?[(]?[0-9]{1,4}[)]?[-\s.]?[0-9]{1,4}[-\s.]?[0-9]{1,9}$/] *)
Definition re_phone : re :=
  Cat (Opt (Cls (one_of "+")))
 (Cat (Opt (Cls (one_of "(")))
 (Cat (rep1 4 re_digit)
 (Cat (Opt (Cls (one_of ")")))
 (Cat (Opt (Cls phone_sep))
 (Cat (rep1 4 re_digit)
 (Cat (Opt (Cls phone_sep))
      (rep1 9 re_digit))))))).

(** One validator of a chain: no error when the test holds. *)
Definition check (ok : bool) (field message : string)
  : list ValidationError :=
  if ok then [] else [mkError field message].

(** [passwordValidation.run(req)]: every validator of the chain runs on
    [String(value)] and each failure is recorded on the request. *)
Definition passwordValidation (value : option string)
  : list ValidationError :=
  let s := toString value in
  check (isLength_min 8 s) "password"
        "Password must be at least 8 characters"
  ++ check (test re_upper s) "password"
        "Password must contain at least one uppercase letter"
  ++ check (test re_lower s) "password"
        "Password must contain at least one lowercase letter"
  ++ check (test re_digit s) "password"
        "Password must contain at least one number"
  ++ check (test re_special s) "password"
        "Password must contain at least one special character".

(** The test of the custom validator: the request is an update and the
    password is absent, empty or white space only. *)
Definition password_skipped (method : Method) (value : option string)
  : bool :=
  is_put method
  && (negb (truthy value) || String.eqb (trim (toString value)) "").

(** The custom validator itself never fails: either it returns [true],
    or it runs the password chain, whose promise resolves whatever the
    chain finds.  The errors of the chain stay on the request. *)
Definition password_custom (method : Method) (value : option string)
  : list ValidationError :=
  if password_skipped method value then [] else passwordValidation value.

(** The middleware list [validateUser] followed by [validationResult]:
    the errors in the order of the chains, and the body with the
    sanitized name written back. *)
Definition validateUser (method : Method) (b : Body)
  : list ValidationError * Body :=
  let name' := trim (toString (Req.name b)) in
  let errors :=
    check (isLength_min 2 name') "name" "Name must be at least 2 characters"
    ++ check (isEmail (toString (Req.email b))) "email" "Invalid email address"
    ++ password_custom method (Req.password b)
    ++ check (isIn ["user"; "admin"; "developer"] (toString (Req.role b)))
         "role" "Invalid role"
    ++ match Req.phone b with
       | None => []
       | Some p => check (full re_phone p) "phone" "Invalid phone number format"
       end
    ++ check (match Req.skills b with
              | Some v => isArray v
              | None => false
              end) "skills" "Skills must be an array"
  in
  (errors,
   mkBody (Some name') (Req.email b) (Req.password b) (Req.phone b)
          (Req.role b) (Req.skills b)).

(** *** bcrypt *)

(** [bcrypt.hash(password, salt)]: the salt string followed by the
    digest. *)
Definition bcrypt_hash (password salt : string) : string :=
  String.append salt (bcrypt_digest password salt).

(** *** The statements

    The table is created with (lines 66 to 78)
    [name VARCHAR(100) NOT NULL], [email VARCHAR(100) NOT NULL UNIQUE],
    [password VARCHAR(255) NOT NULL], [phone VARCHAR(20)],
    [role ENUM('user','admin','developer')] and [skills JSON].
    A statement is given the values that were bound to it.  The role
    has passed [isIn] and the skills text is written by JSON.stringify
    when a statement is reached, and a bcrypt hash has 60 characters,
    so of the column types only the widths of [name], [email] and
    [phone] can matter.  Limits of the server that the schema does not
    state (the character set, the size of a packet, the depth of a
    JSON document) are not modelled. *)

(** The server is in strict SQL mode (the default of MySQL), or not. *)
Variable sql_strict : bool.

Fixpoint take (n : nat) (s : string) : string :=
  match n, s with
  | S n', String c t => String c (take n' t)
  | _, _ => EmptyString
  end.

Fixpoint drop (n : nat) (s : string) : string :=
  match n, s with
  | S n', String _ t => drop n' t
  | _, _ => s
  end.

Definition only_spaces (s : string) : bool :=
  forallb (Ascii.eqb " ") (chars s).

(** A text assigned to a VARCHAR(n) column: what the column then holds,
    or [None] when the statement fails.  A text of at most [n]
    characters is kept as it is.  A longer one is cut after [n]
    characters when the server is not in strict mode, or when only
    spaces are cut off; in strict mode the statement fails otherwise
    (data too long for column). *)
Definition varchar (n : nat) (s : string) : option string :=
  if String.length s <=? n then Some s
  else if sql_strict && negb (only_spaces (drop n s)) then None
  else Some (take n s).

Definition varchar_null (n : nat) (v : option string)
  : option (option string) :=
  match v with
  | None => Some None
  | Some s =>
      match varchar n s with
      | Some s' => Some (Some s')
      | None => None
      end
  end.

(** What the columns [name], [email] and [phone] take from the values
    bound to them. *)
Definition columns (n e : string) (ph : option string)
  : option (string * string * option string) :=
  match varchar 100 n, varchar 100 e, varchar_null 20 ph with
  | Some n', Some e', Some ph' => Some (n', e', ph')
  | _, _, _ => None
  end.

Definition email_is (e : string) (r : Row) : bool :=
  collation_eq (Db.email r) e.

Definition id_is (i : positive) (r : Row) : bool := Pos.eqb (Db.id r) i.

(** SELECT id FROM users WHERE email = ? *)
Definition sql_select_by_email (e : string) (t : Table)
  : outcome (list Row) * Table :=
  (Ok (filter (email_is e) (rows t)), t).

(** SELECT id FROM users WHERE id = ? *)
Definition sql_select_by_id (i : positive) (t : Table)
  : outcome (list Row) * Table :=
  (Ok (filter (id_is i) (rows t)), t).

(** SELECT id, name, email, phone, role, skills FROM users *)
Definition sql_select_all (t : Table) : outcome (list Selected) * Table :=
  (decode_all (rows t), t).

(** SELECT id, name, email, phone, role, skills FROM users WHERE id = ? *)
Definition sql_select_user (i : positive) (t : Table)
  : outcome (list Selected) * Table :=
  (decode_all (filter (id_is i) (rows t)), t).

(** SELECT id FROM users WHERE email = ? AND id != ? *)
Definition sql_select_email_other (e : string) (i : positive) (t : Table)
  : outcome (list Row) * Table :=
  (Ok (filter (fun r => email_is e r && negb (id_is i r)) (rows t)), t).

(** INSERT INTO users (...) VALUES (...): the statement fails when a
    value does not fit its column, and the UNIQUE index on [email]
    refuses a duplicate of what the column would hold; otherwise the
    row is appended under the next AUTO_INCREMENT value, which is the
    [insertId] of the result.  A statement that fails changes nothing:
    an id that a storage engine may set aside before it finds the
    duplicate is not modelled. *)
Definition sql_insert (n e pw : string) (ph : option string)
  (ro sk : string) (t : Table) : outcome positive * Table :=
  match columns n e ph with
  | None => (Throw, t)
  | Some (n', e', ph') =>
      if existsb (email_is e') (rows t) then (Throw, t)
      else
        let i := auto_increment t in
        (Ok i,
         mkTable (rows t ++ [mkRow i n' e' pw ph' ro (Some sk)])
                 (Pos.succ i))
  end.

(** The row [r] after the assignments of an UPDATE; [pw] is [None] in
    the statement that does not assign the password column. *)
Definition assign (n e : string) (pw : option string) (ph : option string)
  (ro sk : string) (r : Row) : Row :=
  mkRow (Db.id r) n e
        (match pw with
         | Some h => h
         | None => Db.password r
         end)
        ph ro (Some sk).

(** UPDATE users SET ... WHERE id = ?: nothing happens when no row has
    the id; the statement fails when a value does not fit its column,
    and the UNIQUE index refuses it when it would give the row the
    email of another row. *)
Definition sql_update (i : positive) (n e : string) (pw : option string)
  (ph : option string) (ro sk : string) (t : Table) : outcome unit * Table :=
  if negb (existsb (id_is i) (rows t)) then (Ok tt, t)
  else
    match columns n e ph with
    | None => (Throw, t)
    | Some (n', e', ph') =>
        if existsb (fun r => email_is e' r && negb (id_is i r)) (rows t)
        then (Throw, t)
        else
          (Ok tt,
           mkTable
             (map (fun r =>
                     if id_is i r then assign n' e' pw ph' ro sk r else r)
                  (rows t))
             (auto_increment t))
    end.

(** DELETE FROM users WHERE id = ?; the result is [affectedRows]. *)
Definition sql_delete (i : positive) (t : Table) : outcome nat * Table :=
  (Ok (List.length (filter (id_is i) (rows t))),
   mkTable (filter (fun r => negb (id_is i r)) (rows t)) (auto_increment t)).

(** *** The handlers *)

Definition server_error : Response := mkResponse 500 (Message "Server error").

(** [try { ... } catch (error) { res.status(500)... }] *)
Definition try_catch (m : M Response) (t : Table) : Response * Table :=
  match m t with
  | (Ok r, t') => (r, t')
  | (Throw, t') => (server_error, t')
  end.

(** [skills || []] *)
Definition or_empty_array (v : option json) : json :=
  match v with
  | Some j => if json_truthy j then j else JArr []
  | None => JArr []
  end.

(** The object the driver builds for a selected row. *)
Definition row_object (user : Selected) : Object :=
  let r := Db.row user in
  [("id", FNum (Db.id r)); ("name", FStr (Db.name r));
   ("email", FStr (Db.email r)); ("phone", of_column (Db.phone r));
   ("role", FStr (Db.role r)); ("skills", FJson (skills_value user))].

(** [JSON.parse(value || '[]')] on a value the driver has decoded:
    what is not a string is converted to one before it is parsed, an
    array to the join of its elements. *)
Definition parse_or_empty (value : json) : option json :=
  parse (if json_truthy value then to_string value else "[]").

(** [{...user, skills: JSON.parse(user.skills || '[]')}]; JSON.parse
    may throw. *)
Definition with_parsed_skills (user : Selected) : M Object :=
  fun t =>
    match parse_or_empty (skills_value user) with
    | Some v => (Ok (Res.set "skills" (FJson v) (row_object user)), t)
    | None => (Throw, t)
    end.

Fixpoint map_m {A B : Type} (f : A -> M B) (l : list A) : M (list B) :=
  match l with
  | [] => ret []
  | x :: l' => y <- f x ;; ys <- map_m f l' ;; ret (y :: ys)
  end.

(** GET /api/users *)
Definition get_users : Table -> Response * Table :=
  try_catch (
    rows <- execute [] sql_select_all ;;
    users <- map_m with_parsed_skills rows ;;
    ret (mkResponse 200 (Users users))).

(** GET /api/users/:id *)
Definition get_user (userId : positive) : Table -> Response * Table :=
  try_catch (
    rows <- execute [BNum userId] (sql_select_user userId) ;;
    match rows with
    | [] => ret (mkResponse 404 (Message "User not found"))
    | row0 :: _ =>
        user <- with_parsed_skills row0 ;;
        ret (mkResponse 200 (User user))
    end).

(** The [try] block of POST /api/users, on the validated body; [salt]
    is what [bcrypt.genSalt(12)] returns in this request.  A statement
    runs only when none of its bind parameters is [undefined], so the
    strings it is given are the fields themselves ([toString] merely
    names them); the password has passed the chain and is a string when
    it is hashed. *)
Definition post_user_try (salt : string) (b : Body) : M Response :=
  existingUsers <- execute [bind (Req.email b)]
                     (sql_select_by_email (toString (Req.email b))) ;;
  if 0 <? List.length existingUsers
  then ret (mkResponse 400 (Message "Email already registered"))
  else
    let hashedPassword := bcrypt_hash (toString (Req.password b)) salt in
    let skills_text := stringify (or_empty_array (Req.skills b)) in
    insertId <- execute
                  [bind (Req.name b); bind (Req.email b);
                   BStr hashedPassword; bind (Req.phone b);
                   bind (Req.role b); BStr skills_text]
                  (sql_insert (toString (Req.name b))
                     (toString (Req.email b)) hashedPassword
                     (Req.phone b) (toString (Req.role b))
                     skills_text) ;;
    ret (mkResponse 201
           (User [("id", FNum insertId);
                  ("name", of_option (Req.name b));
                  ("email", of_option (Req.email b));
                  ("phone", of_option (Req.phone b));
                  ("role", of_option (Req.role b));
                  ("skills", match Req.skills b with
                             | Some v => FJson v
                             | None => FUndefined
                             end)])).

(** POST /api/users *)
Definition post_user (salt : string) (b : Body) (t : Table)
  : Response * Table :=
  let (errors, b) := validateUser POST b in
  match errors with
  | _ :: _ => (mkResponse 400 (Errors errors), t)
  | [] => try_catch (post_user_try salt b) t
  end.

(** The test [password && password.trim() !== ''] of the update. *)
Definition password_given (value : option string) : bool :=
  truthy value && negb (String.eqb (trim (toString value)) "").

(** The [try] block of PUT /api/users/:id, on the validated body. *)
Definition put_user_try (salt : string) (userId : positive) (b : Body)
  : M Response :=
  existingUser <- execute [BNum userId] (sql_select_by_id userId) ;;
  if List.length existingUser =? 0
  then ret (mkResponse 404 (Message "User not found"))
  else
    in_use <-
      (if truthy (Req.email b)
       then
         emailCheck <- execute [bind (Req.email b); BNum userId]
                         (sql_select_email_other (toString (Req.email b))
                                                 userId) ;;
         ret (0 <? List.length emailCheck)
       else ret false) ;;
    if (in_use : bool)
    then ret (mkResponse 400
                (Message "Email already in use by another account"))
    else
      let skills_text := stringify (or_empty_array (Req.skills b)) in
      (if password_given (Req.password b)
       then
         let hashedPassword :=
           bcrypt_hash (toString (Req.password b)) salt in
         execute
           [bind (Req.name b); bind (Req.email b); BStr hashedPassword;
            bind (Req.phone b); bind (Req.role b); BStr skills_text;
            BNum userId]
           (sql_update userId (toString (Req.name b))
              (toString (Req.email b)) (Some hashedPassword)
              (Req.phone b) (toString (Req.role b)) skills_text)
       else
         execute
           [bind (Req.name b); bind (Req.email b); bind (Req.phone b);
            bind (Req.role b); BStr skills_text; BNum userId]
           (sql_update userId (toString (Req.name b))
              (toString (Req.email b)) None
              (Req.phone b) (toString (Req.role b)) skills_text)) ;;;
      ret (mkResponse 200 (Message "User updated successfully")).

(** PUT /api/users/:id *)
Definition put_user (salt : string) (userId : positive) (b : Body)
  (t : Table) : Response * Table :=
  let (errors, b) := validateUser PUT b in
  match errors with
  | _ :: _ => (mkResponse 400 (Errors errors), t)
  | [] => try_catch (put_user_try salt userId b) t
  end.

(** DELETE /api/users/:id *)
Definition delete_user (userId : positive) : Table -> Response * Table :=
  try_catch (
    affectedRows <- execute [BNum userId] (sql_delete userId) ;;
    if affectedRows =? 0
    then ret (mkResponse 404 (Message "User not found"))
    else ret (mkResponse 200 (Message "User deleted successfully"))).

(* ================================================================== *)
(** ** Validation *)

(** The payload passes the middleware list: [errors.isEmpty()]. *)
Definition valid (method : Method) (b : Body) : Prop :=
  fst (validateUser method b) = [].

(** The body the handler reads after the sanitizer has run. *)
Definition sanitized (b : Body) : Body :=
  mkBody (Some (trim (toString (Req.name b)))) (Req.email b)
         (Req.password b) (Req.phone b) (Req.role b) (Req.skills b).

Lemma validateUser_snd (method : Method) (b : Body) :
  snd (validateUser method b) = sanitized b.
Proof. reflexivity. Qed.

Lemma check_nil (ok : bool) (field message : string) :
  check ok field message = [] <-> ok = true.
Proof.
  destruct ok; simpl; split; intros H; try reflexivity; discriminate.
Qed.

Lemma valid_inv (method : Method) (b : Body) :
  valid method b ->
  isLength_min 2 (trim (toString (Req.name b))) = true
  /\ isEmail (toString (Req.email b)) = true
  /\ password_custom method (Req.password b) = []
  /\ isIn ["user"; "admin"; "developer"] (toString (Req.role b)) = true
  /\ (forall p, Req.phone b = Some p -> full re_phone p = true)
  /\ (exists l, Req.skills b = Some (JArr l)).
Proof.
  unfold valid, validateUser. cbn [fst]. intros H.
  apply app_eq_nil in H; destruct H as [Hname H].
  apply app_eq_nil in H; destruct H as [Hemail H].
  apply app_eq_nil in H; destruct H as [Hpw H].
  apply app_eq_nil in H; destruct H as [Hrole H].
  apply app_eq_nil in H; destruct H as [Hphone Hskills].
  apply check_nil in Hname, Hemail, Hrole, Hskills.
  repeat split; try assumption.
  - intros p Hp. rewrite Hp in Hphone. now apply check_nil in Hphone.
  - destruct (Req.skills b) as [[| | | |l|]|]; try discriminate. now exists l.
Qed.

Lemma isEmail_some (v : option string) :
  isEmail (toString v) = true -> exists e, v = Some e /\ truthy v = true.
Proof.
  destruct v as [e|]; [|discriminate].
  intros H. exists e. split; [reflexivity|].
  destruct e; [discriminate | reflexivity].
Qed.

Lemma isIn_role_some (v : option string) :
  isIn ["user"; "admin"; "developer"] (toString v) = true ->
  exists ro, v = Some ro.
Proof.
  destruct v as [ro|]; [eauto | discriminate].
Qed.

(** What a payload that passes validation looks like. *)
Lemma valid_shape (method : Method) (b : Body) :
  valid method b ->
  exists e ro l,
    Req.email b = Some e /\ truthy (Some e) = true
    /\ Req.role b = Some ro /\ Req.skills b = Some (JArr l).
Proof.
  intros H. destruct (valid_inv H) as (_ & He & _ & Hr & _ & [l Hl]).
  destruct (isEmail_some _ He) as [e [He1 He2]].
  destruct (isIn_role_some _ Hr) as [ro Hro].
  exists e, ro, l. rewrite He1 in He2. auto.
Qed.

(* ================================================================== *)
(** ** The handlers, case by case *)

Lemma length_filter_zero (A : Type) (p : A -> bool) (l : list A) :
  (List.length (filter p l) =? 0) = negb (existsb p l).
Proof.
  induction l as [|x l IH]; simpl; [reflexivity|].
  destruct (p x); simpl; [reflexivity | exact IH].
Qed.

Lemma length_filter_pos (A : Type) (p : A -> bool) (l : list A) :
  (0 <? List.length (filter p l)) = existsb p l.
Proof.
  induction l as [|x l IH]; simpl; [reflexivity|].
  destruct (p x); simpl; [reflexivity | exact IH].
Qed.

Lemma post_user_invalid (salt : string) (b : Body) (t : Table) :
  fst (validateUser POST b) <> [] ->
  post_user salt b t
  = (mkResponse 400 (Errors (fst (validateUser POST b))), t).
Proof.
  intros H. unfold post_user.
  destruct (validateUser POST b) as [errors b']. simpl in *.
  destruct errors; [congruence | reflexivity].
Qed.

Lemma post_user_valid (salt : string) (b : Body) (t : Table) :
  valid POST b ->
  post_user salt b t = try_catch (post_user_try salt (sanitized b)) t.
Proof.
  intros H. unfold post_user. rewrite <- (validateUser_snd POST).
  unfold valid in H.
  destruct (validateUser POST b) as [errors b']. simpl in *.
  now rewrite H.
Qed.

Lemma put_user_invalid (salt : string) (i : positive) (b : Body) (t : Table) :
  fst (validateUser PUT b) <> [] ->
  put_user salt i b t
  = (mkResponse 400 (Errors (fst (validateUser PUT b))), t).
Proof.
  intros H. unfold put_user.
  destruct (validateUser PUT b) as [errors b']. simpl in *.
  destruct errors; [congruence | reflexivity].
Qed.

Lemma put_user_valid (salt : string) (i : positive) (b : Body) (t : Table) :
  valid PUT b ->
  put_user salt i b t = try_catch (put_user_try salt i (sanitized b)) t.
Proof.
  intros H. unfold put_user. rewrite <- (validateUser_snd PUT).
  unfold valid in H.
  destruct (validateUser PUT b) as [errors b']. simpl in *.
  now rewrite H.
Qed.

(** What the columns [name], [email] and [phone] take from a validated
    payload; [None] when the statement fails. *)
Definition stored (b : Body) : option (string * string * option string) :=
  columns (trim (toString (Req.name b))) (toString (Req.email b))
          (Req.phone b).

(** The payload fits the columns: nothing is refused or cut off. *)
Definition fits (b : Body) : bool :=
  (String.length (trim (toString (Req.name b))) <=? 100)
  && (String.length (toString (Req.email b)) <=? 100)
  && (String.length (toString (Req.phone b)) <=? 20).

Lemma stored_fits (b : Body) :
  fits b = true ->
  stored b
  = Some (trim (toString (Req.name b)), toString (Req.email b), Req.phone b).
Proof.
  unfold fits, stored, columns, varchar_null, varchar. intros H.
  apply andb_prop in H. destruct H as [H Hp].
  apply andb_prop in H. destruct H as [Hn He].
  rewrite Hn, He. destruct (Req.phone b) as [ph|]; [|reflexivity].
  cbn [toString] in Hp. now rewrite Hp.
Qed.

(** The row that a create stores when the columns take [c]. *)
Definition inserted_row (salt : string) (b : Body)
  (c : string * string * option string) (i : positive) : Row :=
  mkRow i (fst (fst c)) (snd (fst c))
        (bcrypt_hash (toString (Req.password b)) salt)
        (snd c) (toString (Req.role b))
        (Some (stringify (or_empty_array (Req.skills b)))).

(** The row that a create stores when the payload fits the columns. *)
Definition created_row (salt : string) (b : Body) (i : positive) : Row :=
  mkRow i (trim (toString (Req.name b))) (toString (Req.email b))
        (bcrypt_hash (toString (Req.password b)) salt)
        (Req.phone b) (toString (Req.role b))
        (Some (stringify (or_empty_array (Req.skills b)))).

(** The object that a create answers with. *)
Definition created_object (b : Body) (i : positive) : Object :=
  [("id", FNum i);
   ("name", FStr (trim (toString (Req.name b))));
   ("email", of_option (Req.email b));
   ("phone", of_option (Req.phone b));
   ("role", of_option (Req.role b));
   ("skills", match Req.skills b with
              | Some v => FJson v
              | None => FUndefined
              end)].

(** POST on a payload that passes validation: the ways out.  The
    INSERT is reached with a free email and fails on an absent phone,
    on a value that does not fit its column, or when what the email
    column would hold is taken. *)
Lemma post_user_cases (salt : string) (b : Body) (t : Table) :
  valid POST b ->
  post_user salt b t =
  if existsb (email_is (toString (Req.email b))) (rows t)
  then (mkResponse 400 (Message "Email already registered"), t)
  else
    match Req.phone b with
    | None => (server_error, t)
    | Some _ =>
        match stored b with
        | None => (server_error, t)
        | Some c =>
            if existsb (email_is (snd (fst c))) (rows t)
            then (server_error, t)
            else
              (mkResponse 201 (User (created_object b (auto_increment t))),
               mkTable (rows t ++ [inserted_row salt b c (auto_increment t)])
                       (Pos.succ (auto_increment t)))
        end
    end.
Proof.
  intros H. rewrite (post_user_valid salt t H).
  destruct (valid_shape H) as (e & ro & l & He & _ & Hro & Hl).
  unfold try_catch, post_user_try, sanitized, bind_m, execute, ret,
    sql_select_by_email, sql_insert, stored, inserted_row, created_object.
  cbn [Req.name Req.email Req.password Req.phone Req.role Req.skills].
  rewrite He, Hro, Hl. cbn [bind existsb is_undefined orb toString].
  rewrite length_filter_pos.
  destruct (existsb (email_is e) (rows t)) eqn:Hex; [reflexivity|].
  destruct (Req.phone b) as [ph|]; cbn [bind existsb is_undefined orb];
    [|reflexivity].
  destruct (columns (trim (toString (Req.name b))) e (Some ph))
    as [[[n' e'] ph']|]; [|reflexivity].
  cbn [fst snd].
  destruct (existsb (email_is e') (rows t)); reflexivity.
Qed.

(** POST on a payload that passes validation and fits the columns. *)
Lemma post_user_fits (salt : string) (b : Body) (t : Table) :
  valid POST b -> fits b = true ->
  post_user salt b t =
  if existsb (email_is (toString (Req.email b))) (rows t)
  then (mkResponse 400 (Message "Email already registered"), t)
  else
    match Req.phone b with
    | None => (server_error, t)
    | Some _ =>
        (mkResponse 201 (User (created_object b (auto_increment t))),
         mkTable (rows t ++ [created_row salt b (auto_increment t)])
                 (Pos.succ (auto_increment t)))
    end.
Proof.
  intros H Hfit. rewrite (post_user_cases salt t H), (stored_fits _ Hfit).
  cbn [fst snd].
  destruct (existsb (email_is (toString (Req.email b))) (rows t));
    reflexivity.
Qed.

(** The hash column that an update assigns: a fresh hash when a
    password is given, nothing otherwise. *)
Definition new_hash (salt : string) (b : Body) : option string :=
  if password_given (Req.password b)
  then Some (bcrypt_hash (toString (Req.password b)) salt)
  else None.

(** The row [r] after the update of a validated payload, when the
    columns take [c]. *)
Definition assigned_row (salt : string) (b : Body)
  (c : string * string * option string) (r : Row) : Row :=
  assign (fst (fst c)) (snd (fst c)) (new_hash salt b) (snd c)
         (toString (Req.role b))
         (stringify (or_empty_array (Req.skills b))) r.

Definition assigned_table (salt : string) (i : positive) (b : Body)
  (c : string * string * option string) (t : Table) : Table :=
  mkTable (map (fun r => if id_is i r then assigned_row salt b c r else r)
               (rows t))
          (auto_increment t).

(** The row [r] after the update of a validated payload that fits the
    columns. *)
Definition updated_row (salt : string) (b : Body) (r : Row) : Row :=
  assign (trim (toString (Req.name b))) (toString (Req.email b))
         (new_hash salt b) (Req.phone b) (toString (Req.role b))
         (stringify (or_empty_array (Req.skills b))) r.

Definition updated_table (salt : string) (i : positive) (b : Body)
  (t : Table) : Table :=
  mkTable (map (fun r => if id_is i r then updated_row salt b r else r)
               (rows t))
          (auto_increment t).

(** Another record owns the email [e]. *)
Definition owned_by_other (e : string) (i : positive) (t : Table) : bool :=
  existsb (fun r => email_is e r && negb (id_is i r)) (rows t).

Definition not_found : Response :=
  mkResponse 404 (Message "User not found").

Definition email_in_use : Response :=
  mkResponse 400 (Message "Email already in use by another account").

Definition updated_ok : Response :=
  mkResponse 200 (Message "User updated successfully").

(** PUT on a payload that passes validation: the ways out.  The
    UPDATE is reached for an existing id and an email that no other
    record owns; it fails on an absent phone, on a value that does not
    fit its column, or when what the email column would hold is
    another record's. *)
Lemma put_user_cases (salt : string) (i : positive) (b : Body) (t : Table) :
  valid PUT b ->
  put_user salt i b t =
  if negb (existsb (id_is i) (rows t)) then (not_found, t)
  else if owned_by_other (toString (Req.email b)) i t then (email_in_use, t)
  else
    match Req.phone b with
    | None => (server_error, t)
    | Some _ =>
        match stored b with
        | None => (server_error, t)
        | Some c =>
            if owned_by_other (snd (fst c)) i t then (server_error, t)
            else (updated_ok, assigned_table salt i b c t)
        end
    end.
Proof.
  intros H. rewrite (put_user_valid salt i t H).
  destruct (valid_shape H) as (e & ro & l & He & Htr & Hro & Hl).
  unfold try_catch, put_user_try, sanitized, bind_m, execute, ret,
    sql_select_by_id, sql_select_email_other, sql_update, owned_by_other,
    assigned_table, assigned_row, new_hash, stored.
  cbn [Req.name Req.email Req.password Req.phone Req.role Req.skills].
  rewrite He, Hro, Hl, Htr. cbn [bind existsb is_undefined orb toString].
  rewrite length_filter_zero.
  destruct (existsb (id_is i) (rows t)) eqn:Hid; [|reflexivity].
  cbn [negb]. rewrite length_filter_pos.
  destruct (existsb (fun r => email_is e r && negb (id_is i r)) (rows t))
    eqn:Hother; [reflexivity|].
  destruct (password_given (Req.password b));
    destruct (Req.phone b) as [ph|];
    cbn [bind existsb is_undefined orb andb]; try reflexivity;
    rewrite Hid; cbn [negb];
    (destruct (columns (trim (toString (Req.name b))) e (Some ph))
      as [[[n' e'] ph']|]; [|reflexivity]);
    cbn [fst snd];
    (destruct (existsb (fun r => email_is e' r && negb (id_is i r))
                 (rows t)); reflexivity).
Qed.

(** PUT on a payload that passes validation and fits the columns. *)
Lemma put_user_fits (salt : string) (i : positive) (b : Body) (t : Table) :
  valid PUT b -> fits b = true ->
  put_user salt i b t =
  if negb (existsb (id_is i) (rows t)) then (not_found, t)
  else if owned_by_other (toString (Req.email b)) i t then (email_in_use, t)
  else
    match Req.phone b with
    | None => (server_error, t)
    | Some _ => (updated_ok, updated_table salt i b t)
    end.
Proof.
  intros H Hfit. rewrite (put_user_cases salt i t H), (stored_fits _ Hfit).
  cbn [fst snd].
  destruct (negb (existsb (id_is i) (rows t))); [reflexivity|].
  destruct (owned_by_other (toString (Req.email b)) i t); reflexivity.
Qed.

Definition deleted_ok : Response :=
  mkResponse 200 (Message "User deleted successfully").

Lemma delete_user_cases (i : positive) (t : Table) :
  delete_user i t =
  if existsb (id_is i) (rows t)
  then (deleted_ok,
        mkTable (filter (fun r => negb (id_is i r)) (rows t))
                (auto_increment t))
  else (not_found, t).
Proof.
  unfold delete_user, try_catch, bind_m, execute, ret, sql_delete.
  cbn [existsb is_undefined orb].
  rewrite length_filter_zero.
  destruct (existsb (id_is i) (rows t)) eqn:Hid; cbn [negb]; [reflexivity|].
  f_equal. destruct t as [rs n]. cbn [rows auto_increment] in *. f_equal.
  induction rs as [|r rs IH]; [reflexivity|].
  simpl in Hid. apply orb_false_iff in Hid. destruct Hid as [Hr Hrs].
  simpl. rewrite Hr. simpl. now rewrite IH.
Qed.

Lemma get_user_cases (i : positive) (t : Table) :
  get_user i t =
  match decode_all (filter (id_is i) (rows t)) with
  | Throw => (server_error, t)
  | Ok [] => (not_found, t)
  | Ok (row0 :: _) =>
      match parse_or_empty (skills_value row0) with
      | Some v =>
          (mkResponse 200 (User (Res.set "skills" (FJson v) (row_object row0))),
           t)
      | None => (server_error, t)
      end
  end.
Proof.
  unfold get_user, try_catch, bind_m, execute, ret, sql_select_user,
    with_parsed_skills.
  cbn [existsb is_undefined orb].
  destruct (decode_all (filter (id_is i) (rows t))) as [[|row0 rest]|];
    try reflexivity.
  destruct (parse_or_empty (skills_value row0)); reflexivity.
Qed.

(** No row has the id: the driver has nothing to decode. *)
Lemma get_user_absent (i : positive) (t : Table) :
  existsb (id_is i) (rows t) = false -> get_user i t = (not_found, t).
Proof.
  intros H. rewrite get_user_cases.
  assert (Hf : filter (id_is i) (rows t) = []).
  { induction (rows t) as [|r rs IH]; [reflexivity|].
    simpl in H. apply orb_false_iff in H. destruct H as [Hr Hrs].
    simpl. rewrite Hr. auto. }
  now rewrite Hf.
Qed.

(* ================================================================== *)
(** ** The table between requests *)

(** Every id in the table was handed out by the counter. *)
Definition fresh_counter (t : Table) : Prop :=
  forall r, In r (rows t) -> (Db.id r < auto_increment t)%positive.

(** The primary key. *)
Definition unique_ids (t : Table) : Prop := NoDup (map Db.id (rows t)).

(** The UNIQUE index on [email]. *)
Definition unique_emails (t : Table) : Prop :=
  forall r1 r2, In r1 (rows t) -> In r2 (rows t) ->
    Db.id r1 <> Db.id r2 -> collation_eq (Db.email r1) (Db.email r2) = false.

Definition consistent (t : Table) : Prop :=
  fresh_counter t /\ unique_ids t /\ unique_emails t.

Hypothesis collation_refl : forall s, collation_eq s s = true.
Hypothesis collation_sym :
  forall a b, collation_eq a b = collation_eq b a.

Lemma consistent_empty : consistent Db.empty.
Proof.
  repeat split.
  - intros r [].
  - constructor.
  - intros r1 r2 [].
Qed.

Lemma id_is_true (i : positive) (r : Row) : id_is i r = true <-> Db.id r = i.
Proof. apply Pos.eqb_eq. Qed.

Lemma id_is_false (i : positive) (r : Row) :
  id_is i r = false <-> Db.id r <> i.
Proof. apply Pos.eqb_neq. Qed.

Lemma existsb_false (A : Type) (p : A -> bool) (l : list A) :
  existsb p l = false <-> forall x, In x l -> p x = false.
Proof.
  split.
  - intros H x Hin. destruct (p x) eqn:Hp; [|reflexivity].
    assert (existsb p l = true) by (apply existsb_exists; eauto).
    congruence.
  - intros H. destruct (existsb p l) eqn:Hex; [|reflexivity].
    apply existsb_exists in Hex. destruct Hex as [x [Hin Hp]].
    rewrite (H x Hin) in Hp. discriminate.
Qed.

Lemma filter_none (A : Type) (p : A -> bool) (l : list A) :
  (forall x, In x l -> p x = false) -> filter p l = [].
Proof.
  induction l as [|x l IH]; intros H; [reflexivity|].
  simpl. rewrite (H x) by (left; reflexivity).
  apply IH. intros y Hy. apply H. now right.
Qed.

Lemma validation_dec (method : Method) (b : Body) :
  {valid method b} + {fst (validateUser method b) <> []}.
Proof.
  unfold valid. destruct (fst (validateUser method b)).
  - now left.
  - right. discriminate.
Qed.

(** A create leaves the table as it is, or answers 201 and appends one
    row: a validated payload with a phone, whose values the columns
    take as [c], and whose email, as sent and as stored, is free. *)
Lemma post_user_table (salt : string) (b : Body) (t : Table) :
  snd (post_user salt b t) = t
  \/ exists c,
       valid POST b /\ Req.phone b <> None /\ stored b = Some c
       /\ existsb (email_is (toString (Req.email b))) (rows t) = false
       /\ existsb (email_is (snd (fst c))) (rows t) = false
       /\ post_user salt b t
          = (mkResponse 201 (User (created_object b (auto_increment t))),
             mkTable (rows t ++ [inserted_row salt b c (auto_increment t)])
                     (Pos.succ (auto_increment t))).
Proof.
  destruct (validation_dec POST b) as [Hv|Hv].
  2:{ left. now rewrite post_user_invalid. }
  rewrite (post_user_cases salt t Hv).
  destruct (existsb (email_is (toString (Req.email b))) (rows t)) eqn:Hex;
    [now left|].
  destruct (Req.phone b) as [ph|] eqn:Hph; [|now left].
  destruct (stored b) as [c|] eqn:Hc; [|now left].
  destruct (existsb (email_is (snd (fst c))) (rows t)) eqn:Hex';
    [now left|].
  right. exists c. repeat split; auto. discriminate.
Qed.

(** An update leaves the table as it is, or answers 200 and assigns
    the row of the id. *)
Lemma put_user_table (salt : string) (i : positive) (b : Body) (t : Table) :
  snd (put_user salt i b t) = t
  \/ exists c,
       valid PUT b /\ Req.phone b <> None /\ stored b = Some c
       /\ existsb (id_is i) (rows t) = true
       /\ owned_by_other (toString (Req.email b)) i t = false
       /\ owned_by_other (snd (fst c)) i t = false
       /\ put_user salt i b t = (updated_ok, assigned_table salt i b c t).
Proof.
  destruct (validation_dec PUT b) as [Hv|Hv].
  2:{ left. now rewrite put_user_invalid. }
  rewrite (put_user_cases salt i t Hv).
  destruct (existsb (id_is i) (rows t)) eqn:Hid; cbn [negb]; [|now left].
  destruct (owned_by_other (toString (Req.email b)) i t) eqn:Ho; [now left|].
  destruct (Req.phone b) as [ph|] eqn:Hph; [|now left].
  destruct (stored b) as [c|] eqn:Hc; [|now left].
  destruct (owned_by_other (snd (fst c)) i t) eqn:Ho'; [now left|].
  right. exists c. repeat split; auto. discriminate.
Qed.

(** A create keeps the table consistent. *)
Lemma post_user_consistent (salt : string) (b : Body) (t : Table) :
  consistent t -> consistent (snd (post_user salt b t)).
Proof using collation_sym.
  intros Hc.
  destruct (post_user_table salt b t)
    as [->|(c & _ & _ & _ & _ & Hex & ->)]; [exact Hc|].
  destruct Hc as (Hfresh & Hids & Hemails). cbn [snd].
  rewrite existsb_false in Hex.
  repeat split.
  - intros r Hin. cbn [rows auto_increment] in *.
    apply in_app_iff in Hin. destruct Hin as [Hin|[<-|[]]].
    + specialize (Hfresh r Hin). lia.
    + simpl. lia.
  - unfold unique_ids in *. cbn [rows]. rewrite map_app. simpl.
    apply NoDup_app_remove_l with (l := []). simpl.
    apply NoDup_Add with (a := auto_increment t) (l := map Db.id (rows t)).
    + rewrite <- (app_nil_r (map Db.id (rows t))) at 1.
      apply Add_app.
    + split; [exact Hids|].
      intros Hin. apply in_map_iff in Hin. destruct Hin as [r [Hr Hin]].
      specialize (Hfresh r Hin). lia.
  - intros r1 r2 H1 H2 Hne. cbn [rows] in *.
    apply in_app_iff in H1. apply in_app_iff in H2.
    destruct H1 as [H1|[<-|[]]]; destruct H2 as [H2|[<-|[]]].
    + now apply Hemails.
    + simpl. apply (Hex r1 H1).
    + simpl. rewrite collation_sym. apply (Hex r2 H2).
    + congruence.
Qed.

Lemma assigned_row_id (salt : string) (b : Body)
  (c : string * string * option string) (r : Row) :
  Db.id (assigned_row salt b c r) = Db.id r.
Proof. reflexivity. Qed.

Lemma assigned_table_ids (salt : string) (i : positive) (b : Body)
  (c : string * string * option string) (t : Table) :
  map Db.id (rows (assigned_table salt i b c t)) = map Db.id (rows t).
Proof.
  unfold assigned_table. cbn [rows]. rewrite map_map.
  apply map_ext. intros r. now destruct (id_is i r).
Qed.

(** An update keeps the table consistent. *)
Lemma put_user_consistent (salt : string) (i : positive) (b : Body)
  (t : Table) :
  consistent t -> consistent (snd (put_user salt i b t)).
Proof using collation_sym.
  intros Hc.
  destruct (put_user_table salt i b t)
    as [->|(c & _ & _ & _ & _ & _ & Hother & ->)]; [exact Hc|].
  destruct Hc as (Hfresh & Hids & Hemails). cbn [snd].
  unfold owned_by_other in Hother. rewrite existsb_false in Hother.
  repeat split.
  - intros r Hin. unfold assigned_table in Hin. cbn [rows] in Hin.
    apply in_map_iff in Hin. destruct Hin as [r0 [<- Hin]].
    specialize (Hfresh r0 Hin).
    destruct (id_is i r0); exact Hfresh.
  - unfold unique_ids. now rewrite assigned_table_ids.
  - intros r1 r2 H1 H2 Hne. unfold assigned_table in H1, H2.
    cbn [rows] in H1, H2.
    apply in_map_iff in H1. destruct H1 as [a [<- Ha]].
    apply in_map_iff in H2. destruct H2 as [d [<- Hd]].
    pose proof (Hother a Ha) as Hoa. pose proof (Hother d Hd) as Hod.
    unfold email_is in Hoa, Hod.
    destruct (id_is i a) eqn:Hia; destruct (id_is i d) eqn:Hid;
      cbn [negb] in Hoa, Hod.
    + apply id_is_true in Hia, Hid. rewrite !assigned_row_id in Hne.
      congruence.
    + rewrite andb_true_r in Hod. simpl. now rewrite collation_sym.
    + rewrite andb_true_r in Hoa. simpl. exact Hoa.
    + apply Hemails; assumption.
Qed.

(** A delete keeps the table consistent. *)
Lemma delete_user_consistent (i : positive) (t : Table) :
  consistent t -> consistent (snd (delete_user i t)).
Proof.
  intros Hc. rewrite delete_user_cases.
  destruct (existsb (id_is i) (rows t)); [|exact Hc].
  destruct Hc as (Hfresh & Hids & Hemails). cbn [snd].
  repeat split.
  - intros r Hin. cbn [rows auto_increment] in *.
    apply filter_In in Hin. now apply Hfresh.
  - unfold unique_ids in *. cbn [rows].
    clear Hfresh Hemails. induction (rows t) as [|r rs IH]; [constructor|].
    simpl in *. inversion Hids as [|x l Hnotin Hnodup]; subst.
    destruct (negb (id_is i r)); [|now apply IH].
    simpl. constructor; [|now apply IH].
    intros Hin. apply Hnotin. apply in_map_iff in Hin.
    destruct Hin as [r' [Hr' Hin]]. apply filter_In in Hin.
    apply in_map_iff. exists r'. tauto.
  - intros r1 r2 H1 H2. cbn [rows] in *.
    apply filter_In in H1, H2. apply Hemails; tauto.
Qed.

(* ================================================================== *)
(** ** Create *)

(** C1.  A create whose payload passes validation and whose email is
    the email of a stored record answers 400 with the message
    Email already registered, and the table is the one it started
    from. *)
Theorem post_user_duplicate_email (salt : string) (b : Body) (t : Table)
  (e : string) :
  valid POST b ->
  Req.email b = Some e ->
  (exists r, In r (rows t) /\ Db.email r = e) ->
  post_user salt b t
  = (mkResponse 400 (Message "Email already registered"), t).
Proof using collation_refl.
  intros Hv He [r [Hin Hr]].
  rewrite (post_user_cases salt t Hv), He. cbn [toString].
  assert (Hex : existsb (email_is e) (rows t) = true).
  { apply existsb_exists. exists r. split; [exact Hin|].
    unfold email_is. rewrite Hr. apply collation_refl. }
  now rewrite Hex.
Qed.

(* ================================================================== *)
(** ** Delete *)

(** C9.  A delete whose id matches no stored record answers 404 and
    leaves the table as it was; a delete whose id matches a record
    answers 200 and removes exactly the records with that id. *)
Theorem delete_user_spec (i : positive) (t : Table) :
  ((forall r, In r (rows t) -> Db.id r <> i) ->
   delete_user i t = (not_found, t))
  /\ ((exists r, In r (rows t) /\ Db.id r = i) ->
      exists t',
        delete_user i t = (deleted_ok, t')
        /\ rows t' = filter (fun r => negb (id_is i r)) (rows t)
        /\ auto_increment t' = auto_increment t
        /\ (forall r, In r (rows t') <-> In r (rows t) /\ Db.id r <> i)).
Proof.
  rewrite delete_user_cases. split.
  - intros Hnone.
    assert (Hex : existsb (id_is i) (rows t) = false).
    { apply existsb_false. intros r Hin. apply id_is_false. now apply Hnone. }
    now rewrite Hex.
  - intros [r [Hin Hr]].
    assert (Hex : existsb (id_is i) (rows t) = true).
    { apply existsb_exists. exists r. split; [exact Hin|].
      now apply id_is_true. }
    rewrite Hex. eexists. split; [reflexivity|]. cbn [rows auto_increment].
    split; [reflexivity|]. split; [reflexivity|].
    intros r0. rewrite filter_In, negb_true_iff, id_is_false. tauto.
Qed.

(* ================================================================== *)
(** ** Create, then fetch *)

Definition react_aws : json := JArr [JStr "React"; JStr "AWS"].

Lemma filter_inserted (salt : string) (b : Body)
  (c : string * string * option string) (t : Table) :
  fresh_counter t ->
  filter (id_is (auto_increment t))
         (rows t ++ [inserted_row salt b c (auto_increment t)])
  = [inserted_row salt b c (auto_increment t)].
Proof.
  intros Hfresh. rewrite filter_app, filter_none.
  - simpl. unfold id_is at 1. cbn [inserted_row Db.id].
    now rewrite Pos.eqb_refl.
  - intros r Hin. apply id_is_false. specialize (Hfresh r Hin). lia.
Qed.

(** What a 201 answer of a create says about the payload and the
    table. *)
Lemma post_user_created (salt : string) (b : Body) (t t' : Table)
  (u : Object) :
  post_user salt b t = (mkResponse 201 (User u), t') ->
  valid POST b
  /\ u = created_object b (auto_increment t)
  /\ exists c,
       stored b = Some c
       /\ t' = mkTable (rows t ++ [inserted_row salt b c (auto_increment t)])
                       (Pos.succ (auto_increment t)).
Proof.
  intros H. destruct (validation_dec POST b) as [Hv|Hv].
  2:{ rewrite post_user_invalid in H by assumption. discriminate. }
  split; [exact Hv|].
  rewrite (post_user_cases salt t Hv) in H.
  destruct (existsb _ (rows t)); [discriminate|].
  destruct (Req.phone b); [|discriminate].
  destruct (stored b) as [c|]; [|discriminate].
  destruct (existsb _ (rows t)); [discriminate|].
  inversion H. split; [reflexivity|]. exists c. split; reflexivity.
Qed.

(** C4, as the code behaves.  On a table whose ids all come from the
    counter, a create with skills React, AWS that answers 201 with an id
    is followed by a fetch of that id that answers 500 Server error: the
    driver hands the handler the array it has decoded from the JSON
    column, and JSON.parse then reads the text React,AWS that the array
    converts to.  The specification promises 200 with skills React, AWS.
    Such creates exist: a payload that passes validation, has a phone,
    fits the columns and has an email not yet registered is created with
    201 and an id. *)
Theorem create_then_get_fails (salt : string) (b : Body) (t : Table) :
  fresh_counter t ->
  Req.skills b = Some react_aws ->
  (forall u t' i,
      post_user salt b t = (mkResponse 201 (User u), t') ->
      Res.get "id" u = FNum i ->
      get_user i t' = (server_error, t'))
  /\ (valid POST b ->
      Req.phone b <> None ->
      fits b = true ->
      existsb (email_is (toString (Req.email b))) (rows t) = false ->
      exists u t' i,
        post_user salt b t = (mkResponse 201 (User u), t')
        /\ Res.get "id" u = FNum i).
Proof.
  intros Hfresh Hskills. split.
  - intros u t' i Hpost Hid.
    destruct (post_user_created _ _ _ Hpost) as (Hv & -> & c & _ & ->).
    cbn in Hid. inversion Hid; subst i.
    rewrite get_user_cases. cbn [rows].
    rewrite filter_inserted by assumption.
    cbn [decode_all decode inserted_row Db.skills]. rewrite Hskills.
    change (parse (stringify (or_empty_array (Some react_aws))))
      with (Some react_aws).
    reflexivity.
  - intros Hv Hphone Hfit Hfree.
    rewrite (post_user_fits salt t Hv Hfit), Hfree.
    destruct (Req.phone b); [|congruence].
    do 3 eexists. split; reflexivity.
Qed.

(* ================================================================== *)
(** ** The rejected create of the scenario *)

(** The body name Jo, email bad, password x, role user, skills []. *)
Definition scenario_body : Body :=
  mkBody (Some "Jo") (Some "bad") (Some "x") None (Some "user")
         (Some (JArr [])).

Definition scenario_errors : list ValidationError :=
  [mkError "email" "Invalid email address";
   mkError "password" "Password must be at least 8 characters";
   mkError "password" "Password must contain at least one uppercase letter";
   mkError "password" "Password must contain at least one number";
   mkError "password"
     "Password must contain at least one special character"].

(** C5, amended.  The scenario body is rejected with 400 and exactly
    these violations: the email syntax, and the length, upper-case, digit
    and special-character rules of the password.  The name Jo has the two
    characters that the name rule asks for and is not reported. *)
Theorem post_user_scenario (salt : string) (t : Table) :
  post_user salt scenario_body t
  = (mkResponse 400 (Errors scenario_errors), t)
  /\ (forall e, In e scenario_errors -> param e <> "name").
Proof.
  split.
  - rewrite post_user_invalid; [reflexivity | discriminate].
  - intros e He. simpl in He.
    repeat (destruct He as [<-|He]; [discriminate|]). destruct He.
Qed.

(* ================================================================== *)
(** ** Create without a phone *)

(** C7, as the code behaves.  A create whose payload passes validation,
    has no phone key and an email not yet registered hands [undefined]
    to the INSERT; the driver throws, the handler answers 500 and
    nothing is stored, where the specification promises 201 and a
    record without phone. *)
Theorem post_user_without_phone (salt : string) (b : Body) (t : Table) :
  valid POST b ->
  Req.phone b = None ->
  existsb (email_is (toString (Req.email b))) (rows t) = false ->
  post_user salt b t = (server_error, t).
Proof.
  intros Hv Hphone Hfree.
  now rewrite (post_user_cases salt t Hv), Hfree, Hphone.
Qed.

(** With a phone that matches the pattern, the same create answers 201
    and stores the row. *)
(* ================================================================== *)
(** ** Update *)

Lemma owned_by_other_spec (e : string) (i : positive) (t : Table) :
  owned_by_other e i t = true
  <-> exists r, In r (rows t) /\ Db.id r <> i
                /\ collation_eq (Db.email r) e = true.
Proof.
  unfold owned_by_other. rewrite existsb_exists.
  split; intros [r [Hin H]]; exists r.
  - apply andb_true_iff in H. destruct H as [He Hi].
    apply negb_true_iff, id_is_false in Hi. auto.
  - destruct H as [Hi He]. split; [exact Hin|].
    apply andb_true_iff. split; [exact He|].
    now apply negb_true_iff, id_is_false.
Qed.

Lemma exists_id_spec (i : positive) (t : Table) :
  existsb (id_is i) (rows t) = true
  <-> exists r, In r (rows t) /\ Db.id r = i.
Proof.
  rewrite existsb_exists.
  split; intros [r [Hin H]]; exists r; split; auto; now apply id_is_true.
Qed.

(** C8, amended.  For an update whose payload passes validation: with no
    record of the target id the answer is 404 and the table is unchanged;
    with such a record, the answer is the email conflict exactly when a
    record with another id owns the email of the payload, and then the
    table is unchanged; with no conflict, a phone in the payload, and a
    name, an email and a phone that fit their columns (100, 100 and 20
    characters) the update is applied and acknowledged with 200.  On a
    table with unique emails an update that keeps the email of its
    record is never an email conflict. *)
Theorem put_user_sequence (salt : string) (i : positive) (b : Body)
  (t : Table) :
  valid PUT b ->
  ((forall r, In r (rows t) -> Db.id r <> i) ->
   put_user salt i b t = (not_found, t))
  /\ ((exists r, In r (rows t) /\ Db.id r = i) ->
      (fst (put_user salt i b t) = email_in_use
       <-> exists r, In r (rows t) /\ Db.id r <> i
                     /\ collation_eq (Db.email r) (toString (Req.email b))
                        = true)
      /\ (fst (put_user salt i b t) = email_in_use ->
          snd (put_user salt i b t) = t)
      /\ (fst (put_user salt i b t) <> email_in_use ->
          Req.phone b <> None ->
          fits b = true ->
          put_user salt i b t = (updated_ok, updated_table salt i b t)))
  /\ (unique_emails t ->
      forall r, In r (rows t) -> Db.id r = i ->
                Req.email b = Some (Db.email r) ->
                fst (put_user salt i b t) <> email_in_use).
Proof.
  intros Hv.
  assert (Hno : owned_by_other (toString (Req.email b)) i t = false ->
                existsb (id_is i) (rows t) = true ->
                fst (put_user salt i b t) <> email_in_use).
  { intros Hother Hex. rewrite (put_user_cases salt i t Hv), Hex, Hother.
    cbn [negb].
    destruct (Req.phone b); [|discriminate].
    destruct (stored b) as [c|]; [|discriminate].
    destruct (owned_by_other (snd (fst c)) i t); discriminate. }
  split; [|split].
  - intros Hnone. rewrite (put_user_cases salt i t Hv).
    assert (Hex : existsb (id_is i) (rows t) = false).
    { apply existsb_false. intros r Hin. apply id_is_false. now apply Hnone. }
    now rewrite Hex.
  - intros Hex. apply exists_id_spec in Hex.
    rewrite <- owned_by_other_spec.
    destruct (owned_by_other (toString (Req.email b)) i t) eqn:Hother.
    + rewrite (put_user_cases salt i t Hv), Hex, Hother.
      cbn [negb fst snd]. repeat split; auto. intros H. now elim H.
    + pose proof (Hno eq_refl Hex) as Hne.
      split; [split; [intros H; now elim Hne | discriminate]|].
      split; [intros H; now elim Hne|].
      intros _ Hph Hfit.
      rewrite (put_user_fits salt i t Hv Hfit), Hex, Hother. cbn [negb].
      destruct (Req.phone b); [reflexivity | congruence].
  - intros Huniq r Hin Hid He.
    assert (Hex : existsb (id_is i) (rows t) = true).
    { apply exists_id_spec. eauto. }
    assert (Hother : owned_by_other (toString (Req.email b)) i t = false).
    { unfold owned_by_other. apply existsb_false. intros r' Hin'.
      destruct (id_is i r') eqn:Hi; [apply andb_false_r|].
      rewrite andb_true_r. rewrite He. cbn [toString]. unfold email_is.
      apply Huniq; try assumption.
      apply id_is_false in Hi. congruence. }
    now apply Hno.
Qed.

(** The password is absent, empty or white space only exactly when the
    update skips the hash. *)
Lemma password_given_false (v : option string) :
  password_given v = false <-> trim (toString v) = "".
Proof.
  unfold password_given. destruct v as [s|]; cbn [truthy toString].
  - destruct (String.eqb_spec s "") as [->|Hs]; cbn [negb andb].
    + split; reflexivity.
    + rewrite negb_false_iff. apply String.eqb_eq.
  - split; reflexivity.
Qed.

(** C3, amended.  For an update on the id of an existing record whose
    payload passes validation, carries a phone, whose email is owned by
    no other record, and whose trimmed name, email and phone fit their
    columns (100, 100 and 20 characters), the answer is 200 and the
    record becomes: the trimmed name, the email, phone and role of the
    payload and the serialization of its skills; the stored hash is
    untouched when the password is absent, empty or white space only,
    and is the bcrypt hash of the new password under the fresh salt
    otherwise.  The other records are untouched. *)
Theorem put_user_password (salt : string) (i : positive) (b : Body)
  (t : Table) (n e ph ro : string) (l : list json) :
  valid PUT b ->
  (exists r, In r (rows t) /\ Db.id r = i) ->
  owned_by_other e i t = false ->
  Req.name b = Some n -> Req.email b = Some e -> Req.phone b = Some ph ->
  Req.role b = Some ro -> Req.skills b = Some (JArr l) ->
  String.length (trim n) <= 100 ->
  String.length e <= 100 ->
  String.length ph <= 20 ->
  (trim (toString (Req.password b)) = "" ->
   put_user salt i b t
   = (updated_ok,
      mkTable
        (map (fun r =>
                if id_is i r
                then mkRow (Db.id r) (trim n) e (Db.password r) (Some ph) ro
                           (Some (stringify (JArr l)))
                else r)
             (rows t))
        (auto_increment t)))
  /\ (forall pw,
        Req.password b = Some pw -> trim pw <> "" ->
        put_user salt i b t
        = (updated_ok,
           mkTable
             (map (fun r =>
                     if id_is i r
                     then mkRow (Db.id r) (trim n) e (bcrypt_hash pw salt)
                                (Some ph) ro (Some (stringify (JArr l)))
                     else r)
                  (rows t))
             (auto_increment t))).
Proof.
  intros Hv Hex Hother Hn He Hph Hro Hl Hwn Hwe Hwp.
  apply exists_id_spec in Hex.
  assert (Hfit : fits b = true).
  { unfold fits. rewrite Hn, He, Hph. cbn [toString].
    apply Nat.leb_le in Hwn, Hwe, Hwp. now rewrite Hwn, Hwe, Hwp. }
  rewrite (put_user_fits salt i t Hv Hfit), Hex, He. cbn [negb toString].
  rewrite Hother, Hph.
  unfold updated_table, updated_row, new_hash, assign.
  rewrite Hn, He, Hph, Hro, Hl. cbn [toString or_empty_array json_truthy].
  split.
  - intros Hblank. apply password_given_false in Hblank.
    now rewrite Hblank.
  - intros pw Hpw Hgiven.
    assert (Hg : password_given (Req.password b) = true).
    { destruct (password_given (Req.password b)) eqn:Hg; [reflexivity|].
      apply password_given_false in Hg. rewrite Hpw in Hg. contradiction. }
    rewrite Hg, Hpw. reflexivity.
Qed.

(* ================================================================== *)
(** ** The same update, twice *)

(** A row without its password column. *)
Definition without_hash (r : Row)
  : positive * string * string * option string * string * option string :=
  (Db.id r, Db.name r, Db.email r, Db.phone r, Db.role r, Db.skills r).

(** Two tables that differ at most in the stored hashes. *)
Definition same_but_hash (t1 t2 : Table) : Prop :=
  auto_increment t1 = auto_increment t2
  /\ map without_hash (rows t1) = map without_hash (rows t2).

Lemma exists_id_assigned (salt : string) (i : positive) (b : Body)
  (c : string * string * option string) (t : Table) :
  existsb (id_is i) (rows (assigned_table salt i b c t))
  = existsb (id_is i) (rows t).
Proof.
  unfold assigned_table. cbn [rows].
  induction (rows t) as [|r rs IH]; [reflexivity|].
  simpl. rewrite IH. f_equal.
  destruct (id_is i r) eqn:Hi; [|exact Hi].
  unfold id_is in *. now rewrite assigned_row_id.
Qed.

Lemma owned_by_other_assigned (salt : string) (e : string) (i : positive)
  (b : Body) (c : string * string * option string) (t : Table) :
  owned_by_other e i (assigned_table salt i b c t) = owned_by_other e i t.
Proof.
  unfold owned_by_other, assigned_table. cbn [rows].
  induction (rows t) as [|r rs IH]; [reflexivity|].
  simpl. rewrite IH. f_equal.
  destruct (id_is i r) eqn:Hi; [|now rewrite Hi].
  assert (Hi' : id_is i (assigned_row salt b c r) = true)
    by (unfold id_is in *; now rewrite assigned_row_id).
  rewrite Hi'. cbn [negb]. now rewrite !andb_false_r.
Qed.

Lemma assigned_table_twice (salt1 salt2 : string) (i : positive) (b : Body)
  (c : string * string * option string) (t : Table) :
  assigned_table salt2 i b c (assigned_table salt1 i b c t)
  = mkTable
      (map (fun r => if id_is i r
                     then assigned_row salt2 b c (assigned_row salt1 b c r)
                     else r)
           (rows t))
      (auto_increment t).
Proof.
  unfold assigned_table. cbn [rows auto_increment]. f_equal.
  rewrite map_map. apply map_ext. intros r.
  destruct (id_is i r) eqn:Hi.
  - assert (Hi' : id_is i (assigned_row salt1 b c r) = true)
      by (unfold id_is in *; now rewrite assigned_row_id).
    now rewrite Hi'.
  - now rewrite Hi.
Qed.

Lemma assigned_row_twice (salt1 salt2 : string) (b : Body)
  (c : string * string * option string) (r : Row) :
  without_hash (assigned_row salt2 b c (assigned_row salt1 b c r))
  = without_hash (assigned_row salt1 b c r)
  /\ (trim (toString (Req.password b)) = "" \/ salt1 = salt2 ->
      assigned_row salt2 b c (assigned_row salt1 b c r)
      = assigned_row salt1 b c r).
Proof.
  split; [reflexivity|].
  intros [Hblank| ->].
  - apply password_given_false in Hblank.
    unfold assigned_row, new_hash. rewrite Hblank. reflexivity.
  - unfold assigned_row, assign, new_hash.
    destruct (password_given (Req.password b)); reflexivity.
Qed.

Lemma Forall2_same (A : Type) (R : A -> A -> Prop) (l : list A) :
  (forall x, R x x) -> Forall2 R l l.
Proof.
  intros H. induction l; constructor; auto.
Qed.

Lemma Forall2_maps (A B : Type) (R : B -> B -> Prop) (f g : A -> B)
  (l : list A) :
  (forall x, R (f x) (g x)) -> Forall2 R (map f l) (map g l).
Proof.
  intros H. induction l; simpl; constructor; auto.
Qed.

(** C6, amended.  Applying the same update twice in a row gives the
    same answer both times, whatever that answer is.  The table after
    the second application is the table after the first whenever the
    password of the payload is absent, empty or white space only (or
    the two salts drawn coincide); in general the two tables differ at
    most in the stored hash, which is derived again under the salt of
    the second request, and every record of another id is the same in
    both. *)
Theorem put_user_twice (salt1 salt2 : string) (i : positive) (b : Body)
  (t : Table) :
  let first := put_user salt1 i b t in
  let second := put_user salt2 i b (snd first) in
  fst second = fst first
  /\ (trim (toString (Req.password b)) = "" \/ salt1 = salt2 ->
      snd second = snd first)
  /\ same_but_hash (snd second) (snd first)
  /\ Forall2 (fun r2 r1 => Db.id r1 <> i -> r2 = r1)
             (rows (snd second)) (rows (snd first)).
Proof.
  cbv zeta.
  assert (Hsame : forall l : list Row,
             Forall2 (fun r2 r1 : Row => Db.id r1 <> i -> r2 = r1) l l).
  { intros l. apply Forall2_same. reflexivity. }
  destruct (validation_dec PUT b) as [Hv|Hv].
  2:{ rewrite !put_user_invalid by assumption. cbn [fst snd].
      repeat split. apply Hsame. }
  rewrite (put_user_cases salt1 i t Hv).
  destruct (negb (existsb (id_is i) (rows t))) eqn:Hex.
  { cbn [snd fst]. rewrite (put_user_cases salt2 i t Hv), Hex.
    repeat split. apply Hsame. }
  destruct (owned_by_other (toString (Req.email b)) i t) eqn:Hother.
  { cbn [snd fst]. rewrite (put_user_cases salt2 i t Hv), Hex, Hother.
    repeat split. apply Hsame. }
  destruct (Req.phone b) as [ph|] eqn:Hph.
  2:{ cbn [snd fst]. rewrite (put_user_cases salt2 i t Hv), Hex, Hother, Hph.
      repeat split. apply Hsame. }
  destruct (stored b) as [c|] eqn:Hc.
  2:{ cbn [snd fst].
      rewrite (put_user_cases salt2 i t Hv), Hex, Hother, Hph, Hc.
      repeat split. apply Hsame. }
  destruct (owned_by_other (snd (fst c)) i t) eqn:Hother'.
  { cbn [snd fst].
    rewrite (put_user_cases salt2 i t Hv), Hex, Hother, Hph, Hc, Hother'.
    repeat split. apply Hsame. }
  cbn [snd fst].
  rewrite (put_user_cases salt2 i (assigned_table salt1 i b c t) Hv).
  rewrite exists_id_assigned, Hex, owned_by_other_assigned, Hother, Hph, Hc.
  cbv iota. rewrite owned_by_other_assigned, Hother'.
  cbn [snd fst]. rewrite assigned_table_twice.
  split; [reflexivity|]. split; [|split].
  - intros Heq. unfold assigned_table. f_equal.
    apply map_ext. intros r. destruct (id_is i r); [|reflexivity].
    now apply assigned_row_twice.
  - split; [reflexivity|]. unfold assigned_table. cbn [rows].
    rewrite !map_map. apply map_ext. intros r.
    destruct (id_is i r); reflexivity.
  - unfold assigned_table. cbn [rows]. apply Forall2_maps. intros r.
    destruct (id_is i r) eqn:Hi; [|reflexivity].
    apply id_is_true in Hi. rewrite assigned_row_id. congruence.
Qed.

(* ================================================================== *)
(** ** The skills column *)

(** Every stored [skills] text is the serialization of an array whose
    elements satisfy [P]. *)
Definition skills_serialized (P : json -> Prop) (t : Table) : Prop :=
  forall r, In r (rows t) ->
    exists l, Forall P l /\ Db.skills r = Some (stringify (JArr l)).

(** The elements of the skills of a payload satisfy [P]. *)
Definition payload_skills (P : json -> Prop) (b : Body) : Prop :=
  forall l, Req.skills b = Some (JArr l) -> Forall P l.

Definition is_string (v : json) : Prop := exists s, v = JStr s.

Lemma post_user_skills (P : json -> Prop) (salt : string) (b : Body)
  (t : Table) :
  skills_serialized P t -> payload_skills P b ->
  skills_serialized P (snd (post_user salt b t)).
Proof.
  intros Ht Hb.
  destruct (post_user_table salt b t)
    as [->|(c & Hv & _ & _ & _ & _ & ->)]; [exact Ht|].
  cbn [snd]. intros r Hin. cbn [rows] in Hin.
  apply in_app_iff in Hin. destruct Hin as [Hin|[<-|[]]]; [now apply Ht|].
  destruct (valid_shape Hv) as (e & ro & l & _ & _ & _ & Hl).
  exists l. split; [now apply Hb|].
  cbn [inserted_row Db.skills]. now rewrite Hl.
Qed.

Lemma put_user_skills (P : json -> Prop) (salt : string) (i : positive)
  (b : Body) (t : Table) :
  skills_serialized P t -> payload_skills P b ->
  skills_serialized P (snd (put_user salt i b t)).
Proof.
  intros Ht Hb.
  destruct (put_user_table salt i b t)
    as [->|(c & Hv & _ & _ & _ & _ & _ & ->)]; [exact Ht|].
  cbn [snd]. intros r Hin. unfold assigned_table in Hin. cbn [rows] in Hin.
  apply in_map_iff in Hin. destruct Hin as [r0 [<- Hin]].
  destruct (id_is i r0); [|now apply Ht].
  destruct (valid_shape Hv) as (e & ro & l & _ & _ & _ & Hl).
  exists l. split; [now apply Hb|].
  unfold assigned_row, assign. cbn [Db.skills]. now rewrite Hl.
Qed.

Lemma delete_user_skills (P : json -> Prop) (i : positive) (t : Table) :
  skills_serialized P t -> skills_serialized P (snd (delete_user i t)).
Proof.
  intros Ht. rewrite delete_user_cases.
  destruct (existsb (id_is i) (rows t)); [|exact Ht].
  cbn [snd]. intros r Hin. cbn [rows] in Hin.
  apply filter_In in Hin. now apply Ht.
Qed.

(** C10, amended.  Every mutating operation keeps this invariant: the
    stored skills text of every record is the JSON serialization of an
    array, whose elements have any property [P] that the elements of the
    skills of every payload have (the server itself checks none, so they
    are strings only as long as the payloads carry strings). *)
Theorem skills_always_serialized (P : json -> Prop) :
  skills_serialized P Db.empty
  /\ (forall salt b t,
        skills_serialized P t -> payload_skills P b ->
        skills_serialized P (snd (post_user salt b t)))
  /\ (forall salt i b t,
        skills_serialized P t -> payload_skills P b ->
        skills_serialized P (snd (put_user salt i b t)))
  /\ (forall i t,
        skills_serialized P t -> skills_serialized P (snd (delete_user i t))).
Proof.
  split; [intros r []|].
  split; [intros; now apply post_user_skills|].
  split; [intros; now apply put_user_skills|].
  intros; now apply delete_user_skills.
Qed.

(* ================================================================== *)
(** ** The routes together *)

(** A request that the application routes: the liveness probe and the
    five routes under /api/users. *)
Inductive Call : Type :=
| GetRoot : Call
| GetUsers : Call
| GetUser (userId : positive) : Call
| PostUser (b : Body) : Call
| PutUser (userId : positive) (b : Body) : Call
| DeleteUser (userId : positive) : Call.

(** GET / *)
Definition get_root (t : Table) : Response * Table :=
  (mkResponse 200 (Message "TechNova API is running"), t).

(** The routing table of [app]; [salt] is the salt that bcrypt draws
    if the handler asks for one. *)
Definition route (salt : string) (c : Call) (t : Table) : Response * Table :=
  match c with
  | GetRoot => get_root t
  | GetUsers => get_users t
  | GetUser i => get_user i t
  | PostUser b => post_user salt b t
  | PutUser i b => put_user salt i b t
  | DeleteUser i => delete_user i t
  end.

(** Requests served one after the other. *)
Fixpoint serve (calls : list (string * Call)) (t : Table)
  : list Response * Table :=
  match calls with
  | [] => ([], t)
  | (salt, c) :: rest =>
      let (r, t1) := route salt c t in
      let (rs, t2) := serve rest t1 in
      (r :: rs, t2)
  end.

Lemma serve_cons (salt : string) (c : Call) (rest : list (string * Call))
  (t : Table) :
  serve ((salt, c) :: rest) t
  = (fst (route salt c t) :: fst (serve rest (snd (route salt c t))),
     snd (serve rest (snd (route salt c t)))).
Proof.
  cbn [serve]. destruct (route salt c t) as [r t1]. cbn [fst snd].
  destruct (serve rest t1) as [rs t2]. reflexivity.
Qed.

(** An invariant of every route is an invariant of every sequence of
    requests. *)
Lemma serve_invariant (I : Table -> Prop) :
  (forall salt c t, I t -> I (snd (route salt c t))) ->
  forall calls t, I t -> I (snd (serve calls t)).
Proof.
  intros Hroute calls. induction calls as [|[salt c] rest IH]; intros t Ht.
  - exact Ht.
  - rewrite serve_cons. cbn [snd]. apply IH. now apply Hroute.
Qed.

(** *** The reads *)

Lemma map_m_table (rs : list Selected) (t : Table) :
  snd (map_m with_parsed_skills rs t) = t.
Proof.
  induction rs as [|r rs IH]; [reflexivity|].
  cbn [map_m]. unfold bind_m at 1. unfold with_parsed_skills at 1.
  destruct (parse_or_empty (skills_value r)); [|reflexivity].
  unfold bind_m at 1.
  destruct (map_m with_parsed_skills rs t) as [[ys|] t'] eqn:Hm;
    cbn [snd] in IH; subst t'; reflexivity.
Qed.

Lemma get_users_cases (t : Table) :
  get_users t =
  match decode_all (rows t) with
  | Throw => (server_error, t)
  | Ok rs =>
      match fst (map_m with_parsed_skills rs t) with
      | Ok users => (mkResponse 200 (Users users), t)
      | Throw => (server_error, t)
      end
  end.
Proof.
  unfold get_users, try_catch, bind_m, execute, sql_select_all, ret.
  cbn [existsb].
  destruct (decode_all (rows t)) as [rs|]; [|reflexivity].
  pose proof (map_m_table rs t) as Hm.
  destruct (map_m with_parsed_skills rs t) as [[ys|] t'];
    cbn [fst snd] in *; subst t'; reflexivity.
Qed.

Lemma get_users_table (t : Table) : snd (get_users t) = t.
Proof.
  rewrite get_users_cases.
  destruct (decode_all (rows t)) as [rs|]; [|reflexivity].
  destruct (fst (map_m with_parsed_skills rs t)); reflexivity.
Qed.

Lemma get_user_table (i : positive) (t : Table) : snd (get_user i t) = t.
Proof.
  rewrite get_user_cases.
  destruct (decode_all (filter (id_is i) (rows t))) as [[|row0 rest]|];
    try reflexivity.
  destruct (parse_or_empty (skills_value row0)); reflexivity.
Qed.

(** The three GET routes never change the table, whatever it holds:
    not when the skills of a record fail to parse either. *)
Theorem reads_never_mutate (salt : string) (i : positive) (t : Table) :
  snd (route salt GetRoot t) = t
  /\ snd (route salt GetUsers t) = t
  /\ snd (route salt (GetUser i) t) = t.
Proof.
  cbn [route]. auto using get_users_table, get_user_table.
Qed.

(** *** What an answer other than 200 and 201 means *)

Lemma post_user_failed (salt : string) (b : Body) (t : Table) :
  status (fst (post_user salt b t)) <> 201 -> snd (post_user salt b t) = t.
Proof.
  destruct (post_user_table salt b t)
    as [H|(c & _ & _ & _ & _ & _ & ->)]; [now intros _|].
  cbn [fst snd status]. intros H. now elim H.
Qed.

Lemma put_user_failed (salt : string) (i : positive) (b : Body) (t : Table) :
  status (fst (put_user salt i b t)) <> 200 -> snd (put_user salt i b t) = t.
Proof.
  destruct (put_user_table salt i b t)
    as [H|(c & _ & _ & _ & _ & _ & _ & ->)]; [now intros _|].
  cbn [fst snd status]. intros H. now elim H.
Qed.

Lemma delete_user_failed (i : positive) (t : Table) :
  status (fst (delete_user i t)) <> 200 -> snd (delete_user i t) = t.
Proof.
  rewrite delete_user_cases.
  destruct (existsb (id_is i) (rows t)); [|reflexivity].
  cbn [fst snd status]. intros H. now elim H.
Qed.

(** A request that is answered with anything but 200 or 201 (a
    violation list, a conflict, a 404, a 500) has changed nothing in the
    table. *)
Theorem failed_call_keeps_table (salt : string) (c : Call) (t : Table) :
  status (fst (route salt c t)) <> 200 ->
  status (fst (route salt c t)) <> 201 ->
  snd (route salt c t) = t.
Proof.
  intros H200 H201. destruct c; cbn [route] in *.
  - reflexivity.
  - apply get_users_table.
  - apply get_user_table.
  - now apply post_user_failed.
  - now apply put_user_failed.
  - now apply delete_user_failed.
Qed.

(** *** What an update leaves alone *)

(** Whatever its answer, an update neither adds, removes, reorders nor
    renumbers records, leaves the counter alone, and leaves every record
    with another id exactly as it was. *)
Theorem put_user_frame (salt : string) (i : positive) (b : Body) (t : Table) :
  map Db.id (rows (snd (put_user salt i b t))) = map Db.id (rows t)
  /\ auto_increment (snd (put_user salt i b t)) = auto_increment t
  /\ filter (fun r => negb (id_is i r)) (rows (snd (put_user salt i b t)))
     = filter (fun r => negb (id_is i r)) (rows t).
Proof.
  destruct (put_user_table salt i b t)
    as [->|(c & _ & _ & _ & _ & _ & _ & ->)]; [auto|].
  cbn [snd]. split; [apply assigned_table_ids|]. split; [reflexivity|].
  unfold assigned_table. cbn [rows].
  induction (rows t) as [|r rs IH]; [reflexivity|].
  cbn [map filter]. destruct (id_is i r) eqn:Hi.
  - assert (Hi' : id_is i (assigned_row salt b c r) = true)
      by (unfold id_is in *; now rewrite assigned_row_id).
    rewrite Hi'. cbn [negb]. exact IH.
  - rewrite Hi. cbn [negb]. now rewrite IH.
Qed.

(** *** Consistency along a run *)

Lemma route_consistent (salt : string) (c : Call) (t : Table) :
  consistent t -> consistent (snd (route salt c t)).
Proof using collation_sym.
  intros Ht. destruct c; cbn [route].
  - exact Ht.
  - now rewrite get_users_table.
  - now rewrite get_user_table.
  - now apply post_user_consistent.
  - now apply put_user_consistent.
  - now apply delete_user_consistent.
Qed.

(** After any sequence of requests on a consistent table the table is
    consistent: the ids are pairwise distinct and below the counter, and
    no two records have emails that the collation of the column
    identifies. *)
Theorem serve_consistent (calls : list (string * Call)) (t : Table) :
  consistent t -> consistent (snd (serve calls t)).
Proof using collation_sym.
  apply (serve_invariant consistent). intros salt c t0.
  apply route_consistent.
Qed.

(* ================================================================== *)
(** ** What the table holds along a run *)

(** [s] is empty or starts with a character that is not white space. *)
Definition head_not_space (s : string) : Prop :=
  match s with
  | EmptyString => True
  | String c _ => is_space c = false
  end.

Lemma ltrim_head (s : string) : head_not_space (ltrim s).
Proof.
  induction s as [|c s IH]; simpl; [exact I|].
  destruct (is_space c) eqn:Hc; [exact IH | exact Hc].
Qed.

Lemma ltrim_fixed (s : string) : head_not_space s -> ltrim s = s.
Proof.
  destruct s as [|c s]; simpl; [reflexivity|]. now intros ->.
Qed.

Lemma rtrim_head (s : string) : head_not_space s -> head_not_space (rtrim s).
Proof.
  destruct s as [|c s]; simpl; [trivial|]. intros Hc.
  destruct (rtrim s); [rewrite Hc|]; exact Hc.
Qed.

Lemma rtrim_idempotent (s : string) : rtrim (rtrim s) = rtrim s.
Proof.
  induction s as [|c s IH]; [reflexivity|].
  cbn [rtrim]. destruct (rtrim s) as [|d u] eqn:Hr.
  - destruct (is_space c) eqn:Hc; [reflexivity|].
    cbn [rtrim]. now rewrite Hc.
  - cbn [rtrim]. cbn [rtrim] in IH. rewrite IH. reflexivity.
Qed.

(** Trimming a trimmed string changes nothing. *)
Lemma trim_idempotent (s : string) : trim (trim s) = trim s.
Proof.
  unfold trim.
  rewrite (ltrim_fixed _ (rtrim_head _ (ltrim_head s))).
  apply rtrim_idempotent.
Qed.

Lemma take_length (n : nat) (s : string) : String.length (take n s) <= n.
Proof.
  revert s. induction n as [|n IH]; intros [|c s]; simpl; try lia.
  specialize (IH s). lia.
Qed.

(** What a VARCHAR(n) column holds has at most [n] characters, and is
    the text assigned to it when that has at most [n] characters. *)
Lemma varchar_spec (n : nat) (s s' : string) :
  varchar n s = Some s' ->
  String.length s' <= n /\ (String.length s <= n -> s' = s).
Proof.
  unfold varchar. destruct (String.length s <=? n) eqn:Hle.
  - intros H. inversion H; subst. apply Nat.leb_le in Hle. auto.
  - destruct (sql_strict && negb (only_spaces (drop n s))); [discriminate|].
    intros H. inversion H; subst. apply Nat.leb_gt in Hle.
    split; [apply take_length | lia].
Qed.

Lemma stored_inv (b : Body) (n e : string) (ph : option string) :
  stored b = Some (n, e, ph) ->
  varchar 100 (trim (toString (Req.name b))) = Some n
  /\ varchar 100 (toString (Req.email b)) = Some e
  /\ varchar_null 20 (Req.phone b) = Some ph.
Proof.
  unfold stored, columns.
  destruct (varchar 100 (trim (toString (Req.name b)))); [|discriminate].
  destruct (varchar 100 (toString (Req.email b))); [|discriminate].
  destruct (varchar_null 20 (Req.phone b)); [|discriminate].
  intros H. inversion H. auto.
Qed.

(** What every stored record satisfies.  Its name, email and phone are
    what columns of 100, 100 and 20 characters take from values that
    pass validation: a trimmed name of two characters or more, an
    address that passes [isEmail], a phone that matches the pattern.
    The role is one of the three, the skills text is the serialization
    of an array, and the password column is [bcrypt.hash] of a password
    that satisfies the five rules of the chain, under some salt. *)
Definition row_valid (r : Row) : Prop :=
  (exists n, trim n = n /\ 2 <= String.length n
             /\ varchar 100 n = Some (Db.name r))
  /\ (exists e, isEmail e = true /\ varchar 100 e = Some (Db.email r))
  /\ isIn ["user"; "admin"; "developer"] (Db.role r) = true
  /\ (exists ph s, full re_phone ph = true /\ varchar 20 ph = Some s
                   /\ Db.phone r = Some s)
  /\ (exists l, Db.skills r = Some (stringify (JArr l)))
  /\ (exists pw salt, Db.password r = bcrypt_hash pw salt
                      /\ passwordValidation (Some pw) = []).

Definition rows_valid (t : Table) : Prop :=
  forall r, In r (rows t) -> row_valid r.

(** The widths of the columns, and what a column holds when the
    validated value fits. *)
Lemma row_valid_widths (r : Row) :
  row_valid r ->
  String.length (Db.name r) <= 100
  /\ String.length (Db.email r) <= 100
  /\ (exists s, Db.phone r = Some s /\ String.length s <= 20).
Proof.
  intros ((n & _ & _ & Hn) & (e & _ & He) & _ & (ph & s & _ & Hp & Hs) & _).
  apply varchar_spec in Hn, He, Hp.
  repeat split; try tauto. exists s. tauto.
Qed.

Lemma valid_name (method : Method) (b : Body) :
  valid method b ->
  trim (trim (toString (Req.name b))) = trim (toString (Req.name b))
  /\ 2 <= String.length (trim (toString (Req.name b))).
Proof.
  intros Hv. split; [apply trim_idempotent|].
  destruct (valid_inv Hv) as (Hn & _). now apply Nat.leb_le in Hn.
Qed.

Lemma inserted_row_valid (salt : string) (b : Body)
  (c : string * string * option string) (i : positive) :
  valid POST b -> Req.phone b <> None -> stored b = Some c ->
  row_valid (inserted_row salt b c i).
Proof.
  intros Hv Hph Hc. destruct (valid_name Hv) as [Ht Hlen].
  destruct (valid_inv Hv) as (_ & He & Hpw & Hro & Hphone & [l Hl]).
  destruct c as [[n' e'] ph'].
  destruct (stored_inv _ Hc) as (Hn' & He' & Hph').
  unfold row_valid, inserted_row.
  cbn [Db.name Db.email Db.role Db.phone Db.skills Db.password fst snd].
  repeat split; try assumption.
  - eauto.
  - eauto.
  - destruct (Req.phone b) as [ph|]; [|congruence].
    unfold varchar_null in Hph'.
    destruct (varchar 20 ph) as [s|] eqn:Hs; [|discriminate].
    inversion Hph'; subst. exists ph, s. auto.
  - exists l. now rewrite Hl.
  - exists (toString (Req.password b)), salt. split; [reflexivity|].
    exact Hpw.
Qed.

Lemma assigned_row_valid (salt : string) (b : Body)
  (c : string * string * option string) (r : Row) :
  valid PUT b -> Req.phone b <> None -> stored b = Some c -> row_valid r ->
  row_valid (assigned_row salt b c r).
Proof.
  intros Hv Hph Hc Hr. destruct (valid_name Hv) as [Ht Hlen].
  destruct (valid_inv Hv) as (_ & He & Hpw & Hro & Hphone & [l Hl]).
  destruct Hr as (_ & _ & _ & _ & _ & Hhash).
  destruct c as [[n' e'] ph'].
  destruct (stored_inv _ Hc) as (Hn' & He' & Hph').
  unfold row_valid, assigned_row, assign.
  cbn [Db.name Db.email Db.role Db.phone Db.skills Db.password fst snd].
  repeat split; try assumption.
  - eauto.
  - eauto.
  - destruct (Req.phone b) as [ph|]; [|congruence].
    unfold varchar_null in Hph'.
    destruct (varchar 20 ph) as [s|] eqn:Hs; [|discriminate].
    inversion Hph'; subst. exists ph, s. auto.
  - exists l. now rewrite Hl.
  - unfold new_hash.
    destruct (password_given (Req.password b)) eqn:Hg; [|exact Hhash].
    exists (toString (Req.password b)), salt. split; [reflexivity|].
    unfold password_custom, password_skipped, password_given in *.
    cbn [is_put andb] in Hpw.
    apply andb_true_iff in Hg. destruct Hg as [Htruthy Hblank].
    rewrite Htruthy in Hpw. cbn [negb orb] in Hpw.
    apply negb_true_iff in Hblank. rewrite Hblank in Hpw. exact Hpw.
Qed.

Lemma route_rows_valid (salt : string) (c : Call) (t : Table) :
  rows_valid t -> rows_valid (snd (route salt c t)).
Proof.
  intros Ht. destruct c as [| |i|b|i b|i]; cbn [route].
  - exact Ht.
  - now rewrite get_users_table.
  - now rewrite get_user_table.
  - destruct (post_user_table salt b t)
      as [->|(c & Hv & Hph & Hc & _ & _ & ->)]; [exact Ht|].
    cbn [snd]. intros r Hin. cbn [rows] in Hin.
    apply in_app_iff in Hin.
    destruct Hin as [Hin|[<-|[]]]; [now apply Ht|].
    now apply inserted_row_valid.
  - destruct (put_user_table salt i b t)
      as [->|(c & Hv & Hph & Hc & _ & _ & _ & ->)]; [exact Ht|].
    cbn [snd]. intros r Hin. unfold assigned_table in Hin.
    cbn [rows] in Hin. apply in_map_iff in Hin.
    destruct Hin as [r0 [<- Hin]].
    destruct (id_is i r0); [|now apply Ht].
    apply assigned_row_valid; auto.
  - rewrite delete_user_cases.
    destruct (existsb (id_is i) (rows t)); [|exact Ht].
    cbn [snd]. intros r Hin. cbn [rows] in Hin.
    apply filter_In in Hin. now apply Ht.
Qed.

(** After any sequence of requests, every record of the table is made
    of values that passed validation, as far as its columns could take
    them, provided the records it started with were: its name, email
    and phone are what columns of 100, 100 and 20 characters take from
    a trimmed name of two characters or more, an address that passes
    isEmail and a phone that matches the pattern; its role is one of
    the three; its skills text is the serialization of an array; and
    its password column is the bcrypt hash, under some salt, of a
    password that satisfies the five rules.  In particular no record is
    ever stored without a phone, and every name, email and phone has
    the width of its column at most. *)
Theorem serve_rows_valid (calls : list (string * Call)) (t : Table) :
  rows_valid t ->
  rows_valid (snd (serve calls t))
  /\ (forall r, In r (rows (snd (serve calls t))) ->
        String.length (Db.name r) <= 100
        /\ String.length (Db.email r) <= 100
        /\ (exists s, Db.phone r = Some s /\ String.length s <= 20)).
Proof.
  intros Ht.
  assert (H : rows_valid (snd (serve calls t))).
  { revert Ht. apply (serve_invariant rows_valid). intros salt c t0.
    apply route_rows_valid. }
  split; [exact H|].
  intros r Hin. apply row_valid_widths. now apply H.
Qed.

(* ================================================================== *)
(** ** Ids *)

(** The id that a 201 answer carries. *)
Definition created_id (r : Response) : option positive :=
  if status r =? 201 then
    match body r with
    | User o =>
        match Res.get "id" o with
        | FNum i => Some i
        | _ => None
        end
    | _ => None
    end
  else None.

Fixpoint created_ids (rs : list Response) : list positive :=
  match rs with
  | [] => []
  | r :: rest =>
      match created_id r with
      | Some i => i :: created_ids rest
      | None => created_ids rest
      end
  end.

(** A route never lowers the counter, and a 201 answer carries the old
    counter and leaves its successor. *)
Lemma route_counter (salt : string) (c : Call) (t : Table) :
  (auto_increment t <= auto_increment (snd (route salt c t)))%positive
  /\ (forall i, created_id (fst (route salt c t)) = Some i ->
                i = auto_increment t
                /\ auto_increment (snd (route salt c t)) = Pos.succ i).
Proof.
  destruct c as [| |i|b|i b|i]; cbn [route].
  - split; [reflexivity | discriminate].
  - rewrite get_users_cases.
    destruct (decode_all (rows t)) as [rs|];
      [|split; [reflexivity | discriminate]].
    destruct (fst (map_m with_parsed_skills rs t));
      (split; [reflexivity | discriminate]).
  - rewrite get_user_cases.
    destruct (decode_all (filter (id_is i) (rows t))) as [[|row0 rest]|];
      try (split; [reflexivity | discriminate]).
    destruct (parse_or_empty _); (split; [reflexivity | discriminate]).
  - destruct (validation_dec POST b) as [Hv|Hv].
    { rewrite (post_user_cases salt t Hv).
      destruct (existsb _ (rows t)); [split; [reflexivity|discriminate]|].
      destruct (Req.phone b); [|split; [reflexivity|discriminate]].
      destruct (stored b) as [c|]; [|split; [reflexivity|discriminate]].
      destruct (existsb _ (rows t)); [split; [reflexivity|discriminate]|].
      cbn [fst snd auto_increment]. split; [lia|].
      intros j Hj. cbv in Hj. inversion Hj. auto. }
    rewrite post_user_invalid by assumption.
    split; [reflexivity | discriminate].
  - destruct (put_user_frame salt i b t) as (_ & Hc & _). rewrite Hc.
    split; [reflexivity|]. intros j.
    destruct (validation_dec PUT b) as [Hv|Hv].
    { rewrite (put_user_cases salt i t Hv).
      destruct (negb _); [discriminate|].
      destruct (owned_by_other _ i t); [discriminate|].
      destruct (Req.phone b); [|discriminate].
      destruct (stored b) as [c|]; [|discriminate].
      destruct (owned_by_other _ i t); discriminate. }
    rewrite put_user_invalid by assumption. discriminate.
  - rewrite delete_user_cases.
    destruct (existsb (id_is i) (rows t));
      (split; [reflexivity | discriminate]).
Qed.

(** Along any sequence of requests the ids handed out by the creates
    are strictly increasing and lie between the counter at the start and
    the counter at the end: an id is never handed out twice, and never
    again after its record was deleted. *)
Theorem created_ids_increase (calls : list (string * Call)) (t : Table) :
  (auto_increment t <= auto_increment (snd (serve calls t)))%positive
  /\ StronglySorted Pos.lt (created_ids (fst (serve calls t)))
  /\ Forall (fun i => (auto_increment t <= i
                       /\ i < auto_increment (snd (serve calls t)))%positive)
            (created_ids (fst (serve calls t))).
Proof.
  revert t. induction calls as [|[salt c] rest IH]; intros t.
  - cbn [serve fst snd created_ids].
    split; [reflexivity|]. split; constructor.
  - rewrite serve_cons. cbn [fst snd].
    destruct (route_counter salt c t) as [Hmono Hid].
    destruct (IH (snd (route salt c t))) as (Hle & Hsorted & Hall).
    split; [lia|]. cbn [created_ids].
    destruct (created_id (fst (route salt c t))) as [i|].
    + destruct (Hid i eq_refl) as [-> Hsucc].
      split.
      * constructor; [exact Hsorted|].
        eapply Forall_impl; [|exact Hall]. cbn. intros j Hj. lia.
      * constructor; [lia|].
        eapply Forall_impl; [|exact Hall]. cbn. intros j Hj. lia.
    + split; [exact Hsorted|].
      eapply Forall_impl; [|exact Hall]. cbn. intros j Hj. lia.
Qed.

(* ================================================================== *)
(** ** What the answers show *)

(** The keys of a user object: the selected columns. *)
Definition public_keys : list string :=
  ["id"; "name"; "email"; "phone"; "role"; "skills"].

(** The user objects in the body of an answer. *)
Definition objects_of (r : Response) : list Object :=
  match body r with
  | User o => [o]
  | Users l => l
  | _ => []
  end.

Lemma map_m_keys (rs : list Selected) (t : Table) (users : list Object) :
  fst (map_m with_parsed_skills rs t) = Ok users ->
  Forall (fun o => keys o = public_keys) users.
Proof.
  revert users. induction rs as [|r rs IH]; intros users H.
  - inversion H. constructor.
  - cbn [map_m] in H. unfold bind_m at 1 in H.
    unfold with_parsed_skills at 1 in H.
    destruct (parse_or_empty (skills_value r)) as [v|];
      [|discriminate].
    unfold bind_m at 1 in H.
    destruct (map_m with_parsed_skills rs t) as [[ys|] t0] eqn:Hm;
      [|discriminate].
    inversion H; subst. specialize (IH ys eq_refl).
    constructor; [reflexivity | exact IH].
Qed.

(** Every user object in every answer of every route, on every table,
    has exactly the keys id, name, email, phone, role, skills: the
    password column is part of no answer. *)
Theorem answers_show_public_keys (salt : string) (c : Call) (t : Table) :
  Forall (fun o => keys o = public_keys) (objects_of (fst (route salt c t))).
Proof.
  destruct c as [| |i|b|i b|i]; cbn [route].
  - constructor.
  - rewrite get_users_cases.
    destruct (decode_all (rows t)) as [rs|]; [|constructor].
    destruct (fst (map_m with_parsed_skills rs t)) as [ys|] eqn:Hm;
      [|constructor].
    cbn [fst objects_of body]. now apply (map_m_keys _ _ Hm).
  - rewrite get_user_cases.
    destruct (decode_all (filter (id_is i) (rows t))) as [[|row0 rest]|];
      try constructor.
    destruct (parse_or_empty _); repeat constructor.
  - destruct (validation_dec POST b) as [Hv|Hv].
    { rewrite (post_user_cases salt t Hv).
      destruct (existsb _ (rows t)); [constructor|].
      destruct (Req.phone b); [|constructor].
      destruct (stored b) as [c|]; [|constructor].
      destruct (existsb _ (rows t)); repeat constructor. }
    rewrite post_user_invalid by assumption. constructor.
  - destruct (validation_dec PUT b) as [Hv|Hv].
    { rewrite (put_user_cases salt i t Hv).
      destruct (negb _); [constructor|].
      destruct (owned_by_other _ i t); [constructor|].
      destruct (Req.phone b); [|constructor].
      destruct (stored b) as [c|]; [|constructor].
      destruct (owned_by_other _ i t); constructor. }
    rewrite put_user_invalid by assumption. constructor.
  - rewrite delete_user_cases.
    destruct (existsb (id_is i) (rows t)); constructor.
Qed.

(** The records stay in the order of their ids. *)
Definition in_id_order (t : Table) : Prop :=
  fresh_counter t /\ StronglySorted Pos.lt (map Db.id (rows t)).

Lemma route_in_id_order (salt : string) (c : Call) (t : Table) :
  in_id_order t -> in_id_order (snd (route salt c t)).
Proof.
  unfold in_id_order.
  intros [Hf Hs].
  destruct c as [| |i|b|i b|i]; cbn [route].
  - now split.
  - rewrite get_users_table. now split.
  - rewrite get_user_table. now split.
  - destruct (post_user_table salt b t)
      as [->|(c0 & _ & _ & _ & _ & _ & ->)]; [now split|].
    cbn [snd rows auto_increment]. split.
    + intros r Hin. cbn [rows auto_increment] in *.
      apply in_app_iff in Hin.
      destruct Hin as [Hin|[<-|[]]];
        [specialize (Hf r Hin); lia | simpl; lia].
    + rewrite map_app. cbn [map inserted_row Db.id].
      clear -Hf Hs. unfold fresh_counter in Hf.
      induction (rows t) as [|r rs IH]; cbn [map app].
      * repeat constructor.
      * inversion Hs as [|x l Hs' Hall]; subst. constructor.
        -- apply IH; [|exact Hs']. intros r' Hin. apply Hf. now right.
        -- apply Forall_app. split; [exact Hall|].
           constructor; [|constructor]. apply Hf. now left.
  - destruct (put_user_frame salt i b t) as (Hids & Hc & _).
    split; [|now rewrite Hids].
    intros r Hin. rewrite Hc.
    assert (Hid : In (Db.id r) (map Db.id (rows t)))
      by (rewrite <- Hids; now apply in_map).
    apply in_map_iff in Hid. destruct Hid as [r0 [<- Hin0]].
    now apply Hf.
  - rewrite delete_user_cases.
    destruct (existsb (id_is i) (rows t)); [|now split].
    cbn [snd rows auto_increment]. split.
    + intros r Hin. cbn [rows auto_increment] in *.
      apply filter_In in Hin. now apply Hf.
    + clear -Hs. induction (rows t) as [|r rs IH]; [constructor|].
      cbn [map filter] in *. inversion Hs as [|x l Hs' Hall]; subst.
      destruct (negb (id_is i r)); [|now apply IH].
      cbn [map]. constructor; [now apply IH|].
      apply Forall_forall. intros j Hj.
      rewrite Forall_forall in Hall. apply Hall.
      apply in_map_iff in Hj. destruct Hj as [r' [<- Hin]].
      apply filter_In in Hin. apply in_map. tauto.
Qed.

(** What the driver hands over for the rows it could decode: one
    selected row per row, in the same order. *)
Lemma decode_all_rows (rs : list Row) (us : list Selected) :
  decode_all rs = Ok us -> map Db.row us = rs.
Proof.
  revert us. induction rs as [|r rs IH]; intros us H.
  - inversion H. reflexivity.
  - cbn [decode_all] in H.
    destruct (decode r) as [u|] eqn:Hu; [|discriminate].
    destruct (decode_all rs) as [us'|]; [|discriminate].
    inversion H; subst. cbn [map]. rewrite (IH us' eq_refl). f_equal.
    unfold decode in Hu. destruct (Db.skills r) as [text|].
    + destruct (parse text); inversion Hu; reflexivity.
    + inversion Hu; reflexivity.
Qed.

Lemma decode_all_In (rs : list Row) (us : list Selected) (r : Row) :
  decode_all rs = Ok us -> In r rs ->
  exists u, In u us /\ decode r = Ok u.
Proof.
  revert us. induction rs as [|r0 rs IH]; intros us H Hin; [destruct Hin|].
  cbn [decode_all] in H.
  destruct (decode r0) as [u0|] eqn:Hu; [|discriminate].
  destruct (decode_all rs) as [us'|]; [|discriminate].
  inversion H; subst. destruct Hin as [->|Hin].
  - exists u0. split; [now left | exact Hu].
  - destruct (IH us' eq_refl Hin) as [u [Hu1 Hu2]].
    exists u. split; [now right | exact Hu2].
Qed.

Lemma map_m_ids (rs : list Selected) (t : Table) (users : list Object) :
  fst (map_m with_parsed_skills rs t) = Ok users ->
  map (Res.get "id") users = map (fun u => FNum (Db.id (Db.row u))) rs.
Proof.
  revert users. induction rs as [|r rs IH]; intros users H.
  - inversion H. reflexivity.
  - cbn [map_m] in H. unfold bind_m at 1 in H.
    unfold with_parsed_skills at 1 in H.
    destruct (parse_or_empty (skills_value r)) as [v|];
      [|discriminate].
    unfold bind_m at 1 in H.
    destruct (map_m with_parsed_skills rs t) as [[ys|] t0] eqn:Hm;
      [|discriminate].
    inversion H; subst. cbn [map]. now rewrite (IH ys eq_refl).
Qed.

Lemma map_m_throw (rs : list Selected) (t : Table) (u : Selected) :
  In u rs -> parse_or_empty (skills_value u) = None ->
  fst (map_m with_parsed_skills rs t) = Throw.
Proof.
  induction rs as [|r rs IH]; intros Hin Hu; [destruct Hin|].
  cbn [map_m]. unfold bind_m at 1. unfold with_parsed_skills at 1.
  destruct Hin as [->|Hin].
  - now rewrite Hu.
  - destruct (parse_or_empty (skills_value r)); [|reflexivity].
    unfold bind_m at 1. specialize (IH Hin Hu).
    destruct (map_m with_parsed_skills rs t) as [[ys|] t0];
      [discriminate | reflexivity].
Qed.

(** On the table that any sequence of requests leaves behind the empty
    table the records are in the order of their ids, which is the order
    in which they were created, and an answer 200 of the list route has
    one object per record, in that order. *)
Theorem list_after_any_run (calls : list (string * Call)) :
  let t := snd (serve calls Db.empty) in
  StronglySorted Pos.lt (map Db.id (rows t))
  /\ (forall users,
        get_users t = (mkResponse 200 (Users users), t) ->
        map (Res.get "id") users = map (fun r => FNum (Db.id r)) (rows t)).
Proof.
  cbv zeta. split.
  - apply (serve_invariant in_id_order).
    + intros salt c t0. apply route_in_id_order.
    + split; [intros r [] | constructor].
  - intros users H. rewrite get_users_cases in H.
    destruct (decode_all (rows (snd (serve calls Db.empty)))) as [rs|] eqn:Hd;
      [|discriminate].
    destruct (fst (map_m with_parsed_skills rs _)) as [ys|] eqn:Hm;
      [|discriminate].
    inversion H; subst. rewrite (map_m_ids _ _ Hm).
    rewrite <- (decode_all_rows _ Hd). now rewrite map_map.
Qed.

(* ================================================================== *)
(** ** Reading a record with skills of the form *)

(** The text starts with an upper-case letter, as the eight skills that
    the check boxes of the form offer do. *)
Definition starts_upper (s : string) : bool :=
  match s with
  | EmptyString => false
  | String c _ => in_range "A" "Z" c
  end.

(** The skills that the check boxes of the form offer (line 27). *)
Definition skillOptions : list string :=
  ["JavaScript"; "React"; "Node.js"; "MySQL"; "Python"; "Java"; "AWS";
   "Docker"].

(** Whatever is chosen among the check boxes starts with an upper-case
    letter. *)
Lemma skillOptions_upper (sk : list string) :
  incl sk skillOptions -> Forall (fun s => starts_upper s = true) sk.
Proof.
  intros H. apply Forall_forall. intros s Hs. apply H in Hs.
  unfold skillOptions in Hs. simpl in Hs.
  repeat (destruct Hs as [<-|Hs]; [reflexivity|]). destruct Hs.
Qed.

(** No JSON text starts with an upper-case letter. *)
Lemma parse_upper (c : ascii) (s : string) :
  in_range "A" "Z" c = true -> parse (String c s) = None.
Proof.
  intros H. unfold in_range in H. apply andb_prop in H. destruct H as [H1 H2].
  apply Nat.leb_le in H1, H2.
  change (code "A") with 65 in H1. change (code "Z") with 90 in H2.
  assert (Hne : forall d : ascii, code d < 65 \/ 90 < code d ->
                                  Ascii.eqb c d = false).
  { intros d Hd. destruct (Ascii.eqb_spec c d) as [E|]; [|reflexivity].
    rewrite E in H1, H2. lia. }
  unfold parse, parse_fuel. rewrite parse_value_S. cbn [skip_ws].
  assert (Hws : is_json_ws c = false).
  { unfold is_json_ws. repeat rewrite (proj2 (Nat.eqb_neq _ _)) by lia.
    reflexivity. }
  rewrite Hws.
  rewrite (Hne "["%char), (Hne "{"%char), (Hne dquote), (Hne "n"%char),
    (Hne "t"%char), (Hne "f"%char) by (vm_compute; lia).
  cbn [scan_number]. rewrite (Hne "-"%char) by (vm_compute; lia).
  unfold scan_unsigned. cbn [scan_int].
  rewrite (Hne "0"%char) by (vm_compute; lia).
  assert (Hd : is_digit c = false).
  { unfold is_digit, in_range. change (code "9") with 57.
    rewrite (proj2 (Nat.leb_gt (code c) 57)) by lia. apply andb_false_r. }
  now rewrite Hd.
Qed.

(** An array of such skills, or of none, converts to a text that
    JSON.parse refuses. *)
Lemma parse_form_skills (sk : list string) :
  Forall (fun s => starts_upper s = true) sk ->
  parse_or_empty (JArr (map JStr sk)) = None.
Proof.
  intros H. unfold parse_or_empty. cbn [json_truthy].
  destruct H as [|s sk Hs Hsk]; [reflexivity|].
  destruct s as [|c s]; [discriminate|]. cbn [starts_upper] in Hs.
  cbn [map to_string String.append]. now apply parse_upper.
Qed.

Lemma well_formed_strings (sk : list string) :
  well_formed (JArr (map JStr sk)) = true.
Proof.
  cbn [well_formed]. apply forallb_forall. intros v Hv.
  apply in_map_iff in Hv. destruct Hv as [s [<- _]]. reflexivity.
Qed.

(** The two reads answer 500 for a record whose skills were chosen in
    the form.  The driver decodes the JSON column to the array, the
    handler passes the array to JSON.parse, which converts it to the
    text of its elements joined by commas (the empty text for no skill)
    and refuses that text.  The list route answers 500 as soon as the
    table holds one such record; the fetch by id answers 500 for it when
    no other record has its id. *)
Theorem reads_fail_on_form_skills (t : Table) (r : Row) (sk : list string) :
  In r (rows t) ->
  Db.skills r = Some (stringify (JArr (map JStr sk))) ->
  Forall (fun s => starts_upper s = true) sk ->
  get_users t = (server_error, t)
  /\ (unique_ids t -> get_user (Db.id r) t = (server_error, t)).
Proof.
  intros Hin Hskills Hsk.
  assert (Hdec : decode r = Ok (mkSelected r (JArr (map JStr sk)))).
  { unfold decode. rewrite Hskills.
    now rewrite (parse_stringify _ (well_formed_strings sk)). }
  pose proof (parse_form_skills Hsk) as Hparse.
  split.
  - rewrite get_users_cases.
    destruct (decode_all (rows t)) as [rs|] eqn:Hd; [|reflexivity].
    destruct (@decode_all_In _ _ r Hd Hin) as [u [Hu1 Hu2]].
    rewrite Hdec in Hu2. inversion Hu2; subst u.
    now rewrite (@map_m_throw rs t _ Hu1 Hparse).
  - intros Huniq. rewrite get_user_cases.
    assert (Hf : filter (id_is (Db.id r)) (rows t) = [r]).
    { unfold unique_ids in Huniq. clear -Hin Huniq.
      induction (rows t) as [|r0 rs IH]; [destruct Hin|].
      cbn [map] in Huniq. inversion Huniq as [|x l Hnotin Hnodup]; subst.
      cbn [filter]. destruct Hin as [->|Hin].
      - unfold id_is at 1. rewrite Pos.eqb_refl. f_equal.
        apply filter_none. intros r' Hr'. apply id_is_false.
        intros E. apply Hnotin. rewrite <- E. now apply in_map.
      - destruct (id_is (Db.id r) r0) eqn:Hi; [|now apply IH].
        apply id_is_true in Hi. exfalso. apply Hnotin. rewrite Hi.
        now apply in_map. }
    rewrite Hf. cbn [decode_all]. rewrite Hdec.
    cbn [skills_value]. now rewrite Hparse.
Qed.

Lemma no_row_after_delete (i : positive) (t : Table) :
  existsb (id_is i) (rows (snd (delete_user i t))) = false.
Proof.
  rewrite delete_user_cases.
  destruct (existsb (id_is i) (rows t)) eqn:Hex; cbn [snd]; [|exact Hex].
  cbn [rows]. apply existsb_false. intros r Hin.
  apply filter_In in Hin. destruct Hin as [_ Hin].
  now apply negb_true_iff in Hin.
Qed.

(** After a delete, whatever it answered, the id is gone: a fetch, a
    second delete and an update (of a payload that passes validation)
    all answer 404 and leave the table as the first delete left it. *)
Theorem delete_then_gone (salt : string) (i : positive) (b : Body)
  (t : Table) :
  let t' := snd (delete_user i t) in
  get_user i t' = (not_found, t')
  /\ delete_user i t' = (not_found, t')
  /\ (valid PUT b -> put_user salt i b t' = (not_found, t')).
Proof.
  cbv zeta. pose proof (no_row_after_delete i t) as Hgone.
  split; [|split].
  - now apply get_user_absent.
  - now rewrite delete_user_cases, Hgone.
  - intros Hv. now rewrite (put_user_cases salt i _ Hv), Hgone.
Qed.

(* ================================================================== *)
(** ** The two modes of validation *)

Lemma app_nil_iff (A : Type) (l1 l2 : list A) :
  l1 ++ l2 = [] <-> l1 = [] /\ l2 = [].
Proof.
  split; [apply app_eq_nil | intros [-> ->]; reflexivity].
Qed.

(** A payload is accepted by a create exactly when it is accepted by an
    update and its password satisfies the five rules; and an update
    whose password is not blank is accepted only if a create would
    accept it. *)
Theorem valid_post_iff_put (b : Body) :
  (valid POST b <-> valid PUT b /\ passwordValidation (Req.password b) = [])
  /\ (valid PUT b -> password_given (Req.password b) = true ->
      valid POST b).
Proof.
  unfold valid, validateUser. cbn [fst].
  rewrite !app_nil_iff.
  unfold password_custom, password_skipped. cbn [is_put andb].
  assert (Hskip : password_given (Req.password b)
                  = negb (negb (truthy (Req.password b))
                          || String.eqb (trim (toString (Req.password b)))
                                        "")).
  { unfold password_given. now rewrite negb_orb, negb_involutive. }
  destruct (negb (truthy (Req.password b))
            || String.eqb (trim (toString (Req.password b))) "") eqn:Hs;
    cbn [negb] in Hskip; rewrite Hskip.
  - split; [tauto | discriminate].
  - split; tauto.
Qed.

(* ================================================================== *)
(** ** What the phone pattern accepts *)

Fixpoint star_free (r : re) : bool :=
  match r with
  | Star _ => false
  | Cat r1 r2 | Alt r1 r2 => star_free r1 && star_free r2
  | _ => true
  end.

(** The least and the greatest length of the strings that a pattern
    without star matches; [None] when it matches none. *)
Fixpoint lens (r : re) : option (nat * nat) :=
  match r with
  | Void => None
  | Eps => Some (0, 0)
  | Cls _ => Some (1, 1)
  | Cat r1 r2 =>
      match lens r1, lens r2 with
      | Some (a, b), Some (c, d) => Some (a + c, b + d)
      | _, _ => None
      end
  | Alt r1 r2 =>
      match lens r1, lens r2 with
      | Some (a, b), Some (c, d) => Some (Nat.min a c, Nat.max b d)
      | Some x, None => Some x
      | None, y => y
      end
  | Star _ => None
  end.

(** Every class of the pattern lies within [p]. *)
Fixpoint classes_in (p : ascii -> bool) (r : re) : Prop :=
  match r with
  | Cls q => forall c, q c = true -> p c = true
  | Cat r1 r2 | Alt r1 r2 => classes_in p r1 /\ classes_in p r2
  | Star r1 => classes_in p r1
  | _ => True
  end.

Lemma star_free_deriv (c : ascii) (r : re) :
  star_free r = true -> star_free (deriv c r) = true.
Proof.
  induction r as [| |q|r1 IH1 r2 IH2|r1 IH1 r2 IH2|r1 IH1]; cbn;
    try reflexivity; try discriminate.
  - intros _. now destruct (q c).
  - intros H. apply andb_true_iff in H. destruct H as [H1 H2].
    destruct (nullable r1); cbn; rewrite IH1, ?IH2, ?H2 by assumption;
      reflexivity.
  - intros H. apply andb_true_iff in H. destruct H as [H1 H2].
    now rewrite IH1, IH2.
Qed.

Lemma classes_in_deriv (p : ascii -> bool) (c : ascii) (r : re) :
  classes_in p r -> classes_in p (deriv c r).
Proof.
  induction r as [| |q|r1 IH1 r2 IH2|r1 IH1 r2 IH2|r1 IH1]; cbn; auto.
  - intros _. now destruct (q c).
  - intros [H1 H2]. destruct (nullable r1); cbn; auto.
  - intros [H1 H2]. auto.
Qed.

Lemma lens_nullable (r : re) :
  star_free r = true -> nullable r = true ->
  exists hi, lens r = Some (0, hi).
Proof.
  induction r as [| |q|r1 IH1 r2 IH2|r1 IH1 r2 IH2|r1 IH1]; cbn;
    try discriminate.
  - eauto.
  - intros Hs Hn. apply andb_true_iff in Hs, Hn.
    destruct Hs as [Hs1 Hs2], Hn as [Hn1 Hn2].
    destruct (IH1 Hs1 Hn1) as [h1 ->], (IH2 Hs2 Hn2) as [h2 ->]. eauto.
  - intros Hs Hn. apply andb_true_iff in Hs. destruct Hs as [Hs1 Hs2].
    apply orb_true_iff in Hn. destruct Hn as [Hn|Hn].
    + destruct (IH1 Hs1 Hn) as [h1 ->].
      destruct (lens r2) as [[c d]|]; eauto.
    + destruct (IH2 Hs2 Hn) as [h2 ->].
      destruct (lens r1) as [[a b]|]; [|eauto].
      rewrite Nat.min_0_r. eauto.
Qed.

(** One character less to match: the bounds of a derivative. *)
Lemma lens_deriv (c : ascii) (r : re) :
  star_free r = true ->
  forall lo' hi', lens (deriv c r) = Some (lo', hi') ->
  exists lo hi, lens r = Some (lo, hi) /\ lo <= S lo' /\ S hi' <= hi.
Proof.
  induction r as [| |q|r1 IH1 r2 IH2|r1 IH1 r2 IH2|r1 IH1]; cbn [deriv];
    intros Hs lo' hi' H; try discriminate.
  - destruct (q c); [|discriminate]. inversion H; subst.
    exists 1, 1. cbn. auto.
  - cbn [star_free] in Hs. apply andb_true_iff in Hs.
    destruct Hs as [Hs1 Hs2].
    specialize (IH1 Hs1). specialize (IH2 Hs2).
    destruct (nullable r1) eqn:Hn.
    + destruct (lens_nullable r1 Hs1 Hn) as [h1 Hr1].
      cbn [lens] in H |- *. rewrite Hr1.
      destruct (lens (deriv c r1)) as [[a' b']|] eqn:Hd1;
        destruct (lens (deriv c r2)) as [[c' d']|] eqn:Hd2;
        destruct (lens r2) as [[c0 d0]|] eqn:Hr2;
        try discriminate;
        try (destruct (IH1 _ _ eq_refl) as (a & b0 & Ha & ? & ?);
             rewrite Hr1 in Ha; inversion Ha; subst a b0);
        try (destruct (IH2 _ _ eq_refl) as (c1 & d1 & Hc & ? & ?);
             inversion Hc; subst c1 d1);
        inversion H; subst; do 2 eexists; (split; [reflexivity|]); lia.
    + cbn [lens] in H |- *.
      destruct (lens (deriv c r1)) as [[a' b']|] eqn:Hd1; [|discriminate].
      destruct (lens r2) as [[c0 d0]|] eqn:Hr2; [|discriminate].
      destruct (IH1 _ _ eq_refl) as (a & b0 & -> & ? & ?).
      inversion H; subst. do 2 eexists. split; [reflexivity|]. lia.
  - cbn [star_free] in Hs. apply andb_true_iff in Hs.
    destruct Hs as [Hs1 Hs2].
    specialize (IH1 Hs1). specialize (IH2 Hs2).
    cbn [lens] in H |- *.
    destruct (lens (deriv c r1)) as [[a' b']|] eqn:Hd1;
      destruct (lens (deriv c r2)) as [[c' d']|] eqn:Hd2;
      try discriminate;
      try (destruct (IH1 _ _ eq_refl) as (a & b0 & -> & ? & ?));
      try (destruct (IH2 _ _ eq_refl) as (c1 & d1 & Hc & ? & ?));
      inversion H; subst;
      try rewrite Hc;
      try (destruct (lens r1) as [[a b0]|]);
      try (destruct (lens r2) as [[c1 d1]|]);
      do 2 eexists; (split; [reflexivity|]); lia.
Qed.

(** A string that a pattern without star matches has a length within
    the bounds of the pattern. *)
Lemma full_lens (s : string) :
  forall r, star_free r = true -> full r s = true ->
  exists lo hi, lens r = Some (lo, hi)
                /\ lo <= String.length s <= hi.
Proof.
  induction s as [|c s IH]; intros r Hs H.
  - cbn in H. destruct (lens_nullable r Hs H) as [hi Hr].
    exists 0, hi. cbn. split; [exact Hr | lia].
  - cbn [full] in H.
    destruct (IH _ (star_free_deriv c r Hs) H) as (lo' & hi' & Hd & Hlen).
    destruct (lens_deriv c r Hs Hd) as (lo & hi & Hr & ? & ?).
    exists lo, hi. cbn [String.length]. split; [exact Hr | lia].
Qed.

Lemma deriv_class (p : ascii -> bool) (c : ascii) (r : re) :
  classes_in p r -> star_free r = true ->
  lens (deriv c r) <> None -> p c = true.
Proof.
  induction r as [| |q|r1 IH1 r2 IH2|r1 IH1 r2 IH2|r1 IH1]; cbn;
    intros Hc Hs H; try congruence.
  - destruct (q c) eqn:Hq; [now apply Hc | cbn in H; congruence].
  - apply andb_true_iff in Hs. destruct Hs as [Hs1 Hs2], Hc as [Hc1 Hc2].
    destruct (nullable r1); cbn in H.
    + destruct (lens (deriv c r1)) as [[a b]|] eqn:Hd1;
        [apply IH1; auto; congruence|].
      destruct (lens (deriv c r2)) as [[a b]|] eqn:Hd2;
        [apply IH2; auto; congruence | congruence].
    + destruct (lens (deriv c r1)) as [[a b]|] eqn:Hd1;
        [apply IH1; auto; congruence | congruence].
  - apply andb_true_iff in Hs. destruct Hs as [Hs1 Hs2], Hc as [Hc1 Hc2].
    destruct (lens (deriv c r1)) as [[a b]|] eqn:Hd1;
      [apply IH1; auto; congruence|].
    destruct (lens (deriv c r2)) as [[a b]|] eqn:Hd2;
      [apply IH2; auto; congruence | congruence].
Qed.

(** A string that a pattern without star matches is made of characters
    of its classes. *)
Lemma full_classes (p : ascii -> bool) (s : string) :
  forall r, classes_in p r -> star_free r = true -> full r s = true ->
  Forall (fun c => p c = true) (chars s).
Proof.
  induction s as [|c s IH]; intros r Hc Hs H; [constructor|].
  cbn [full] in H. cbn [chars list_ascii_of_string]. constructor.
  - apply (deriv_class p c r Hc Hs).
    destruct (full_lens s _ (star_free_deriv c r Hs) H) as (lo & hi & Hd & _).
    congruence.
  - apply (IH (deriv c r)); auto using classes_in_deriv, star_free_deriv.
Qed.

(** The characters of a phone: digits, plus, parentheses, hyphen, dot
    and white space. *)
Definition phone_char (c : ascii) : bool :=
  in_range "0" "9" c || one_of "+()" c || phone_sep c.

(** A phone that validation accepts has between 3 and 22 characters,
    all of them digits, plus, parentheses, hyphens, dots or white
    space. *)
Theorem phone_accepted_shape (ph : string) :
  full re_phone ph = true ->
  3 <= String.length ph <= 22
  /\ Forall (fun c => phone_char c = true) (chars ph).
Proof.
  intros H. split.
  - destruct (full_lens ph re_phone eq_refl H) as (lo & hi & Hl & Hlen).
    cbv in Hl. inversion Hl; subst. exact Hlen.
  - apply (full_classes phone_char ph re_phone); [|reflexivity | exact H].
    unfold phone_char, re_phone, re_digit, Opt, rep1. cbn.
    repeat split; intros c Hc; rewrite ?Hc, ?orb_true_r; try reflexivity;
      destruct c as [[] [] [] [] [] [] [] []]; try discriminate; reflexivity.
Qed.

(* ================================================================== *)
(** ** Values that validation accepts and the columns refuse *)

(** The last character of [s] satisfies [p]. *)
Fixpoint ends_in (p : ascii -> bool) (s : string) : bool :=
  match s with
  | EmptyString => false
  | String c t =>
      match t with
      | EmptyString => p c
      | String _ _ => ends_in p t
      end
  end.

(** Every string that the pattern matches and that is not empty ends
    in a character of [p]. *)
Fixpoint last_class (p : ascii -> bool) (r : re) : Prop :=
  match r with
  | Cls q => forall c, q c = true -> p c = true
  | Cat r1 r2 =>
      last_class p r2 /\ (nullable r2 = true -> last_class p r1)
  | Alt r1 r2 => last_class p r1 /\ last_class p r2
  | Star r1 => last_class p r1
  | _ => True
  end.

Lemma last_class_deriv (p : ascii -> bool) (c : ascii) (r : re) :
  last_class p r -> last_class p (deriv c r).
Proof.
  induction r as [| |q|r1 IH1 r2 IH2|r1 IH1 r2 IH2|r1 IH1]; cbn; auto.
  - intros _. now destruct (q c).
  - intros [H2 H1]. destruct (nullable r1); cbn; auto.
  - intros [H1 H2]. auto.
Qed.

Lemma last_class_nullable (p : ascii -> bool) (c : ascii) (r : re) :
  last_class p r -> nullable (deriv c r) = true -> p c = true.
Proof.
  induction r as [| |q|r1 IH1 r2 IH2|r1 IH1 r2 IH2|r1 IH1]; cbn;
    try discriminate.
  - intros H. destruct (q c) eqn:Hq; [auto | discriminate].
  - intros [H2 H1]. destruct (nullable r1); cbn; intros Hn.
    + apply orb_true_iff in Hn. destruct Hn as [Hn|Hn]; [|auto].
      apply andb_true_iff in Hn. destruct Hn as [Hn1 Hn2]. auto.
    + apply andb_true_iff in Hn. destruct Hn as [Hn1 Hn2]. auto.
  - intros [H1 H2] Hn. apply orb_true_iff in Hn. destruct Hn; auto.
  - intros H Hn. apply andb_true_iff in Hn. destruct Hn as [Hn _]. auto.
Qed.

Lemma full_ends_in (p : ascii -> bool) (s : string) :
  forall r, last_class p r -> full r s = true -> s <> EmptyString ->
  ends_in p s = true.
Proof.
  induction s as [|c s IH]; intros r Hr H Hne; [congruence|].
  cbn [full] in H. cbn [ends_in]. destruct s as [|d s].
  - cbn [full] in H. now apply (@last_class_nullable p c r).
  - apply (IH (deriv c r)); [now apply last_class_deriv | exact H|].
    discriminate.
Qed.

(** A phone that the pattern accepts ends in a digit. *)
Lemma phone_ends_in_digit (ph : string) :
  full re_phone ph = true -> ends_in (in_range "0" "9") ph = true.
Proof.
  intros H. apply (@full_ends_in (in_range "0" "9") ph re_phone).
  - cbn. repeat split; intros; try discriminate; assumption.
  - exact H.
  - intros ->. discriminate.
Qed.

(** A trimmed string that is not empty ends in a character that is not
    white space. *)
Lemma rtrim_ends (s : string) :
  rtrim s <> EmptyString ->
  ends_in (fun c => negb (is_space c)) (rtrim s) = true.
Proof.
  induction s as [|c s IH]; [intros H; now elim H|].
  cbn [rtrim]. destruct (rtrim s) as [|d u].
  - destruct (is_space c) eqn:Hc; [intros H; now elim H|].
    intros _. cbn [ends_in]. now rewrite Hc.
  - intros _. cbn [ends_in]. apply IH. discriminate.
Qed.

Lemma ends_in_drop (p : ascii -> bool) (n : nat) (s : string) :
  ends_in p s = true -> n < String.length s -> ends_in p (drop n s) = true.
Proof.
  revert s. induction n as [|n IH]; intros s H Hn.
  - destruct s; exact H.
  - destruct s as [|c s]; [cbn in Hn; lia|].
    cbn [drop]. cbn [String.length] in Hn. apply IH; [|lia].
    cbn [ends_in] in H. destruct s as [|d s]; [cbn in Hn; lia | exact H].
Qed.

Lemma ends_in_not_spaces (p : ascii -> bool) (s : string) :
  (forall c, p c = true -> Ascii.eqb " " c = false) ->
  ends_in p s = true -> only_spaces s = false.
Proof.
  intros Hp. unfold only_spaces.
  induction s as [|c s IH]; [discriminate|].
  cbn [ends_in chars list_ascii_of_string forallb]. destruct s as [|d s].
  - intros H. now rewrite (Hp c H).
  - intros H. unfold chars in IH. rewrite (IH H). apply andb_false_r.
Qed.

(** In strict mode a column refuses a text that is longer than the
    column and ends in a character other than the space. *)
Lemma varchar_refuses (p : ascii -> bool) (n : nat) (s : string) :
  sql_strict = true ->
  (forall c, p c = true -> Ascii.eqb " " c = false) ->
  ends_in p s = true -> n < String.length s -> varchar n s = None.
Proof.
  intros Hstrict Hp He Hn. unfold varchar.
  rewrite (proj2 (Nat.leb_gt _ _) Hn), Hstrict.
  now rewrite (@ends_in_not_spaces p (drop n s) Hp
                 (@ends_in_drop p n s He Hn)).
Qed.

Lemma stored_refuses (b : Body) (ph : string) (method : Method) :
  sql_strict = true -> valid method b -> Req.phone b = Some ph ->
  100 < String.length (trim (toString (Req.name b)))
  \/ 20 < String.length ph ->
  stored b = None.
Proof.
  intros Hstrict Hv Hph Hlong. unfold stored, columns.
  destruct Hlong as [Hn|Hp].
  - rewrite (@varchar_refuses (fun c => negb (is_space c)) 100
               (trim (toString (Req.name b))) Hstrict); [reflexivity| | |exact Hn].
    + intros c Hc. destruct (Ascii.eqb_spec " " c) as [<-|]; [|reflexivity].
      discriminate.
    + unfold trim in *. apply rtrim_ends. intros E. rewrite E in Hn.
      cbn in Hn. lia.
  - destruct (valid_inv Hv) as (_ & _ & _ & _ & Hphone & _).
    specialize (Hphone ph Hph).
    rewrite Hph. unfold varchar_null.
    rewrite (@varchar_refuses (in_range "0" "9") 20 ph Hstrict);
      [| |now apply phone_ends_in_digit|exact Hp].
    + destruct (varchar 100 (trim (toString (Req.name b))));
        [destruct (varchar 100 (toString (Req.email b)))|]; reflexivity.
    + intros c Hc. destruct (Ascii.eqb_spec " " c) as [<-|]; [|reflexivity].
      discriminate.
Qed.

(** Validation puts no upper bound on the name, and its phone pattern
    accepts up to 22 characters, but the columns take 100 and 20.  In
    strict SQL mode a create or an update whose payload passes
    validation and reaches the statement with a trimmed name of more
    than 100 characters, or with a phone of more than 20, is answered
    500 and changes nothing. *)
Theorem strict_mode_refuses_long_values (salt : string) (i : positive)
  (b : Body) (t : Table) (ph : string) :
  sql_strict = true ->
  Req.phone b = Some ph ->
  100 < String.length (trim (toString (Req.name b)))
  \/ 20 < String.length ph ->
  (valid POST b ->
   existsb (email_is (toString (Req.email b))) (rows t) = false ->
   post_user salt b t = (server_error, t))
  /\ (valid PUT b ->
      existsb (id_is i) (rows t) = true ->
      owned_by_other (toString (Req.email b)) i t = false ->
      put_user salt i b t = (server_error, t)).
Proof.
  intros Hstrict Hph Hlong. split.
  - intros Hv Hfree.
    rewrite (post_user_cases salt t Hv), Hfree, Hph.
    now rewrite (@stored_refuses b ph POST Hstrict Hv Hph Hlong).
  - intros Hv Hex Hother.
    rewrite (put_user_cases salt i t Hv), Hex, Hother, Hph. cbn [negb].
    now rewrite (@stored_refuses b ph PUT Hstrict Hv Hph Hlong).
Qed.

(* ================================================================== *)
(** ** The handlers of the form (Registration.jsx) *)

(** The inputs of the form that [handleChange] serves, by their [name]
    attribute. *)
Inductive Input : Type := InName | InEmail | InPassword | InPhone | InRole.

(** A user as the list view holds it: an element of the array that
    GET /api/users answers with, whose phone may be null. *)
Record ListedUser : Type := mkListedUser {
  user_id : positive;
  user_name : string;
  user_email : string;
  user_phone : option string;
  user_role : string;
  user_skills : option (list string)
}.

Definition setFormData (fd : Client.FormData) (st : Client.AppState)
  : Client.AppState :=
  Client.mkAppState fd (Client.passwordValidation st) (Client.editingId st)
                    (Client.isLoading st).

Definition setEditingId (i : option positive) (st : Client.AppState)
  : Client.AppState :=
  Client.mkAppState (Client.formData st) (Client.passwordValidation st) i
                    (Client.isLoading st).

Definition setIsLoading (l : bool) (st : Client.AppState) : Client.AppState :=
  Client.mkAppState (Client.formData st) (Client.passwordValidation st)
                    (Client.editingId st) l.

(** The form that a successful submit and a cancel put back. *)
Definition emptyForm : Client.FormData :=
  Client.mkFormData "" "" "" "" "user" [].

Definition handleChange (input : Input) (value : string)
  (st : Client.AppState) : Client.AppState :=
  let prev := Client.formData st in
  setFormData
    (match input with
     | InName =>
         Client.mkFormData value (Client.email prev) (Client.password prev)
           (Client.phone prev) (Client.role prev) (Client.skills prev)
     | InEmail =>
         Client.mkFormData (Client.name prev) value (Client.password prev)
           (Client.phone prev) (Client.role prev) (Client.skills prev)
     | InPassword =>
         Client.mkFormData (Client.name prev) (Client.email prev) value
           (Client.phone prev) (Client.role prev) (Client.skills prev)
     | InPhone =>
         Client.mkFormData (Client.name prev) (Client.email prev)
           (Client.password prev) value (Client.role prev)
           (Client.skills prev)
     | InRole =>
         Client.mkFormData (Client.name prev) (Client.email prev)
           (Client.password prev) (Client.phone prev) value
           (Client.skills prev)
     end)
    st.

(** [skills.includes(skill)] *)
Definition includes (skill : string) (skills : list string) : bool :=
  existsb (String.eqb skill) skills.

Definition handleSkillChange (skill : string) (st : Client.AppState)
  : Client.AppState :=
  let prev := Client.formData st in
  let updatedSkills :=
    if includes skill (Client.skills prev)
    then filter (fun s => negb (String.eqb s skill)) (Client.skills prev)
    else Client.skills prev ++ [skill] in
  setFormData
    (Client.mkFormData (Client.name prev) (Client.email prev)
       (Client.password prev) (Client.phone prev) (Client.role prev)
       updatedSkills)
    st.

Definition handleEdit (user : ListedUser) (st : Client.AppState)
  : Client.AppState :=
  setEditingId (Some (user_id user))
    (setFormData
       (Client.mkFormData (user_name user) (user_email user) ""
          (if truthy (user_phone user) then toString (user_phone user)
           else "")
          (user_role user)
          (match user_skills user with
           | Some l => l
           | None => []
           end))
       st).

Definition cancelEdit (st : Client.AppState) : Client.AppState :=
  setFormData emptyForm (setEditingId None st).

(** The JSON body that axios sends for the form. *)
Definition body_of_form (fd : Client.FormData) : Body :=
  mkBody (Some (Client.name fd)) (Some (Client.email fd))
         (Some (Client.password fd)) (Some (Client.phone fd))
         (Some (Client.role fd))
         (Some (JArr (map JStr (Client.skills fd)))).

(** The test at the head of [handleSubmit] that ends it with the toast
    about the security requirements. *)
Definition submitBlocked (st : Client.AppState) : bool :=
  (negb (Client.id_truthy (Client.editingId st))
   || truthy (Some (Client.password (Client.formData st))))
  && negb (Client.isPasswordValid st).

(** The request that [handleSubmit] sends, if it sends one. *)
Definition handleSubmit_call (st : Client.AppState) : option Call :=
  if submitBlocked st then None
  else
    Some (match Client.editingId st with
          | Some i => PutUser i (body_of_form (Client.formData st))
          | None => PostUser (body_of_form (Client.formData st))
          end).

(** The [disabled] attribute of the submit button. *)
Definition submitDisabled (st : Client.AppState) : bool :=
  Client.isLoading st
  || (if Client.id_truthy (Client.editingId st)
      then truthy (Some (Client.password (Client.formData st)))
           && negb (Client.isPasswordValid st)
      else negb (Client.isPasswordValid st)).

(** axios resolves on a status from 200 to 299 and rejects otherwise. *)
Definition axios_resolves (r : Response) : bool :=
  (200 <=? status r) && (status r <? 300).

(** The message of the error toast of [handleSubmit]; [None] is an
    error without a response. *)
Definition errorMessage (response : option Response) : string :=
  let first_msg :=
    match response with
    | Some r =>
        match body r with
        | Errors (e :: _) => Some (msg e)
        | _ => None
        end
    | None => None
    end in
  let message :=
    match response with
    | Some r =>
        match body r with
        | Message m => Some m
        | _ => None
        end
    | None => None
    end in
  if truthy first_msg then toString first_msg
  else if truthy message then toString message
  else "Operation failed".

(** [handleSubmit] once the request has settled: the form is put back
    and the edit ended on success, the draft is kept on failure, and
    the busy flag is lowered in both cases. *)
Definition handleSubmit_settled (result : option Response)
  (st : Client.AppState) : Client.AppState :=
  match result with
  | Some r =>
      if axios_resolves r
      then setIsLoading false (setEditingId None (setFormData emptyForm st))
      else setIsLoading false st
  | None => setIsLoading false st
  end.

(** What happens to the form. *)
Inductive Event : Type :=
| Change (input : Input) (value : string) : Event
| ToggleSkill (skill : string) : Event
| Edit (user : ListedUser) : Event
| Cancel : Event
| Submit : Event
| Settled (result : option Response) : Event.

Definition handler (ev : Event) (st : Client.AppState) : Client.AppState :=
  match ev with
  | Change input value => handleChange input value st
  | ToggleSkill skill => handleSkillChange skill st
  | Edit user => handleEdit user st
  | Cancel => cancelEdit st
  | Submit => if submitBlocked st then st else setIsLoading true st
  | Settled result => handleSubmit_settled result st
  end.

(** A handler, then the effect on [formData.password], which runs when
    the password is not the one of the render before. *)
Definition dispatch (ev : Event) (st : Client.AppState) : Client.AppState :=
  let st' := handler ev st in
  if String.eqb (Client.password (Client.formData st))
                (Client.password (Client.formData st'))
  then st'
  else Client.passwordEffect st'.

(** The state after the first render and its effects. *)
Definition mounted : Client.AppState :=
  Client.passwordEffect Client.initialState.

(** The five flags describe the password of the form. *)
Definition synced (st : Client.AppState) : Prop :=
  Client.passwordEffect st = st.

Lemma passwordEffect_synced (st : Client.AppState) :
  synced (Client.passwordEffect st).
Proof. reflexivity. Qed.

Lemma handler_flags (ev : Event) (st : Client.AppState) :
  Client.passwordValidation (handler ev st) = Client.passwordValidation st.
Proof.
  destruct ev as [input value|skill|user| | |result]; cbn [handler];
    try reflexivity.
  - destruct (submitBlocked st); reflexivity.
  - unfold handleSubmit_settled.
    destruct result as [r|]; [destruct (axios_resolves r)|]; reflexivity.
Qed.

(** From the first render on, whatever the user does, the five flags on
    display are those of the password in the form: the state in which
    isPasswordValid is read is one in which the effect has run. *)
Theorem flags_follow_password (ev : Event) (st : Client.AppState) :
  synced mounted /\ (synced st -> synced (dispatch ev st)).
Proof.
  split; [reflexivity|]. intros Hs. unfold dispatch.
  destruct (String.eqb_spec (Client.password (Client.formData st))
              (Client.password (Client.formData (handler ev st))))
    as [Heq|_]; [|apply passwordEffect_synced].
  unfold synced, Client.passwordEffect, Client.validatePassword,
    Client.setPasswordValidation in *.
  cbn [Client.formData Client.editingId Client.isLoading].
  pose proof (handler_flags ev st) as Hf.
  destruct (handler ev st) as [fd pv i l].
  cbn [Client.formData Client.editingId Client.isLoading
       Client.passwordValidation] in *.
  subst pv. rewrite <- Heq.
  inversion Hs as [Hpv]. rewrite <- Hpv at 2. reflexivity.
Qed.

(* ================================================================== *)
(** ** What the form sends *)

Lemma synced_valid (st : Client.AppState) :
  synced st ->
  Client.isPasswordValid st = true ->
  (Client.editingId st <> None
   /\ Client.password (Client.formData st) = "")
  \/ spec_policy (Client.password (Client.formData st)).
Proof.
  intros Hs Hv. rewrite <- Hs in Hv.
  destruct (isPasswordValid_spec st) as [_ Hspec]. cbv zeta in Hspec.
  destruct (Client.editingId st) as [i|] eqn:Hid.
  - destruct (String.eqb_spec (Client.password (Client.formData st)) "")
      as [Hpw|Hpw].
    + left. split; [discriminate | exact Hpw].
    + right. apply Hspec; [|exact Hv]. intros [_ H]. contradiction.
  - right. apply Hspec; [|exact Hv]. intros [H _]. now apply H.
Qed.

(** The button is disabled exactly when a request is in flight or
    [handleSubmit] would end with its toast; and once the flags are
    those of the password, every request that [handleSubmit] sends
    carries the form as its body and a password that satisfies the five
    rules of the form (a length of eight or more, an upper-case letter,
    a lower-case letter, a digit, a special character): a create always,
    an update unless its password is empty. *)
Theorem form_sends_no_weak_password (st : Client.AppState) :
  submitDisabled st = Client.isLoading st || submitBlocked st
  /\ (synced st ->
      forall c, handleSubmit_call st = Some c ->
        (Client.editingId st = None
         /\ c = PostUser (body_of_form (Client.formData st))
         /\ spec_policy (Client.password (Client.formData st)))
        \/ (exists i,
              Client.editingId st = Some i
              /\ c = PutUser i (body_of_form (Client.formData st))
              /\ (Client.password (Client.formData st) = ""
                  \/ spec_policy (Client.password (Client.formData st))))).
Proof.
  split.
  - unfold submitDisabled, submitBlocked.
    destruct (Client.editingId st); reflexivity.
  - intros Hs c Hc. unfold handleSubmit_call in Hc.
    destruct (submitBlocked st) eqn:Hb; [discriminate|].
    inversion Hc; subst c. clear Hc. unfold submitBlocked in Hb.
    destruct (Client.editingId st) as [i|] eqn:Hid; cbn [Client.id_truthy
      negb orb] in Hb.
    + right. exists i. split; [reflexivity|]. split; [reflexivity|].
      destruct (truthy (Some (Client.password (Client.formData st))))
        eqn:Ht.
      * cbn [negb orb andb] in *. apply negb_false_iff in Hb.
        destruct (synced_valid Hs Hb) as [[_ Hpw]|Hpw];
          [now left | now right].
      * left. cbn [truthy] in Ht. apply negb_false_iff in Ht.
        now apply String.eqb_eq in Ht.
    + left. split; [reflexivity|]. split; [reflexivity|].
      cbn [andb] in Hb. apply negb_false_iff in Hb.
      destruct (synced_valid Hs Hb) as [[Hne _]|Hpw]; [congruence|].
      exact Hpw.
Qed.

(** A text that the toast can show as it is, and that is not the
    fallback. *)
Definition shown (m : string) : Prop := m <> "" /\ m <> "Operation failed".

Lemma check_msgs (ok : bool) (field message : string) :
  shown message ->
  Forall (fun e => shown (msg e)) (check ok field message).
Proof.
  intros H. destruct ok; repeat constructor; apply H.
Qed.

Lemma validateUser_msgs (method : Method) (b : Body) :
  Forall (fun e => shown (msg e)) (fst (validateUser method b)).
Proof.
  unfold validateUser. cbn [fst].
  repeat (apply Forall_app; split);
    try (apply check_msgs; split; discriminate).
  - unfold password_custom. destruct (password_skipped _ _); [constructor|].
    unfold passwordValidation.
    repeat (apply Forall_app; split); apply check_msgs; split; discriminate.
  - destruct (Req.phone b);
      [apply check_msgs; split; discriminate | constructor].
Qed.

Lemma errorMessage_errors (s : nat) (e : ValidationError)
  (rest : list ValidationError) :
  msg e <> "" ->
  errorMessage (Some (mkResponse s (Errors (e :: rest)))) = msg e.
Proof.
  intros H. unfold errorMessage. cbn [body truthy toString].
  apply String.eqb_neq in H. now rewrite H.
Qed.

(** Whenever the server turns down a request that [handleSubmit] sent,
    the error toast of the form shows what the server said: the message
    of the first violation, or the message of the answer; the fallback
    text Operation failed is left for errors without a response. *)
Theorem rejection_toast (salt : string) (st : Client.AppState) (c : Call)
  (t : Table) :
  handleSubmit_call st = Some c ->
  axios_resolves (fst (route salt c t)) = false ->
  errorMessage (Some (fst (route salt c t))) <> "Operation failed"
  /\ ((exists e rest,
         body (fst (route salt c t)) = Errors (e :: rest)
         /\ errorMessage (Some (fst (route salt c t))) = msg e)
      \/ (exists m,
            body (fst (route salt c t)) = Message m
            /\ errorMessage (Some (fst (route salt c t))) = m)).
Proof.
  assert (Herrors :
            forall s method b,
              fst (validateUser method b) <> [] ->
              let r := mkResponse s (Errors (fst (validateUser method b))) in
              errorMessage (Some r) <> "Operation failed"
              /\ ((exists e rest,
                     body r = Errors (e :: rest)
                     /\ errorMessage (Some r) = msg e)
                  \/ (exists m, body r = Message m
                                /\ errorMessage (Some r) = m))).
  { intros s method b Hne. cbv zeta.
    pose proof (validateUser_msgs method b) as Hmsgs.
    destruct (fst (validateUser method b)) as [|e rest]; [congruence|].
    inversion Hmsgs as [|x l [Hm Hf] _]; subst.
    rewrite (@errorMessage_errors s e rest Hm). split; [exact Hf|].
    left. exists e, rest. split; reflexivity. }
  intros _ Hrej.
  assert (Hmessage :
            forall s m, m <> "" -> m <> "Operation failed" ->
              let r := mkResponse s (Message m) in
              errorMessage (Some r) <> "Operation failed"
              /\ ((exists e rest,
                     body r = Errors (e :: rest)
                     /\ errorMessage (Some r) = msg e)
                  \/ (exists m', body r = Message m'
                                 /\ errorMessage (Some r) = m'))).
  { intros s m Hm Hf. cbv zeta.
    assert (He : errorMessage (Some (mkResponse s (Message m))) = m).
    { unfold errorMessage. cbn [body truthy toString negb].
      apply String.eqb_neq in Hm. now rewrite Hm. }
    rewrite He. split; [exact Hf|]. right. exists m. split; reflexivity. }
  destruct c as [| |i|b|i b|i]; cbn [route] in *.
  - discriminate.
  - rewrite get_users_cases in *.
    destruct (decode_all (rows t)) as [rs|];
      [|apply Hmessage; discriminate].
    destruct (fst (map_m with_parsed_skills rs t)); [discriminate|].
    apply Hmessage; discriminate.
  - rewrite get_user_cases in *.
    destruct (decode_all (filter (id_is i) (rows t))) as [[|row0 rest]|];
      try (apply Hmessage; discriminate).
    destruct (parse_or_empty _); [discriminate|].
    apply Hmessage; discriminate.
  - destruct (validation_dec POST b) as [Hv|Hv].
    { rewrite (post_user_cases salt t Hv) in *.
      destruct (existsb _ (rows t)); [apply Hmessage; discriminate|].
      destruct (Req.phone b); [|apply Hmessage; discriminate].
      destruct (stored b) as [c|]; [|apply Hmessage; discriminate].
      destruct (existsb _ (rows t)); [apply Hmessage; discriminate|].
      discriminate. }
    rewrite post_user_invalid in * by assumption. now apply Herrors.
  - destruct (validation_dec PUT b) as [Hv|Hv].
    { rewrite (put_user_cases salt i t Hv) in *.
      destruct (negb _); [apply Hmessage; discriminate|].
      destruct (owned_by_other _ i t); [apply Hmessage; discriminate|].
      destruct (Req.phone b); [|apply Hmessage; discriminate].
      destruct (stored b) as [c|]; [|apply Hmessage; discriminate].
      destruct (owned_by_other _ i t); [apply Hmessage; discriminate|].
      discriminate. }
    rewrite put_user_invalid in * by assumption. now apply Herrors.
  - rewrite delete_user_cases in *.
    destruct (existsb (id_is i) (rows t)); [discriminate|].
    apply Hmessage; discriminate.
Qed.

(* ================================================================== *)
(** ** The skills check boxes *)

Lemma includes_spec (skill : string) (skills : list string) :
  includes skill skills = true <-> In skill skills.
Proof.
  unfold includes. rewrite existsb_exists. split.
  - intros [s [Hin Heq]]. apply String.eqb_eq in Heq. now subst.
  - intros Hin. exists skill. split; [exact Hin | apply String.eqb_refl].
Qed.

(** A click on a check box flips the skill and no other: the skill is
    in the form afterwards exactly when it was not before, every other
    skill is in the form exactly when it was before, a list without
    repetition stays without repetition, and the rest of the form is
    untouched. *)
Theorem handleSkillChange_toggles (skill : string) (st : Client.AppState) :
  let before := Client.skills (Client.formData st) in
  let after := Client.skills (Client.formData (handleSkillChange skill st)) in
  (In skill after <-> ~ In skill before)
  /\ (forall s, s <> skill -> (In s after <-> In s before))
  /\ (NoDup before -> NoDup after)
  /\ handleSkillChange skill st
     = setFormData
         (Client.mkFormData (Client.name (Client.formData st))
            (Client.email (Client.formData st))
            (Client.password (Client.formData st))
            (Client.phone (Client.formData st))
            (Client.role (Client.formData st)) after)
         st.
Proof.
  cbv zeta. unfold handleSkillChange.
  cbn [setFormData Client.formData Client.skills].
  destruct (includes skill (Client.skills (Client.formData st))) eqn:Hinc.
  - apply includes_spec in Hinc. split; [|split; [|split]].
    + split; [|intros Hnot; contradiction].
      intros Hin. apply filter_In in Hin. destruct Hin as [_ Hin].
      rewrite String.eqb_refl in Hin. discriminate.
    + intros s Hs. rewrite filter_In, negb_true_iff, String.eqb_neq.
      split; [intros [Hin _]; exact Hin | intros Hin; split; assumption].
    + apply NoDup_filter.
    + reflexivity.
  - assert (Hnot : ~ In skill (Client.skills (Client.formData st))).
    { intros Hin. apply includes_spec in Hin. rewrite Hin in Hinc.
      discriminate. }
    split; [|split; [|split]].
    + split; [intros _; exact Hnot|].
      intros _. apply in_app_iff. right. now left.
    + intros s Hs. split; [|intros Hin; apply in_app_iff; now left].
      intros Hin. apply in_app_iff in Hin.
      destruct Hin as [Hin|[Heq|[]]]; [exact Hin|].
      symmetry in Heq. contradiction.
    + intros Hnd. apply NoDup_app_remove_l with (l := []). cbn [app].
      apply NoDup_Add with (a := skill)
                           (l := Client.skills (Client.formData st)).
      * rewrite <- (app_nil_r (Client.skills (Client.formData st))) at 1.
        apply Add_app.
      * split; assumption.
    + reflexivity.
Qed.

(* ================================================================== *)
(** ** Edit, then save *)






(* ================================================================== *)
(** ** The phone field of the form *)

Lemma phone_error_reported (method : Method) (b : Body) (p : string) :
  Req.phone b = Some p -> full re_phone p = false ->
  In (mkError "phone" "Invalid phone number format")
     (fst (validateUser method b)).
Proof.
  intros Hp Hf. unfold validateUser. cbn [fst]. rewrite Hp, Hf.
  do 4 (apply in_or_app; right).
  apply in_or_app. left. now left.
Qed.

(** The form always sends the phone key, so a phone field left blank, or
    with fewer than three characters, reaches the server as a string
    that the pattern turns down: every such submit, create or update,
    is answered 400 with the phone violation in the list, and nothing is
    stored. *)
Theorem form_phone_is_mandatory (salt : string) (st : Client.AppState)
  (t : Table) (c : Call) :
  handleSubmit_call st = Some c ->
  String.length (Client.phone (Client.formData st)) < 3 ->
  exists errs,
    route salt c t = (mkResponse 400 (Errors errs), t)
    /\ In (mkError "phone" "Invalid phone number format") errs.
Proof.
  intros Hc Hlen.
  assert (Hf : full re_phone (Client.phone (Client.formData st)) = false).
  { destruct (full re_phone (Client.phone (Client.formData st))) eqn:Hf;
      [|reflexivity].
    apply phone_accepted_shape in Hf. lia. }
  unfold handleSubmit_call in Hc.
  destruct (submitBlocked st); [discriminate|].
  inversion Hc; subst c. clear Hc.
  destruct (Client.editingId st) as [i|]; cbn [route];
    match goal with
    | |- context [put_user _ _ ?b _] =>
        pose proof (@phone_error_reported PUT b _ eq_refl Hf) as Hin;
        exists (fst (validateUser PUT b));
        rewrite put_user_invalid;
        [split; [reflexivity | exact Hin]
        | intros Hnil; rewrite Hnil in Hin; destruct Hin]
    | |- context [post_user _ ?b _] =>
        pose proof (@phone_error_reported POST b _ eq_refl Hf) as Hin;
        exists (fst (validateUser POST b));
        rewrite post_user_invalid;
        [split; [reflexivity | exact Hin]
        | intros Hnil; rewrite Hnil in Hin; destruct Hin]
    end.
Qed.

End Service.


(* ================================================================== *)
(** ** Concrete requests

    One instance of the four parameters and a few requests on small
    tables, on which the statements above are exercised. *)

Section Concrete.
Import Js Json Req Db Res.

(** An instance of the remaining address checks that accepts every
    address with an at sign. *)
Definition sample_email_parts_ok (s : string) : bool := true.

(** An instance of the digest: 31 characters that do not depend on the
    input. *)
Definition sample_digest (password salt : string) : string :=
  "0123456789012345678901234567890".

(** A binary collation. *)
Definition sample_collation (a b : string) : bool := String.eqb a b.

(** The strict SQL mode. *)
Definition sample_strict : bool := true.

Definition salt_a : string := "$2a$12$aaaaaaaaaaaaaaaaaaaaaa".
Definition salt_b : string := "$2a$12$bbbbbbbbbbbbbbbbbbbbbb".

Definition post_sample : string -> Body -> Table -> Response * Table :=
  post_user sample_email_parts_ok sample_digest sample_collation
            sample_strict.

Definition put_sample
  : string -> positive -> Body -> Table -> Response * Table :=
  put_user sample_email_parts_ok sample_digest sample_collation
           sample_strict.

Definition body_ann : Body :=
  mkBody (Some "Ann Lee") (Some "ann@example.com") (Some "Abcdef1!")
         (Some "5551234567") (Some "user") (Some react_aws).

Definition body_bob : Body :=
  mkBody (Some "Bob Ray") (Some "bob@example.com") (Some "Zyxwvu9?")
         (Some "+1 555 7654321") (Some "admin") (Some (JArr [])).

(** The table after Ann, then Bob, registered: ids 1 and 2. *)
Definition table_ann : Table := snd (post_sample salt_a body_ann Db.empty).
Definition table_ann_bob : Table := snd (post_sample salt_b body_bob table_ann).

(** Ann without the phone key. *)
Definition body_ann_no_phone : Body :=
  mkBody (Some "Ann Lee") (Some "ann@example.com") (Some "Abcdef1!")
         None (Some "user") (Some react_aws).

(** An update of Ann: padded name, new role, empty password. *)
Definition body_ann_edit : Body :=
  mkBody (Some "  Ann Lee-Ray ") (Some "ann@example.com") (Some "")
         (Some "5551234567") (Some "developer") (Some (JArr [JStr "AWS"])).

(** An update of Ann that asks for the email of Bob, empty password. *)
Definition body_ann_takes_bob : Body :=
  mkBody (Some "Ann Lee") (Some "bob@example.com") (Some "")
         (Some "5551234567") (Some "user") (Some react_aws).

(** An update of Ann with a new password. *)
Definition body_ann_new_password : Body :=
  mkBody (Some "Ann Lee") (Some "ann@example.com") (Some "Qwerty7&")
         (Some "5551234567") (Some "user") (Some react_aws).

(** A payload whose name has one character. *)
Definition body_short_name : Body :=
  mkBody (Some "J") (Some "j@example.com") (Some "Abcdef1!")
         (Some "5551234567") (Some "user") (Some (JArr [])).

(** A payload whose skills are an array that holds null. *)
Definition body_null_skill : Body :=
  mkBody (Some "Cy Doe") (Some "cy@example.com") (Some "Abcdef1!")
         (Some "5551234567") (Some "user") (Some (JArr [JNull])).

(** A payload whose phone has the 22 characters that the pattern
    allows, two more than the column. *)
Definition body_long_phone : Body :=
  mkBody (Some "Dee Fox") (Some "dee@example.com") (Some "")
         (Some "+(1234)-1234-123456789") (Some "user") (Some (JArr [])).

(** A payload whose only skill is the text of an empty array. *)
Definition body_odd_skill : Body :=
  mkBody (Some "Eve Orr") (Some "eve@example.com") (Some "Abcdef1!")
         (Some "5551234567") (Some "user") (Some (JArr [JStr "[]"])).

Lemma sample_collation_refl (s : string) : sample_collation s s = true.
Proof. apply String.eqb_refl. Qed.

Lemma sample_collation_sym (a b : string) :
  sample_collation a b = sample_collation b a.
Proof. apply String.eqb_sym. Qed.

Example table_ann_rows :
  map Db.id (rows table_ann_bob) = [1%positive; 2%positive]
  /\ map Db.email (rows table_ann_bob) = ["ann@example.com"; "bob@example.com"]
  /\ map Db.phone (rows table_ann_bob)
     = [Some "5551234567"; Some "+1 555 7654321"]
  /\ map Db.skills (rows table_ann_bob)
     = [Some (stringify react_aws); Some "[]"]
  /\ auto_increment table_ann_bob = 3%positive.
Proof. repeat split. Qed.

Example table_ann_bob_consistent : consistent sample_collation table_ann_bob.
Proof.
  unfold table_ann_bob, table_ann, post_sample.
  do 2 apply (@post_user_consistent sample_email_parts_ok sample_digest
                sample_collation sample_strict sample_collation_sym).
  apply consistent_empty.
Qed.

Example phone_pattern_examples :
  Regex.full re_phone "5551234567" = true
  /\ Regex.full re_phone "+1 555 7654321" = true
  /\ Regex.full re_phone "+(44)-20.71234567" = true
  /\ Regex.full re_phone "" = false
  /\ Regex.full re_phone "12" = false
  /\ Regex.full re_phone "555-CALL-NOW" = false.
Proof. repeat split. Qed.

Example password_feedback_examples :
  Client.isPasswordValid (Client.changePassword "Abcdef1!" Client.initialState)
  = true
  /\ Client.isPasswordValid
       (Client.changePassword "abcdef1!" Client.initialState) = false
  /\ Client.isPasswordValid
       (Client.changePassword "Abcdefg!" Client.initialState) = false
  /\ Client.isPasswordValid (Client.passwordEffect Client.initialState)
     = false
  /\ Client.isPasswordValid
       (Client.passwordEffect
          (Client.mkAppState (Client.formData Client.initialState)
             (Client.passwordValidation Client.initialState)
             (Some 1%positive) false)) = true.
Proof. repeat split. Qed.

Example validation_examples :
  map msg (fst (validateUser sample_email_parts_ok PUT body_ann_edit)) = []
  /\ map msg (fst (validateUser sample_email_parts_ok POST body_ann_edit))
     = ["Password must be at least 8 characters";
        "Password must contain at least one uppercase letter";
        "Password must contain at least one lowercase letter";
        "Password must contain at least one number";
        "Password must contain at least one special character"]
  /\ map msg (fst (validateUser sample_email_parts_ok POST
                     (mkBody None None None (Some "") None None)))
     = ["Name must be at least 2 characters"; "Invalid email address";
        "Password must be at least 8 characters";
        "Password must contain at least one uppercase letter";
        "Password must contain at least one lowercase letter";
        "Password must contain at least one number";
        "Password must contain at least one special character";
        "Invalid role"; "Invalid phone number format";
        "Skills must be an array"].
Proof. repeat split. Qed.

Example json_examples :
  parse " [ ] " = Some (JArr [])
  /\ parse "[]" = Some (JArr [])
  /\ parse "[null,]" = None
  /\ parse "React,AWS" = None
  /\ parse "" = None
  /\ parse "[1, -2.5e+3, true]"
     = Some (JArr [JNum "1"; JNum "-2.5e+3"; JBool true])
  /\ parse "01" = None
  /\ parse "1." = None
  /\ parse "{ }" = Some (JObj [])
  /\ parse (stringify react_aws) = Some react_aws
  /\ String.length (stringify react_aws) = 15
  /\ to_string react_aws = "React,AWS"
  /\ to_string (JArr []) = ""
  /\ to_string (JArr [JNull; JArr [JStr "a"; JBool true]; JNum "1"; JObj []])
     = ",a,true,1,[object Object]"
  /\ parse (stringify (JArr [JNum "1"; JObj [("a", JArr [JNull])]]))
     = Some (JArr [JNum "1"; JObj [("a", JArr [JNull])]]).
Proof. repeat split. Qed.

Example trim_examples :
  trim "  Ann Lee-Ray " = "Ann Lee-Ray" /\ trim "   " = "" /\ trim "Jo" = "Jo".
Proof. repeat split. Qed.

Example varchar_examples :
  varchar true 3 "abc" = Some "abc"
  /\ varchar true 3 "abcd" = None
  /\ varchar true 3 "abc  " = Some "abc"
  /\ varchar false 3 "abcd" = Some "abc"
  /\ varchar false 3 "ab" = Some "ab".
Proof. repeat split. Qed.

(** A phone of 22 characters passes validation; the column has 20.  In
    strict mode the create and the update are refused with 500 and
    nothing is stored; otherwise the phone is stored without its last
    two characters. *)
Example long_phone_examples :
  valid sample_email_parts_ok PUT body_long_phone
  /\ put_user sample_email_parts_ok sample_digest sample_collation true
       salt_a 1 body_long_phone table_ann_bob
     = (server_error, table_ann_bob)
  /\ fst (put_user sample_email_parts_ok sample_digest sample_collation false
            salt_a 1 body_long_phone table_ann_bob)
     = updated_ok
  /\ map Db.phone
       (rows (snd (put_user sample_email_parts_ok sample_digest
                     sample_collation false salt_a 1 body_long_phone
                     table_ann_bob)))
     = [Some "+(1234)-1234-1234567"; Some "+1 555 7654321"].
Proof. repeat split. Qed.

(** *** C1 on the table of Ann and Bob *)

Lemma post_user_duplicate_email_witness :
  post_sample salt_b body_ann table_ann_bob
  = (mkResponse 400 (Message "Email already registered"), table_ann_bob).
Proof.
  apply (@post_user_duplicate_email sample_email_parts_ok sample_digest
           sample_collation sample_strict sample_collation_refl salt_b
           body_ann table_ann_bob "ann@example.com").
  - reflexivity.
  - reflexivity.
  - eexists. split; [left; reflexivity | reflexivity].
Defined.

(** *** C3: an update with an empty password *)

(** The sentence of the specification fails where the email of the
    payload belongs to another record (the answer is the conflict, not
    200), and where the name of the payload has white space around it
    (the stored name is trimmed). *)
Lemma put_user_empty_password_cex :
  (valid sample_email_parts_ok PUT body_ann_takes_bob
   /\ (exists r, In r (rows table_ann_bob) /\ Db.id r = 1%positive)
   /\ Req.password body_ann_takes_bob = Some ""
   /\ put_sample salt_b 1 body_ann_takes_bob table_ann_bob
      = (email_in_use, table_ann_bob))
  /\ (valid sample_email_parts_ok PUT body_ann_edit
      /\ Req.name body_ann_edit = Some "  Ann Lee-Ray "
      /\ fst (put_sample salt_b 1 body_ann_edit table_ann_bob) = updated_ok
      /\ map Db.name (rows (snd (put_sample salt_b 1 body_ann_edit
                                    table_ann_bob)))
         = ["Ann Lee-Ray"; "Bob Ray"]).
Proof.
  split.
  - split; [reflexivity|]. split; [|split; reflexivity].
    eexists. split; [left; reflexivity | reflexivity].
  - repeat split.
Qed.

Lemma put_user_password_witness :
  put_sample salt_b 1 body_ann_edit table_ann_bob
  = (updated_ok,
     mkTable
       (map (fun r =>
               if id_is 1 r
               then mkRow (Db.id r) (trim "  Ann Lee-Ray ") "ann@example.com"
                          (Db.password r) (Some "5551234567") "developer"
                          (Some (stringify (JArr [JStr "AWS"])))
               else r)
            (rows table_ann_bob))
       (auto_increment table_ann_bob)).
Proof.
  refine (proj1 (@put_user_password sample_email_parts_ok sample_digest
                   sample_collation sample_strict salt_b 1%positive
                   body_ann_edit table_ann_bob "  Ann Lee-Ray "
                   "ann@example.com" "5551234567" "developer" [JStr "AWS"]
                   _ _ _ _ _ _ _ _ _ _ _) _);
    try reflexivity; try (vm_compute; lia).
  eexists. split; [left; reflexivity | reflexivity].
Defined.

(** *** C4: Ann is created on the empty table and fetched *)

Lemma create_then_get_fails_witness :
  get_user 1 table_ann = (server_error, table_ann).
Proof.
  refine (proj1 (@create_then_get_fails sample_email_parts_ok sample_digest
                   sample_collation sample_strict salt_a body_ann Db.empty
                   _ _)
                (created_object body_ann 1) table_ann 1%positive _ _).
  - intros r [].
  - reflexivity.
  - reflexivity.
  - reflexivity.
Defined.

(** *** C5: the scenario has no name violation *)

Lemma scenario_has_no_name_violation :
  ~ exists errs,
      fst (post_sample salt_a scenario_body Db.empty)
      = mkResponse 400 (Errors errs)
      /\ In (mkError "name" "Name must be at least 2 characters") errs
      /\ In (mkError "email" "Invalid email address") errs
      /\ exists m, In (mkError "password" m) errs.
Proof.
  intros [errs [Hres [Hname _]]].
  change (fst (post_sample salt_a scenario_body Db.empty))
    with (mkResponse 400 (Errors scenario_errors)) in Hres.
  inversion Hres; subst errs. simpl in Hname.
  repeat (destruct Hname as [Hname|Hname]; [discriminate|]). exact Hname.
Qed.

(** *** C6: the same update with a new password, twice *)

(** Whatever the digest function, the second application of an update
    that carries a password leaves another hash than the first: the
    salts of the two requests differ. *)
Lemma put_user_twice_cex :
  valid sample_email_parts_ok PUT body_ann_new_password
  /\ (exists r, In r (rows table_ann) /\ Db.id r = 1%positive)
  /\ ~ exists digest,
         snd (put_user sample_email_parts_ok digest sample_collation
                sample_strict salt_b 1 body_ann_new_password
                (snd (put_user sample_email_parts_ok digest sample_collation
                        sample_strict salt_a 1 body_ann_new_password
                        table_ann)))
         = snd (put_user sample_email_parts_ok digest sample_collation
                  sample_strict salt_a 1 body_ann_new_password table_ann).
Proof.
  split; [reflexivity|]. split.
  - eexists. split; [left; reflexivity | reflexivity].
  - intros [digest H]. vm_compute in H. inversion H.
Qed.

(** *** C7: Ann without a phone *)

Lemma post_user_without_phone_witness :
  post_sample salt_a body_ann_no_phone Db.empty = (server_error, Db.empty).
Proof.
  apply (@post_user_without_phone sample_email_parts_ok sample_digest
           sample_collation sample_strict salt_a body_ann_no_phone Db.empty);
    reflexivity.
Defined.

(** *** C8: an update that does not pass validation *)

(** No record has id 7, yet the answer is the list of violations, not
    the 404: validation comes first. *)
Lemma put_user_invalid_before_not_found :
  (forall r, In r (rows table_ann_bob) -> Db.id r <> 7%positive)
  /\ fst (put_sample salt_a 7 body_short_name table_ann_bob)
     = mkResponse 400
         (Errors [mkError "name" "Name must be at least 2 characters"])
  /\ fst (put_sample salt_a 7 body_short_name table_ann_bob) <> not_found.
Proof.
  split; [|split; [reflexivity | discriminate]].
  intros r Hin. simpl in Hin.
  destruct Hin as [<-|[<-|[]]]; discriminate.
Qed.

Lemma put_user_sequence_witness :
  fst (put_sample salt_b 1 body_ann_takes_bob table_ann_bob) = email_in_use
  /\ put_sample salt_b 1 body_ann_edit table_ann_bob
     = (updated_ok, updated_table sample_digest salt_b 1 body_ann_edit
                                  table_ann_bob)
  /\ put_sample salt_b 7 body_ann_edit table_ann_bob
     = (not_found, table_ann_bob).
Proof.
  split; [|split].
  - apply (proj1 (proj2 (@put_user_sequence sample_email_parts_ok
                           sample_digest sample_collation sample_strict
                           salt_b 1%positive body_ann_takes_bob
                           table_ann_bob eq_refl))).
    + eexists. split; [left; reflexivity | reflexivity].
    + eexists. split; [right; left; reflexivity|]. split; [discriminate|].
      reflexivity.
  - apply (proj1 (proj2 (@put_user_sequence sample_email_parts_ok
                           sample_digest sample_collation sample_strict
                           salt_b 1%positive body_ann_edit table_ann_bob
                           eq_refl))).
    + eexists. split; [left; reflexivity | reflexivity].
    + discriminate.
    + discriminate.
    + reflexivity.
  - apply (proj1 (@put_user_sequence sample_email_parts_ok
                    sample_digest sample_collation sample_strict salt_b
                    7%positive body_ann_edit table_ann_bob eq_refl)).
    intros r Hin. simpl in Hin.
    destruct Hin as [<-|[<-|[]]]; discriminate.
Defined.

(** *** C10: skills that are not strings *)

(** The create of a payload whose skills are the array [null] passes
    validation and stores a text that is not the serialization of an
    array of strings. *)
Lemma skills_need_not_be_strings :
  skills_serialized is_string Db.empty
  /\ valid sample_email_parts_ok POST body_null_skill
  /\ fst (post_sample salt_a body_null_skill Db.empty)
     = mkResponse 201 (User (created_object body_null_skill 1))
  /\ map Db.skills (rows (snd (post_sample salt_a body_null_skill Db.empty)))
     = [Some "[null]"]
  /\ ~ skills_serialized is_string
         (snd (post_sample salt_a body_null_skill Db.empty)).
Proof.
  split; [intros r []|]. split; [reflexivity|]. split; [reflexivity|].
  split; [reflexivity|].
  intros H.
  destruct (H (created_row sample_digest salt_a body_null_skill 1))
    as [l [Hall Hl]]; [left; reflexivity|].
  change (Db.skills (created_row sample_digest salt_a body_null_skill 1))
    with (Some "[null]") in Hl.
  destruct Hall as [|x l [s ->] _]; discriminate.
Qed.

(** *** A run of requests, and the form, on the samples *)

Definition route_sample : string -> Call -> Table -> Response * Table :=
  route sample_email_parts_ok sample_digest sample_collation sample_strict.

Definition serve_sample
  : list (string * Call) -> Table -> list Response * Table :=
  serve sample_email_parts_ok sample_digest sample_collation sample_strict.

(** Ann and Bob register, Ann is edited, Bob is deleted, a third user
    registers, and the list is asked for. *)
Definition sample_calls : list (string * Call) :=
  [(salt_a, PostUser body_ann); (salt_b, PostUser body_bob);
   (salt_b, PutUser 1 body_ann_edit); (salt_a, DeleteUser 2);
   (salt_a, PostUser body_null_skill); (salt_a, GetUsers)].

Example sample_run :
  map status (fst (serve_sample sample_calls Db.empty))
  = [201; 201; 200; 200; 201; 500]
  /\ created_ids (fst (serve_sample sample_calls Db.empty))
     = [1%positive; 2%positive; 3%positive]
  /\ map Db.id (rows (snd (serve_sample sample_calls Db.empty)))
     = [1%positive; 3%positive]
  /\ map Db.name (rows (snd (serve_sample sample_calls Db.empty)))
     = ["Ann Lee-Ray"; "Cy Doe"].
Proof. repeat split. Qed.

(** The list route can answer 200: on no record, and on records whose
    skills happen to convert to a JSON text, which it then shows in
    place of the skills. *)
Example list_can_answer :
  get_users Db.empty = (mkResponse 200 (Users []), Db.empty)
  /\ map (Res.get "skills")
       (objects_of
          (fst (get_users
                  (snd (post_sample salt_a body_odd_skill Db.empty)))))
     = [FJson (JArr [])].
Proof. repeat split. Qed.

Lemma table_ann_bob_valid :
  rows_valid sample_email_parts_ok sample_digest sample_strict table_ann_bob.
Proof.
  unfold table_ann_bob, table_ann, post_sample.
  apply (@route_rows_valid sample_email_parts_ok sample_digest
           sample_collation sample_strict salt_b (PostUser body_bob)).
  apply (@route_rows_valid sample_email_parts_ok sample_digest
           sample_collation sample_strict salt_a (PostUser body_ann)).
  intros r [].
Qed.

Lemma failed_call_keeps_table_witness :
  snd (route_sample salt_b (PostUser body_ann) table_ann_bob) = table_ann_bob.
Proof.
  apply (@failed_call_keeps_table sample_email_parts_ok sample_digest
           sample_collation sample_strict salt_b (PostUser body_ann)
           table_ann_bob);
    vm_compute; discriminate.
Defined.

Lemma serve_consistent_witness :
  consistent sample_collation (snd (serve_sample sample_calls Db.empty)).
Proof.
  apply (@serve_consistent sample_email_parts_ok sample_digest
           sample_collation sample_strict sample_collation_sym sample_calls
           Db.empty).
  apply consistent_empty.
Defined.

Lemma serve_rows_valid_witness :
  rows_valid sample_email_parts_ok sample_digest sample_strict
             (snd (serve_sample sample_calls Db.empty))
  /\ (forall r, In r (rows (snd (serve_sample sample_calls Db.empty))) ->
        String.length (Db.name r) <= 100
        /\ String.length (Db.email r) <= 100
        /\ (exists s, Db.phone r = Some s /\ String.length s <= 20)).
Proof.
  apply (@serve_rows_valid sample_email_parts_ok sample_digest
           sample_collation sample_strict sample_calls Db.empty).
  intros r [].
Defined.

Lemma phone_accepted_shape_witness :
  3 <= String.length "+1 555 7654321" <= 22
  /\ Forall (fun c => phone_char c = true) (chars "+1 555 7654321").
Proof.
  apply (@phone_accepted_shape "+1 555 7654321"). reflexivity.
Defined.

Example phone_bounds_are_reached :
  Regex.full re_phone "123" = true
  /\ Regex.full re_phone "+(1234)-1234-123456789" = true
  /\ String.length "+(1234)-1234-123456789" = 22.
Proof. repeat split. Qed.

(** The form after Ann typed her data and left the phone blank. *)
Definition form_ann_no_phone : Client.AppState :=
  dispatch (Change InPassword "Abcdef1!")
    (dispatch (Change InEmail "ann@example.com")
       (dispatch (Change InName "Ann Lee") mounted)).

Lemma form_phone_is_mandatory_witness :
  exists errs,
    route_sample salt_a
      (PostUser (body_of_form (Client.formData form_ann_no_phone))) Db.empty
    = (mkResponse 400 (Errors errs), Db.empty)
    /\ In (mkError "phone" "Invalid phone number format") errs.
Proof.
  apply (@form_phone_is_mandatory sample_email_parts_ok sample_digest
           sample_collation sample_strict salt_a form_ann_no_phone Db.empty).
  - reflexivity.
  - cbn. lia.
Defined.

Lemma rejection_toast_witness :
  errorMessage
    (Some (fst (route_sample salt_a
                  (PostUser (body_of_form (Client.formData form_ann_no_phone)))
                  Db.empty)))
  <> "Operation failed"
  /\ ((exists e rest,
         body (fst (route_sample salt_a
                      (PostUser
                         (body_of_form (Client.formData form_ann_no_phone)))
                      Db.empty))
         = Errors (e :: rest)
         /\ errorMessage
              (Some (fst (route_sample salt_a
                            (PostUser
                               (body_of_form
                                  (Client.formData form_ann_no_phone)))
                            Db.empty)))
            = msg e)
      \/ (exists m,
            body (fst (route_sample salt_a
                         (PostUser
                            (body_of_form
                               (Client.formData form_ann_no_phone)))
                         Db.empty))
            = Message m
            /\ errorMessage
                 (Some (fst (route_sample salt_a
                               (PostUser
                                  (body_of_form
                                     (Client.formData form_ann_no_phone)))
                               Db.empty)))
               = m)).
Proof.
  apply (@rejection_toast sample_email_parts_ok sample_digest
           sample_collation sample_strict salt_a form_ann_no_phone
           (PostUser (body_of_form (Client.formData form_ann_no_phone)))
           Db.empty);
    reflexivity.
Defined.

(** The row of Ann in the table of Ann and Bob. *)
Definition row_ann : Row := created_row sample_digest salt_a body_ann 1.



(** An update of Ann with a phone of 22 characters, in strict mode. *)
Lemma strict_mode_refuses_long_values_witness :
  put_sample salt_a 1 body_long_phone table_ann_bob
  = (server_error, table_ann_bob).
Proof.
  refine (proj2 (@strict_mode_refuses_long_values sample_email_parts_ok
                   sample_digest sample_collation sample_strict salt_a
                   1%positive body_long_phone table_ann_bob
                   "+(1234)-1234-123456789" eq_refl eq_refl _) _ _ _).
  - right. vm_compute. lia.
  - reflexivity.
  - reflexivity.
  - reflexivity.
Defined.

(** The two reads on the table of Ann and Bob: both answer 500. *)
Lemma reads_fail_on_form_skills_witness :
  get_users table_ann_bob = (server_error, table_ann_bob)
  /\ get_user 1 table_ann_bob = (server_error, table_ann_bob).
Proof.
  destruct (@reads_fail_on_form_skills table_ann_bob row_ann
              ["React"; "AWS"]) as [Hlist Hfetch].
  - left. reflexivity.
  - reflexivity.
  - repeat constructor.
  - split; [exact Hlist|]. apply Hfetch.
    exact (proj1 (proj2 table_ann_bob_consistent)).
Defined.

End Concrete.
